(** * Invoice extraction pipeline: [app/functions.py]

    A shallow embedding of the ingestion-to-retrieval pipeline of
    [app/functions.py] and the properties of its chunking, content-addressed
    deduplication, collection store, temporary-file handling and batch
    orchestration.

    Python values are modelled as follows.
    - [str]: a list of Unicode code points ([N]); [len] is the list length.
    - [bytes]: a list of octets ([N] below 256).
    - exceptions: the type [exn]; a call that may raise returns a [result].
    - effects: programs are state transformers [prog S A] that return a
      [result] together with the state reached, so that the state survives
      an exception (a [finally] clause runs on it).
    - the external collaborators (PDF parser, embedding model, vector index,
      language model, the operating system's temporary files) are the
      fields of a record [Env] of capabilities.
    - the library code the module calls and whose behaviour the properties
      depend on is embedded as the libraries have it: the recursive
      character text splitter, [uuid.uuid5] over SHA-1, the get-or-create
      and upsert of the vector index, [pandas.concat] and
      [DataFrame.insert]. *)

From Stdlib Require Import ZArith NArith List String Ascii Lia Bool.
From stdpp Require Import base option list gmap strings.

Local Open Scope N_scope.

(** ** Python strings and bytes *)

Abbreviation str := (list N).
Abbreviation bytes := (list N).

(** A literal of the source, read as a list of code points. *)
Definition py (s : string) : str :=
  map N_of_ascii (list_ascii_of_string s).

Definition LF : N := 10.
Definition SPACE : N := 32.

(** [len(s)] of a string or a list, as a Python integer. *)
Definition len {A} (s : list A) : Z := Z.of_nat (length s).

(** [str.isspace] on one code point, which is also the class [\s] of [re]
    on [str] patterns. *)
Definition isspace (c : N) : bool :=
  ((9 <=? c) && (c <=? 13)) || ((28 <=? c) && (c <=? 32))
  || (c =? 133) || (c =? 160) || (c =? 5760)
  || ((8192 <=? c) && (c <=? 8202))
  || (c =? 8232) || (c =? 8233) || (c =? 8239) || (c =? 8287) || (c =? 12288).

(** First code points of the blocks of ten decimal digits (Unicode general
    category Nd); the mathematical digits U+1D7CE..U+1D7FF are five such
    blocks in a row. *)
Definition decimal_blocks : list N :=
  [ 0x30; 0x660; 0x6f0; 0x7c0; 0x966; 0x9e6; 0xa66; 0xae6; 0xb66; 0xbe6;
    0xc66; 0xce6; 0xd66; 0xde6; 0xe50; 0xed0; 0xf20; 0x1040; 0x1090; 0x17e0;
    0x1810; 0x1946; 0x19d0; 0x1a80; 0x1a90; 0x1b50; 0x1bb0; 0x1c40; 0x1c50;
    0xa620; 0xa8d0; 0xa900; 0xa9d0; 0xa9f0; 0xaa50; 0xabf0; 0xff10; 0x104a0;
    0x10d30; 0x11066; 0x110f0; 0x11136; 0x111d0; 0x112f0; 0x11450; 0x114d0;
    0x11650; 0x116c0; 0x11730; 0x118e0; 0x11950; 0x11c50; 0x11d50; 0x11da0;
    0x16a60; 0x16ac0; 0x16b50;
    0x1d7ce; 0x1d7d8; 0x1d7e2; 0x1d7ec; 0x1d7f6;
    0x1e140; 0x1e2f0; 0x1e950; 0x1fbf0 ].

(** [str.isdecimal] on one code point: the class [\d] of [re]. *)
Definition isdecimal (c : N) : bool :=
  existsb (fun b => (b <=? c) && (c <? b + 10)) decimal_blocks.

(** [s.strip()]: leading and trailing whitespace removed. *)
Fixpoint lstrip (s : str) : str :=
  match s with
  | c :: s' => if isspace c then lstrip s' else s
  | [] => []
  end.

Definition rstrip (s : str) : str := rev (lstrip (rev s)).

Definition strip (s : str) : str := rstrip (lstrip s).

(** [sep.join(parts)]. *)
Fixpoint join (sep : str) (parts : list str) : str :=
  match parts with
  | [] => []
  | [p] => p
  | p :: ps => p ++ sep ++ join sep ps
  end.

(** [bytes(s, "utf-8")]: [None] stands for [UnicodeEncodeError], raised on a
    surrogate code point (a code point above U+10FFFF is no [str] at all). *)
Definition utf8_char (c : N) : option bytes :=
  if c <? 0x80 then Some [c]
  else if c <? 0x800 then Some [0xC0 + c / 64; 0x80 + c mod 64]
  else if (0xD800 <=? c) && (c <=? 0xDFFF) then None
  else if c <? 0x10000 then
    Some [0xE0 + c / 4096; 0x80 + (c / 64) mod 64; 0x80 + c mod 64]
  else if c <? 0x110000 then
    Some [0xF0 + c / 262144; 0x80 + (c / 4096) mod 64;
          0x80 + (c / 64) mod 64; 0x80 + c mod 64]
  else None.

Fixpoint utf8_encode (s : str) : option bytes :=
  match s with
  | [] => Some []
  | c :: s' =>
      match utf8_char c, utf8_encode s' with
      | Some b, Some bs => Some (b ++ bs)
      | _, _ => None
      end
  end.

(** ** Exceptions and results *)

Inductive exn : Type :=
  | NameError (name : string)
  | UnboundLocalError (name : string)
  | ModuleNotFoundError (module : string)
  | UnicodeEncodeError
  | ValueError (msg : string)
  | IndexError
  | FileNotFoundError (path : str)
  | OSError (msg : string)
  (** an error raised inside an external collaborator *)
  | LibraryError (origin msg : string).

Inductive result (A : Type) : Type :=
  | Ok (a : A)
  | Raise (e : exn).
Arguments Ok {A} a.
Arguments Raise {A} e.

(** Pure code that may raise. *)
Definition rbind {A B} (r : result A) (k : A -> result B) : result B :=
  match r with
  | Ok a => k a
  | Raise e => Raise e
  end.

Fixpoint rmap {A B} (f : A -> result B) (l : list A) : result (list B) :=
  match l with
  | [] => Ok []
  | a :: l' =>
      rbind (f a) (fun b => rbind (rmap f l') (fun bs => Ok (b :: bs)))
  end.

(** Code with effects on a state [S]; the state is returned on both exits. *)
Definition prog (S A : Type) : Type := S -> result A * S.

Definition ret {S A} (a : A) : prog S A := fun s => (Ok a, s).
Definition lift {S A} (r : result A) : prog S A := fun s => (r, s).

Definition bind {S A B} (m : prog S A) (k : A -> prog S B) : prog S B :=
  fun s =>
    match m s with
    | (Ok a, s') => k a s'
    | (Raise e, s') => (Raise e, s')
    end.

Definition modify {S} (f : S -> S) : prog S unit := fun s => (Ok tt, f s).

(** [try: body finally: cleanup].  The cleanup runs on both exits of the
    body; when the cleanup raises, its exception is the one that leaves the
    statement, otherwise the outcome of the body does. *)
Definition try_finally {S A} (body : prog S A) (cleanup : prog S unit)
  : prog S A :=
  fun s =>
    let '(r, s1) := body s in
    match cleanup s1 with
    | (Ok _, s2) => (r, s2)
    | (Raise e, s2) => (Raise e, s2)
    end.

Declare Scope prog_scope.
Delimit Scope prog_scope with prog.
Notation "x <- m ;; k" := (bind m (fun x => k))
  (at level 100, m at next level, right associativity) : prog_scope.
Notation "m ;;; k" := (bind m (fun _ => k))
  (at level 100, right associativity) : prog_scope.

(** ** [hashlib.sha1] and [uuid.uuid5] *)

Module Sha1.
Local Open Scope Z_scope.

Definition w32 (x : Z) : Z := x mod 2 ^ 32.

Definition rotl (n x : Z) : Z :=
  w32 (Z.lor (Z.shiftl x n) (Z.shiftr x (32 - n))).

Definition lnot32 (x : Z) : Z := Z.lxor x 0xFFFFFFFF.

(** Message padding: a one bit, zeros up to 56 modulo 64, then the bit
    length on eight octets, big endian. *)
Definition be_bytes (n : nat) (x : Z) : list Z :=
  map (fun i => (x / 2 ^ (8 * Z.of_nat i)) mod 256) (rev (seq 0 n)).

Definition pad (m : list Z) : list Z :=
  let l := Z.of_nat (length m) in
  let k := Z.to_nat ((55 - l) mod 64) in
  m ++ [0x80] ++ repeat 0 k ++ be_bytes 8 (8 * l).

Definition be_word (b : list Z) : Z :=
  fold_left (fun acc x => acc * 256 + x) b 0.

(** The sixteen words of one 64-octet block. *)
Fixpoint words (n : nat) (b : list Z) : list Z :=
  match n with
  | O => []
  | S n' => be_word (take 4 b) :: words n' (drop 4 b)
  end.

Fixpoint blocks (n : nat) (m : list Z) : list (list Z) :=
  match n with
  | O => []
  | S n' => words 16 (take 64 m) :: blocks n' (drop 64 m)
  end.

Definition f (t : nat) (b c d : Z) : Z :=
  if (t <? 20)%nat then Z.lor (Z.land b c) (Z.land (lnot32 b) d)
  else if (t <? 40)%nat then Z.lxor (Z.lxor b c) d
  else if (t <? 60)%nat then
    Z.lor (Z.lor (Z.land b c) (Z.land b d)) (Z.land c d)
  else Z.lxor (Z.lxor b c) d.

Definition K (t : nat) : Z :=
  if (t <? 20)%nat then 0x5A827999
  else if (t <? 40)%nat then 0x6ED9EBA1
  else if (t <? 60)%nat then 0x8F1BBCDC
  else 0xCA62C1D6.

Record regs := Regs { ra : Z; rb : Z; rc : Z; rd : Z; re : Z }.

(** The word of round [t >= 16] from the window of the last sixteen
    words, the most recent first. *)
Definition next_word (win : list Z) : Z :=
  rotl 1 (Z.lxor (Z.lxor (Z.lxor (nth 2 win 0) (nth 7 win 0))
                         (nth 13 win 0)) (nth 15 win 0)).

Definition round (t : nat) (w : Z) (r : regs) : regs :=
  Regs (w32 (rotl 5 (ra r) + f t (rb r) (rc r) (rd r) + re r + K t + w))
       (ra r) (rotl 30 (rb r)) (rc r) (rd r).

(** Rounds [t .. t + n - 1]; [todo] holds the words of the block not yet
    used, [win] the window. *)
Fixpoint rounds (n t : nat) (todo win : list Z) (r : regs) : regs :=
  match n with
  | O => r
  | S n' =>
      let w := match todo with
               | w :: _ => w
               | [] => next_word win
               end in
      rounds n' (S t) (tl todo) (w :: take 15 win) (round t w r)
  end.

Definition compress (h : regs) (block : list Z) : regs :=
  let r := rounds 80 0 block [] h in
  Regs (w32 (ra h + ra r)) (w32 (rb h + rb r)) (w32 (rc h + rc r))
       (w32 (rd h + rd r)) (w32 (re h + re r)).

Definition init : regs :=
  Regs 0x67452301 0xEFCDAB89 0x98BADCFE 0x10325476 0xC3D2E1F0.

(** [hashlib.sha1(m).digest()], twenty octets. *)
Definition digest (m : list Z) : list Z :=
  let p := pad m in
  let h := fold_left compress (blocks (length p / 64) p) init in
  flat_map (be_bytes 4) [ra h; rb h; rc h; rd h; re h].
End Sha1.

Module Uuid.
Local Open Scope Z_scope.

(** A UUID is its 128-bit integer, the attribute [int] of [uuid.UUID]. *)
Definition UUID := Z.

(** [uuid.NAMESPACE_DNS], 6ba7b810-9dad-11d1-80b4-00c04fd430c8. *)
Definition NAMESPACE_DNS : UUID := 0x6ba7b8109dad11d180b400c04fd430c8.

(** [UUID.bytes]: the sixteen octets, big endian. *)
Definition uuid_bytes (u : UUID) : list Z := Sha1.be_bytes 16 u.

(** [UUID(bytes=b, version=v)]: the variant bits are set to RFC 4122 and
    the version nibble to [v]. *)
Definition of_bytes_version (b : list Z) (v : Z) : UUID :=
  let i := Sha1.be_word b in
  let i := Z.land i (Z.lnot (Z.shiftl 0xc000 48)) in
  let i := Z.lor i (Z.shiftl 0x8000 48) in
  let i := Z.land i (Z.lnot (Z.shiftl 0xf000 64)) in
  Z.lor i (Z.shiftl v 76).

(** [uuid.uuid5(namespace, name)] on the UTF-8 octets of [name]. *)
Definition uuid5 (namespace : UUID) (name : list Z) : UUID :=
  of_bytes_version (take 16 (Sha1.digest (uuid_bytes namespace ++ name))) 5.

Definition hex_digit (d : Z) : N :=
  Z.to_N (if d <? 10 then 48 + d else 87 + d).

(** ['%032x' % u]. *)
Definition hex32 (u : UUID) : str :=
  map (fun i => hex_digit ((u / 16 ^ Z.of_nat i) mod 16)) (rev (seq 0 32)).

(** [str(u)]: the digits in groups of 8-4-4-4-12 joined by hyphens. *)
Definition to_str (u : UUID) : str :=
  let h := hex32 u in
  let dash := [45%N] in
  take 8 h ++ dash ++ take 4 (drop 8 h) ++ dash ++ take 4 (drop 12 h)
    ++ dash ++ take 4 (drop 16 h) ++ dash ++ drop 20 h.
(** A UUID made by [uuid5] is a number of 128 bits. *)
Definition fits128 (x : Z) : Prop := Z.land x (Z.ones 128) = x.

(** Reading the digits back. *)
Definition hex_value (c : N) : Z :=
  let z := Z.of_N c in if z <? 58 then z - 48 else z - 87.

Definition unhex (digits : str) : Z :=
  fold_left (fun acc c => acc * 16 + hex_value c) digits 0.

(** The last [n] digits of ['%x' % u]. *)
Definition hex_digits (n : nat) (u : Z) : str :=
  map (fun i => hex_digit ((u / 16 ^ Z.of_nat i) mod 16)) (rev (seq 0 n)).

(** The digits of [str(u)], without the hyphens. *)
Definition undash (s : str) : str :=
  take 8 s ++ take 4 (drop 9 s) ++ take 4 (drop 14 s) ++ take 4 (drop 19 s)
  ++ drop 24 s.

End Uuid.


(** ** Documents *)

(** The metadata [PyPDFLoader] attaches to a page: the path it read and the
    page number. *)
Record Metadata := { source : str; page : Z }.

(** [langchain_core.documents.Document]. *)
Record Document := { page_content : str; metadata : Metadata }.

(** ** [clean_filename] *)

(** Length of the match of [\s\(\d+\)] at the start of [s], if any.  The
    digits and the closing parenthesis are disjoint classes, so the greedy
    [\d+] takes the whole run of digits. *)
Fixpoint decimal_run (s : str) : nat :=
  match s with
  | c :: s' => if isdecimal c then S (decimal_run s') else O
  | [] => O
  end.

Definition match_numbered (s : str) : option nat :=
  match s with
  | c :: 40 :: rest =>
      if isspace c then
        match decimal_run rest with
        | O => None
        | n =>
            match drop n rest with
            | 41 :: _ => Some (n + 3)%nat
            | _ => None
            end
        end
      else None
  | _ => None
  end.

(** [re.sub(pattern, '', s)]: the matches are found left to right and do not
    overlap; [skip] counts the code points of the current match that are
    still to be dropped. *)
Fixpoint sub_numbered (skip : nat) (s : str) : str :=
  match s with
  | [] => []
  | c :: s' =>
      match skip with
      | S k => sub_numbered k s'
      | O =>
          match match_numbered s with
          | Some n => sub_numbered (n - 1) s'
          | None => c :: sub_numbered 0 s'
          end
      end
  end.

Definition clean_filename (filename : str) : str :=
  let new_filename := sub_numbered 0 filename in
  new_filename.

(** ** [split_document]: the recursive character text splitter *)

Module Splitter.
Local Open Scope Z_scope.

Fixpoint startswith (s sep : str) : bool :=
  match sep, s with
  | [], _ => true
  | a :: sep', b :: s' => (a =? b)%N && startswith s' sep'
  | _ :: _, [] => false
  end.

(** [re.search(re.escape(sep), text)] finds a match. *)
Fixpoint found (sep text : str) : bool :=
  startswith text sep ||
  match text with
  | [] => false
  | _ :: text' => found sep text'
  end.

(** [re.split(sep, text)] for a literal, non-empty [sep]: the pieces
    between the occurrences of [sep], found left to right without
    overlap.  [cur] is the piece being read, reversed. *)
Fixpoint re_split (sep : str) (skip : nat) (text cur : str) : list str :=
  match text with
  | [] => [rev cur]
  | c :: text' =>
      match skip with
      | S k => re_split sep k text' cur
      | O =>
          if startswith text sep
          then rev cur :: re_split sep (length sep - 1) text' []
          else re_split sep 0 text' (c :: cur)
      end
  end.

(** The truth value of a string or a list. *)
Definition nonempty {A} (s : list A) : bool :=
  match s with [] => false | _ => true end.

(** [_split_text_with_regex(text, separator, keep_separator=True)]: every
    piece but the first keeps the separator in front of it; empty pieces
    are dropped. *)
Definition split_text_with_regex (text separator : str) : list str :=
  let splits :=
    match separator with
    | [] => map (fun c => [c]) text
    | _ =>
        match re_split separator 0 text [] with
        | first :: others => first :: map (app separator) others
        | [] => []
        end
    end in
  List.filter nonempty splits.

Section WithSizes.
Variables (chunk_size chunk_overlap : Z).

(** [_join_docs]: [None] when nothing but whitespace is left. *)
Definition join_docs (docs : list str) (separator : str) : option str :=
  let text := strip (join separator docs) in
  match text with
  | [] => None
  | _ => Some text
  end.

Definition emit (docs : list str) (separator : str) : list str :=
  match join_docs docs separator with
  | Some doc => [doc]
  | None => []
  end.

Definition sep_if (b : bool) (separator_len : Z) : Z :=
  if b then separator_len else 0.

(** The inner [while] of [_merge_splits]: pieces leave the front of the
    window until what stays is within the overlap and leaves room for
    the piece of length [_len].  On an empty window the loop is over:
    [total] is then 0 and the overlap is not negative. *)
Fixpoint pop_window (separator_len _len : Z) (current_doc : list str)
    (total : Z) : list str * Z :=
  match current_doc with
  | [] => ([], total)
  | c :: rest =>
      if (total >? chunk_overlap)
         || ((total + _len + sep_if (0 <? len current_doc) separator_len
              >? chunk_size) && (total >? 0))
      then pop_window separator_len _len rest
             (total - (len c + sep_if (1 <? len current_doc) separator_len))
      else (current_doc, total)
  end.

(** The [for d in splits] loop of [_merge_splits] and the statements
    after it; the result lists the chunks appended to [docs]. *)
Fixpoint merge_loop (separator : str) (splits current_doc : list str)
    (total : Z) : list str :=
  let separator_len := len separator in
  match splits with
  | [] => emit current_doc separator
  | d :: splits' =>
      let _len := len d in
      let '(docs, current_doc, total) :=
        if total + _len + sep_if (0 <? len current_doc) separator_len
           >? chunk_size
        then
          if 0 <? len current_doc then
            let '(cur, tot) :=
              pop_window separator_len _len current_doc total in
            (emit current_doc separator, cur, tot)
          else ([], current_doc, total)
        else ([], current_doc, total) in
      let current_doc := current_doc ++ [d] in
      docs ++ merge_loop separator splits' current_doc
                (total + _len + sep_if (1 <? len current_doc) separator_len)
  end.

(** The windows [_merge_splits] joins, in order: the value of
    [current_doc] each time a chunk is appended to [docs], the last time
    after the loop.  [merge_loop] joins and strips each of them. *)
Fixpoint merge_windows (separator : str) (splits current_doc : list str)
    (total : Z) : list (list str) :=
  let separator_len := len separator in
  match splits with
  | [] => [current_doc]
  | d :: splits' =>
      let _len := len d in
      let '(windows, current_doc, total) :=
        if total + _len + sep_if (0 <? len current_doc) separator_len
           >? chunk_size
        then
          if 0 <? len current_doc then
            let '(cur, tot) :=
              pop_window separator_len _len current_doc total in
            ([current_doc], cur, tot)
          else ([], current_doc, total)
        else ([], current_doc, total) in
      let current_doc := current_doc ++ [d] in
      windows ++ merge_windows separator splits' current_doc
                   (total + _len + sep_if (1 <? len current_doc) separator_len)
  end.


Definition merge_splits (splits : list str) (separator : str) : list str :=
  merge_loop separator splits [] 0.

(** The loop of [_split_text] over the pieces: short pieces gather in
    [good_splits] and are merged; a piece of [chunk_size] or more is
    split further by [deeper] when separators are left, and is a chunk
    of its own otherwise.  [keep_separator] is set, so the pieces are
    merged with the empty separator. *)
Fixpoint split_loop (deeper : option (str -> list str))
    (splits good_splits : list str) : list str :=
  match splits with
  | [] =>
      if nonempty good_splits then merge_splits good_splits [] else []
  | s :: splits' =>
      if len s <? chunk_size
      then split_loop deeper splits' (good_splits ++ [s])
      else
        (if nonempty good_splits then merge_splits good_splits [] else [])
        ++ match deeper with
           | None => [s]
           | Some split_text => split_text s
           end
        ++ split_loop deeper splits' []
  end.

(** [_split_text(text, separators)] for the separators [sep :: rest].
    The separator used is the first of the list that occurs in [text],
    and the separators after it are left for the pieces; when none
    occurs it is the last of the list and nothing is left. *)
Fixpoint split_text_with (sep : str) (rest : list str) (text : str)
    {struct rest} : list str :=
  match sep with
  | [] => split_loop None (split_text_with_regex text []) []
  | _ =>
      if found sep text then
        split_loop
          match rest with
          | [] => None
          | sep' :: rest' => Some (split_text_with sep' rest')
          end
          (split_text_with_regex text sep) []
      else
        match rest with
        | [] => split_loop None (split_text_with_regex text sep) []
        | sep' :: rest' => split_text_with sep' rest' text
        end
  end.

(** A chunk is within the size, or it is one piece that the separators
    cannot break: no space and no line feed after its first code point. *)
Definition sized_or_unbroken (c : str) : Prop :=
  len c <= chunk_size \/ ((SPACE ∉ tl c) /\ (LF ∉ tl c)).

(** The separators [split_document] passes: paragraph, line, space. *)
Definition separators : list str := [[LF; LF]; [LF]; [SPACE]].

(** [split_text]: [_split_text] with all the separators. *)
Definition split_text (text : str) : list str :=
  match separators with
  | sep :: rest => split_text_with sep rest text
  | [] => []
  end.

(** [split_documents]: every chunk inherits the metadata of its page. *)
Definition split_documents (documents : list Document) : list Document :=
  flat_map
    (fun doc =>
       map (fun chunk => {| page_content := chunk;
                            metadata := metadata doc |})
           (split_text (page_content doc)))
    documents.
End WithSizes.
End Splitter.

(** [split_document]: the constructor of the splitter rejects sizes that
    make no sense, then the documents are split. *)
Definition split_document (documents : list Document)
    (chunk_size chunk_overlap : Z) : result (list Document) :=
  if (chunk_size <=? 0)%Z then Raise (ValueError "chunk_size must be > 0")
  else if (chunk_overlap <? 0)%Z
  then Raise (ValueError "chunk_overlap must be >= 0")
  else if (chunk_overlap >? chunk_size)%Z
  then Raise (ValueError "larger chunk overlap than chunk size")
  else Ok (Splitter.split_documents chunk_size chunk_overlap documents).



(** ** The world: files on disk and the persisted vector index *)

(** One row of a collection: what is stored under an id. *)
Record Entry := {
  embedding : list Z;
  document : str;
  entry_metadata : Metadata
}.

(** [fs] maps the path of every file on disk to its content; [db] maps a
    persist directory and a collection name to the collection, itself a map
    from ids to entries. *)
Record World := {
  fs : gmap str bytes;
  db : gmap (str * str) (gmap str Entry)
}.

Definition set_fs (f : gmap str bytes -> gmap str bytes) (w : World) : World :=
  {| fs := f (fs w); db := db w |}.

Definition set_db
    (f : gmap (str * str) (gmap str Entry) -> gmap (str * str) (gmap str Entry))
    (w : World) : World :=
  {| fs := fs w; db := f (db w) |}.

(** The text stored under an id in a collection of the index, if any. *)
Definition stored_text (w : World) (directory collection id : str)
  : option str :=
  match db w !! (directory, collection) with
  | Some c => document <$> c !! id
  | None => None
  end.

(** The value the language model returns: an instance of the schema
    [ExtractedInfo]. *)
Record ExtractedInfo := {
  invoice_items : str;
  invoice_date : str;
  business_name : str;
  total_amount : str
}.

(** The external collaborators.  Each one may raise. *)
Record Env := {
  (** [tempfile.NamedTemporaryFile(delete=False)]: the path of the file it
      creates, given the files on disk *)
  named_temporary_file : gmap str bytes -> result str;
  (** [temp_file.write(data)] on the file at that path *)
  file_write : str -> bytes -> result unit;
  (** the PDF parser behind [PyPDFLoader.load]: the text of every page *)
  pdf_pages : bytes -> result (list str);
  (** the embedding model, on one text *)
  embed : str -> result (list Z);
  (** the argument checks of the vector index, on a collection name and the
      ids of a batch *)
  index_validate : str -> list str -> result unit;
  (** the similarity search of a collection for a query *)
  similarity_search : gmap str Entry -> str -> result (list Document);
  (** the language model with structured output, on a prompt *)
  llm_structured : str -> result ExtractedInfo;
  (** the order in which the interpreter iterates over a set of strings,
      given the strings in the order they were added *)
  set_iteration : list str -> list str
}.

(** An uploaded file: its name and what [read()] does. *)
Record UploadedFile := {
  name : str;
  read : result bytes
}.

(** ** [get_pdf_text] *)

(** The local variables of [get_pdf_text]; [None] is an unbound local. *)
Record Locals := {
  input_file : option bytes;
  temp_file : option str;
  loader : option str;
  documents : option (list Document)
}.

Definition no_locals : Locals :=
  {| input_file := None; temp_file := None; loader := None;
     documents := None |}.

Section GetPdfText.
Variable env : Env.
Local Open Scope prog_scope.

Abbreviation frame := (Locals * World)%type.

(** Reading a local variable raises [UnboundLocalError] when it was never
    assigned. *)
Definition load {A} (var : string) (field : Locals -> option A)
  : prog frame A :=
  fun s =>
    match field (fst s) with
    | Some v => (Ok v, s)
    | None => (Raise (UnboundLocalError var), s)
    end.

Definition store (f : Locals -> Locals) : prog frame unit :=
  modify (fun s => (f (fst s), snd s)).

Definition world {A} (m : prog World A) : prog frame A :=
  fun s => let '(r, w) := m (snd s) in (r, (fst s, w)).

(** [tempfile.NamedTemporaryFile(delete=False)] creates an empty file. *)
Definition NamedTemporaryFile : prog World str :=
  fun w =>
    match named_temporary_file env (fs w) with
    | Ok path => (Ok path, set_fs <[path := []]> w)
    | Raise e => (Raise e, w)
    end.

Definition write (path : str) (data : bytes) : prog World unit :=
  fun w =>
    match file_write env path data with
    | Ok _ => (Ok tt, set_fs <[path := data]> w)
    | Raise e => (Raise e, w)
    end.

(** [temp_file.close()]. *)
Definition close (path : str) : prog World unit := ret tt.

(** [PyPDFLoader(path)]: the path has to be a file. *)
Definition PyPDFLoader (path : str) : prog World str :=
  fun w =>
    match fs w !! path with
    | Some _ => (Ok path, w)
    | None => (Raise (ValueError "File path is not a valid file or url"), w)
    end.

Definition number_pages (path : str) (pages : list str) : list Document :=
  imap (fun i text => {| page_content := text;
                         metadata := {| source := path;
                                        page := Z.of_nat i |} |})
       pages.

(** [loader.load()]: one document per page of the file. *)
Definition loader_load (path : str) : prog World (list Document) :=
  fun w =>
    match fs w !! path with
    | Some content =>
        match pdf_pages env content with
        | Ok pages => (Ok (number_pages path pages), w)
        | Raise e => (Raise e, w)
        end
    | None => (Raise (FileNotFoundError path), w)
    end.

(** [os.unlink(path)]. *)
Definition os_unlink (path : str) : prog World unit :=
  fun w =>
    match fs w !! path with
    | Some _ => (Ok tt, set_fs (delete path) w)
    | None => (Raise (FileNotFoundError path), w)
    end.

Definition get_pdf_text_body (uploaded_file : UploadedFile)
  : prog frame (list Document) :=
  data <- lift (read uploaded_file) ;;
  store (fun l => {| input_file := Some data; temp_file := temp_file l;
                     loader := loader l; documents := documents l |}) ;;;
  path <- world NamedTemporaryFile ;;
  store (fun l => {| input_file := input_file l; temp_file := Some path;
                     loader := loader l; documents := documents l |}) ;;;
  tf <- load "temp_file" temp_file ;;
  data <- load "input_file" input_file ;;
  world (write tf data) ;;;
  tf <- load "temp_file" temp_file ;;
  world (close tf) ;;;
  tf <- load "temp_file" temp_file ;;
  ld <- world (PyPDFLoader tf) ;;
  store (fun l => {| input_file := input_file l; temp_file := temp_file l;
                     loader := Some ld; documents := documents l |}) ;;;
  ld <- load "loader" loader ;;
  docs <- world (loader_load ld) ;;
  store (fun l => {| input_file := input_file l; temp_file := temp_file l;
                     loader := loader l; documents := Some docs |}) ;;;
  load "documents" documents.

Definition get_pdf_text_finally : prog frame unit :=
  tf <- load "temp_file" temp_file ;;
  world (os_unlink tf).

Definition get_pdf_text (uploaded_file : UploadedFile)
  : prog World (list Document) :=
  fun w =>
    let '(r, s) :=
      try_finally (get_pdf_text_body uploaded_file) get_pdf_text_finally
                  (no_locals, w) in
    (r, snd s).
End GetPdfText.

(** ** [create_vectorstore] *)

(** The identity of a chunk: [str(uuid.uuid5(uuid.NAMESPACE_DNS, text))]. *)
Definition chunk_uuid (text : str) : option Uuid.UUID :=
  option_map (fun b => Uuid.uuid5 Uuid.NAMESPACE_DNS (map Z.of_N b))
             (utf8_encode text).

Definition chunk_identity (text : str) : result str :=
  match chunk_uuid text with
  | Some u => Ok (Uuid.to_str u)
  | None => Raise UnicodeEncodeError
  end.

(** A Python [set] of strings, kept as the strings in the order they were
    added. *)
Module PySet.
Abbreviation t := (list str).
Definition empty : t := [].
Definition contains (x : str) (s : t) : bool := bool_decide (x ∈ s).
Definition add (x : str) (s : t) : t := if contains x s then s else s ++ [x].
End PySet.

(** The handle [Chroma.from_documents] returns. *)
Record Chroma := {
  collection_name : str;
  persist_directory : str
}.

Section CreateVectorstore.
Variable env : Env.
Local Open Scope prog_scope.

(** The loop that keeps the first chunk of every id. *)
Fixpoint unique_loop (pairs : list (Document * str)) (unique_ids : PySet.t)
    (unique_chunks : list Document) : PySet.t * list Document :=
  match pairs with
  | [] => (unique_ids, unique_chunks)
  | (chunk, id) :: pairs' =>
      if negb (PySet.contains id unique_ids)
      then unique_loop pairs' (PySet.add id unique_ids)
                       (unique_chunks ++ [chunk])
      else unique_loop pairs' unique_ids unique_chunks
  end.

Definition upsert (c : gmap str Entry) (rows : list (str * Entry))
  : gmap str Entry :=
  fold_left (fun c row => <[fst row := snd row]> c) rows c.

(** [Chroma.from_documents]: the collection of that name is opened, or
    created when the directory has none; the texts are embedded and stored
    with their metadata under the ids, position by position (there are as
    many ids as documents when the set of ids iterates over its members). *)
Definition Chroma_from_documents (docs : list Document)
    (collection_name : str) (embedding : str -> result (list Z))
    (ids : list str) (persist_directory : str) : prog World Chroma :=
  _ <- lift (index_validate env collection_name ids) ;;
  embeddings <- lift (rmap embedding (map page_content docs)) ;;
  let entries :=
    zip_with (fun e d => {| embedding := e; document := page_content d;
                            entry_metadata := metadata d |})
             embeddings docs in
  modify (set_db (fun d =>
    let key := (persist_directory, collection_name) in
    <[key := upsert (default ∅ (d !! key)) (zip ids entries)]> d)) ;;;
  ret {| collection_name := collection_name;
         persist_directory := persist_directory |}.

Definition create_vectorstore (chunks : list Document)
    (embedding_function : str -> result (list Z)) (file_name : str)
    (vector_store_path : str) : prog World Chroma :=
  ids <- lift (rmap (fun doc => chunk_identity (page_content doc)) chunks) ;;
  let '(unique_ids, unique_chunks) :=
    unique_loop (zip chunks ids) PySet.empty [] in
  vectorstore <-
    Chroma_from_documents unique_chunks (clean_filename file_name)
      embedding_function (set_iteration env unique_ids) vector_store_path ;;
  (* vectorstore.persist() writes nothing more *)
  ret vectorstore.

Definition get_embedding_function : str -> result (list Z) := embed env.

Definition create_vectorstore_from_texts (documents : list Document)
    (file_name : str) : prog World Chroma :=
  chunks <- lift (split_document documents 1000 200) ;;
  let embedding_function := get_embedding_function in
  create_vectorstore chunks embedding_function file_name (py "db").
End CreateVectorstore.

(** ** Data frames *)

(** A [pandas.DataFrame] with the default integer index: the column labels
    and the rows; a cell is a string, or [None] for a missing value. *)
Record DataFrame := {
  columns : list str;
  rows : list (list (option str))
}.

Module Pd.
(** Labels in the order of their first occurrence. *)
Fixpoint first_occurrences (seen l : list str) : list str :=
  match l with
  | [] => []
  | x :: l' =>
      if bool_decide (x ∈ seen) then first_occurrences seen l'
      else x :: first_occurrences (x :: seen) l'
  end.

Fixpoint lookup_label (label : str) (labels : list str)
    (cells : list (option str)) : option str :=
  match labels, cells with
  | l :: labels', c :: cells' =>
      if bool_decide (l = label) then c else lookup_label label labels' cells'
  | _, _ => None
  end.

(** [pd.DataFrame(records)] for a list of dictionaries, each one a list of
    keys and values in insertion order. *)
Definition DataFrame_of_records (records : list (list (str * str)))
  : DataFrame :=
  let cols := first_occurrences [] (concat (map (map fst) records)) in
  {| columns := cols;
     rows := map (fun r => map (fun c => lookup_label c (map fst r)
                                            (map (Some ∘ snd) r)) cols)
                 records |}.

(** [df.insert(loc, column, value)] with a scalar [value]. *)
Definition insert (df : DataFrame) (loc : nat) (column value : str)
  : result DataFrame :=
  if bool_decide (column ∈ columns df)
  then Raise (ValueError "cannot insert column, already exists")
  else if (length (columns df) <? loc)%nat then Raise IndexError
  else Ok {| columns := take loc (columns df) ++ column
                        :: drop loc (columns df);
             rows := map (fun r => take loc r ++ Some value :: drop loc r)
                         (rows df) |}.

(** [pd.concat(frames, ignore_index=True)]: the rows of the frames in
    order, under the union of their columns. *)
Definition concat (frames : list DataFrame) : result DataFrame :=
  match frames with
  | [] => Raise (ValueError "No objects to concatenate")
  | _ =>
      let cols := first_occurrences [] (concat (map columns frames)) in
      Ok {| columns := cols;
            rows := flat_map
                      (fun df => map (fun r => map (fun c =>
                                        lookup_label c (columns df) r) cols)
                                     (rows df))
                      frames |}
  end.
End Pd.

(** ** [query_document] and [process_multiple_pdfs] *)

(** The three parts of the prompt template around the context and the
    question. *)
Definition PROMPT_before_context : str :=
  [LF] ++ py "You are an assistant for question-answering tasks." ++ [LF]
  ++ py "Use the following pieces of retrieved context to answer" ++ [LF]
  ++ py "the question. If you don't know the answer, say that you" ++ [LF]
  ++ py "don't know. DON'T MAKE UP ANYTHING." ++ [LF; LF].

Definition PROMPT_before_question : str :=
  [LF; LF] ++ py "---" ++ [LF; LF]
  ++ py "Answer the question based on the above context: ".

Definition PROMPT_after_question : str := [LF].

(** [PROMPT_TEMPLATE], filled in. *)
Definition PROMPT_TEMPLATE (context question : str) : str :=
  PROMPT_before_context ++ context ++ PROMPT_before_question ++ question
  ++ PROMPT_after_question.

Definition format_docs (docs : list Document) : str :=
  join [LF; LF] (map page_content docs).

Section Pipeline.
Variable env : Env.
Local Open Scope prog_scope.

(** The retriever of a vector store, in the state the index is in. *)
Definition retriever (vectorstore : Chroma) (query : str)
  : prog World (list Document) :=
  fun w =>
    (similarity_search env
       (default ∅ (db w !! (persist_directory vectorstore,
                            collection_name vectorstore)))
       query, w).

Definition rag_chain (vectorstore : Chroma) (query : str)
  : prog World ExtractedInfo :=
  docs <- retriever vectorstore query ;;
  lift (llm_structured env (PROMPT_TEMPLATE (format_docs docs) query)).

Definition query_document (vectorstore : Chroma) (query : str)
  : prog World DataFrame :=
  structured_response <- rag_chain vectorstore query ;;
  let df := Pd.DataFrame_of_records
    [[ (py "Invoice Items", invoice_items structured_response);
       (py "Invoice Date", invoice_date structured_response);
       (py "Business Name", business_name structured_response);
       (py "Total Amount", total_amount structured_response) ]] in
  ret df.

(** The body of the loop of [process_multiple_pdfs]: the frame of one
    file. *)
Definition process_pdf (query : str) (pdf_file : UploadedFile)
  : prog World DataFrame :=
  let file_name := name pdf_file in
  documents <- get_pdf_text env pdf_file ;;
  vectorstore <- create_vectorstore_from_texts env documents file_name ;;
  df <- query_document vectorstore query ;;
  lift (Pd.insert df 0 (py "file_name") file_name).

Fixpoint process_loop (query : str) (pdf_files : list UploadedFile)
    (results : list DataFrame) : prog World (list DataFrame) :=
  match pdf_files with
  | [] => ret results
  | pdf_file :: pdf_files' =>
      df <- process_pdf query pdf_file ;;
      process_loop query pdf_files' (results ++ [df])
  end.

Definition process_multiple_pdfs (pdf_files : list UploadedFile)
    (query : str) : prog World DataFrame :=
  results <- process_loop query pdf_files [] ;;
  final_df <- lift (Pd.concat results) ;;
  ret final_df.
End Pipeline.

(** ** The result table *)

(** The columns of the result table and the row of one file. *)
Definition result_columns : list str :=
  [ py "file_name"; py "Invoice Items"; py "Invoice Date";
    py "Business Name"; py "Total Amount" ].

Definition result_row (file_name : str) (info : ExtractedInfo)
  : list (option str) :=
  [ Some file_name; Some (invoice_items info); Some (invoice_date info);
    Some (business_name info); Some (total_amount info) ].

(** The frame of one file. *)
Definition file_frame (r : str * ExtractedInfo) : DataFrame :=
  {| columns := result_columns; rows := [result_row (fst r) (snd r)] |}.

(** The files are processed one after the other and none raises: the
    frames they give and the world reached. *)
Inductive loop_ok (env : Env) (query : str)
  : list UploadedFile -> World -> list DataFrame -> World -> Prop :=
  | loop_ok_nil (w : World) : loop_ok env query [] w [] w
  | loop_ok_cons (f : UploadedFile) (files : list UploadedFile)
      (w w1 w2 : World) (df : DataFrame) (dfs : list DataFrame) :
      process_pdf env query f w = (Ok df, w1) ->
      loop_ok env query files w1 dfs w2 ->
      loop_ok env query (f :: files) w (df :: dfs) w2.

(** A stage of the processing of one file raises [e]: the parsing, the
    embedding and storing, or the retrieval and the model. *)
Inductive stage_fails (env : Env) (query : str) (f : UploadedFile) (w : World)
  (e : exn) (w' : World) : Prop :=
  | parse_fails :
      get_pdf_text env f w = (Raise e, w') -> stage_fails env query f w e w'
  | store_fails (docs : list Document) (w1 : World) :
      get_pdf_text env f w = (Ok docs, w1) ->
      create_vectorstore_from_texts env docs (name f) w1 = (Raise e, w') ->
      stage_fails env query f w e w'
  | query_fails (docs : list Document) (w1 w2 : World) (v : Chroma) :
      get_pdf_text env f w = (Ok docs, w1) ->
      create_vectorstore_from_texts env docs (name f) w1 = (Ok v, w2) ->
      query_document env v query w2 = (Raise e, w') ->
      stage_fails env query f w e w'.

(** ** The top level of the module *)

Module TopLevel.
Local Open Scope string_scope.
Local Open Scope list_scope.

(** The statements that run when the module is imported, as far as names
    are concerned: what each one binds and which names it evaluates.  The
    body of a function is not evaluated by its [def]; the body of a class
    is evaluated by its [class] statement. *)
#[warnings="-register-all"]
Inductive stmt : Type :=
  | ImportFrom (module : string) (names : list string)
  | Import (module as_name : string)
  | Def (name : string)
  | Assign (name : string) (uses : list string)
  | AnnAssign (name : string) (annotation uses : list string)
  | Docstring
  | ClassDef (name : string) (bases : list string) (body : list stmt).

(** Which modules can be imported, and what they export. *)
Record Site := {
  has_module : string -> bool;
  exports : string -> string -> bool
}.

Definition builtins : list string :=
  [ "ArithmeticError"; "AssertionError"; "AttributeError"; "BaseException";
    "BaseExceptionGroup"; "BlockingIOError"; "BrokenPipeError";
    "BufferError"; "BytesWarning"; "ChildProcessError";
    "ConnectionAbortedError"; "ConnectionError"; "ConnectionRefusedError";
    "ConnectionResetError"; "DeprecationWarning"; "EOFError"; "Ellipsis";
    "EncodingWarning"; "EnvironmentError"; "Exception"; "ExceptionGroup";
    "False"; "FileExistsError"; "FileNotFoundError"; "FloatingPointError";
    "FutureWarning"; "GeneratorExit"; "IOError"; "ImportError";
    "ImportWarning"; "IndentationError"; "IndexError"; "InterruptedError";
    "IsADirectoryError"; "KeyError"; "KeyboardInterrupt"; "LookupError";
    "MemoryError"; "ModuleNotFoundError"; "NameError"; "None";
    "NotADirectoryError"; "NotImplemented"; "NotImplementedError";
    "OSError"; "OverflowError"; "PendingDeprecationWarning";
    "PermissionError"; "ProcessLookupError"; "RecursionError";
    "ReferenceError"; "ResourceWarning"; "RuntimeError"; "RuntimeWarning";
    "StopAsyncIteration"; "StopIteration"; "SyntaxError"; "SyntaxWarning";
    "SystemError"; "SystemExit"; "TabError"; "TimeoutError"; "True";
    "TypeError"; "UnboundLocalError"; "UnicodeDecodeError";
    "UnicodeEncodeError"; "UnicodeError"; "UnicodeTranslateError";
    "UnicodeWarning"; "UserWarning"; "ValueError"; "Warning";
    "ZeroDivisionError"; "__build_class__"; "__debug__"; "__doc__";
    "__import__"; "__loader__"; "__name__"; "__package__"; "__spec__";
    "abs"; "aiter"; "all"; "anext"; "any"; "ascii"; "bin"; "bool";
    "breakpoint"; "bytearray"; "bytes"; "callable"; "chr"; "classmethod";
    "compile"; "complex"; "copyright"; "credits"; "delattr"; "dict"; "dir";
    "divmod"; "enumerate"; "eval"; "exec"; "exit"; "filter"; "float";
    "format"; "frozenset"; "getattr"; "globals"; "hasattr"; "hash"; "help";
    "hex"; "id"; "input"; "int"; "isinstance"; "issubclass"; "iter"; "len";
    "license"; "list"; "locals"; "map"; "max"; "memoryview"; "min"; "next";
    "object"; "oct"; "open"; "ord"; "pow"; "print"; "property"; "quit";
    "range"; "repr"; "reversed"; "round"; "set"; "setattr"; "slice";
    "sorted"; "staticmethod"; "str"; "sum"; "super"; "tuple"; "type";
    "vars"; "zip" ].

(** The names a fresh module has before its first statement. *)
Definition module_globals : list string :=
  [ "__name__"; "__doc__"; "__package__"; "__loader__"; "__spec__";
    "__file__"; "__cached__"; "__builtins__" ].

Definition bound (x : string) (scopes : list (list string)) : bool :=
  existsb (fun scope => bool_decide (x ∈ scope)) scopes.

(** Evaluating names in order: the first one that no scope binds raises
    [NameError]. *)
Fixpoint eval_names (uses : list string) (scopes : list (list string))
  : result unit :=
  match uses with
  | [] => Ok tt
  | x :: uses' =>
      if bound x scopes then eval_names uses' scopes
      else Raise (NameError x)
  end.

Section Exec.
Variable site : Site.

Definition exec_import_from (module : string) (names : list string)
    (ns : list string) : result (list string) :=
  if negb (has_module site module) then Raise (ModuleNotFoundError module)
  else
    match List.find (fun x => negb (exports site module x)) names with
    | Some x => Raise (LibraryError "ImportError" x)
    | None => Ok (ns ++ names)
    end.

(** One statement in the namespace [ns], the innermost scope, with the
    scopes [outer] around it; the result is [ns] with the new names. *)
Fixpoint exec (s : stmt) (ns : list string) (outer : list (list string))
  : result (list string) :=
  match s with
  | ImportFrom module names => exec_import_from module names ns
  | Import module as_name =>
      if has_module site module then Ok (ns ++ [as_name])
      else Raise (ModuleNotFoundError module)
  | Def name => Ok (ns ++ [name])
  | Assign name uses =>
      rbind (eval_names uses (ns :: outer)) (fun _ => Ok (ns ++ [name]))
  | AnnAssign name annotation uses =>
      rbind (eval_names uses (ns :: outer)) (fun _ =>
      rbind (eval_names annotation (ns :: outer)) (fun _ =>
      Ok (ns ++ [name])))
  | Docstring => Ok ns
  | ClassDef name bases body =>
      rbind (eval_names bases (ns :: outer)) (fun _ =>
      rbind ((fix exec_body (body : list stmt) (local : list string)
                : result (list string) :=
                match body with
                | [] => Ok local
                | s :: body' =>
                    rbind (exec s local (ns :: outer))
                          (fun local' => exec_body body' local')
                end) body [])
            (fun _ => Ok (ns ++ [name])))
  end.

Fixpoint exec_all (body : list stmt) (ns : list string)
  : result (list string) * list string :=
  match body with
  | [] => (Ok ns, ns)
  | s :: body' =>
      match exec s ns [builtins] with
      | Ok ns' => exec_all body' ns'
      | Raise e => (Raise e, ns)
      end
  end.

(** Importing a module runs its statements in a fresh namespace; the
    second component is the namespace reached. *)
Definition import_module (body : list stmt)
  : result (list string) * list string :=
  exec_all body module_globals.
End Exec.

(** The statements of [app/functions.py]. *)
Definition functions_py : list stmt :=
  [ ImportFrom "langchain_community.document_loaders" ["PyPDFLoader"];
    ImportFrom "langchain.text_splitter" ["RecursiveCharacterTextSplitter"];
    ImportFrom "langchain_community.vectorstores" ["Chroma"];
    ImportFrom "langchain_core.runnables" ["RunnablePassthrough"];
    ImportFrom "langchain_core.prompts" ["ChatPromptTemplate"];
    ImportFrom "pydantic" ["BaseModel"];
    ImportFrom "langchain_ollama" ["ChatOllama"];
    ImportFrom "langchain_ollama" ["OllamaEmbeddings"];
    Import "streamlit" "st";
    Import "pandas" "pd";
    Import "uuid" "uuid";
    Import "re" "re";
    Import "os" "os";
    Import "tempfile" "tempfile";
    Def "clean_filename";
    Def "get_pdf_text";
    Def "split_document";
    Def "get_embedding_function";
    Def "create_vectorstore";
    Def "create_vectorstore_from_texts";
    Assign "PROMPT_TEMPLATE" [];
    ClassDef "ExtractedInfo" ["BaseModel"]
      [ Docstring;
        AnnAssign "invoice_items" ["str"] ["Field"];
        AnnAssign "invoice_date" ["str"] ["Field"];
        AnnAssign "business_name" ["str"] ["Field"];
        AnnAssign "total_amount" ["str"] ["Field"] ];
    Def "format_docs";
    Def "query_document";
    Def "process_multiple_pdfs" ].
End TopLevel.


(** ** The deduplication the specification asks for

    Each distinct content once, at its first occurrence, in the order of the
    input; to be compared with the loop of [create_vectorstore], which goes
    by ids. *)

Fixpoint first_by_content (seen : list str) (chunks : list Document)
  : list Document :=
  match chunks with
  | [] => []
  | c :: chunks' =>
      if bool_decide (page_content c ∈ seen)
      then first_by_content seen chunks'
      else c :: first_by_content (page_content c :: seen) chunks'
  end.

(** The id a chunk gets. *)
Definition has_id (c : Document) (id : str) : Prop :=
  chunk_identity (page_content c) = Ok id.

(** No two of the texts have the same identity: the name-based hash does
    not collide on them. *)
Definition collision_free (texts : list str) : Prop :=
  forall t1 t2, t1 ∈ texts -> t2 ∈ texts ->
    chunk_identity t1 = chunk_identity t2 -> t1 = t2.


(** A check of [collision_free] by computing the identities; two texts
    that both fail to encode count as a collision. *)
Definition same_identity (t1 t2 : str) : bool :=
  match chunk_identity t1, chunk_identity t2 with
  | Ok i1, Ok i2 => bool_decide (i1 = i2)
  | Raise _, Raise _ => true
  | _, _ => false
  end.

Definition collision_freeb (texts : list str) : bool :=
  forallb (fun t1 =>
    forallb (fun t2 => implb (same_identity t1 t2) (bool_decide (t1 = t2)))
            texts) texts.

(** ** Test doubles

    Deterministic stand-ins for the external collaborators, and a few
    uploaded files, on which the pipeline can be run. *)

Module Demo.
(** Lexicographic order on strings, and insertion sort by it. *)
Fixpoint lex_leb (a b : str) : bool :=
  match a, b with
  | [], _ => true
  | _ :: _, [] => false
  | x :: a', y :: b' => (x <? y) || ((x =? y) && lex_leb a' b')
  end.

Fixpoint insert_sorted (x : str) (l : list str) : list str :=
  match l with
  | [] => [x]
  | y :: l' => if lex_leb x y then x :: l else y :: insert_sorted x l'
  end.

Definition sorted (l : list str) : list str := fold_right insert_sorted [] l.

Definition tmp_path : str := py "/tmp/tmpk3v9".

(** A parser for which the text of a file is its one page, and which
    rejects an empty file. *)
Definition one_page (content : bytes) : result (list str) :=
  match content with
  | [] => Raise (LibraryError "pypdf" "Cannot read an empty file")
  | _ => Ok [content]
  end.

(** A model that finds the total of the invoice when the prompt shows it
    and declines otherwise. *)
Definition answer (prompt : str) : ExtractedInfo :=
  {| invoice_items := py "unknown";
     invoice_date := py "unknown";
     business_name := py "unknown";
     total_amount := if Splitter.found (py "Total: $42.00") prompt
                     then py "$42.00" else py "unknown" |}.

Definition first_entries (c : gmap str Entry) : list Document :=
  map (fun kv => {| page_content := document (snd kv);
                    metadata := entry_metadata (snd kv) |})
      (take 4 (map_to_list c)).

(** A set iterates in the order of its hash table, which is not the order
    of insertion; here the table is ordered like the strings. *)
Definition env : Env :=
  {| named_temporary_file := fun _ => Ok tmp_path;
     file_write := fun _ _ => Ok tt;
     pdf_pages := one_page;
     embed := fun text => Ok [len text];
     index_validate := fun _ _ => Ok tt;
     similarity_search := fun c _ => Ok (first_entries c);
     llm_structured := fun prompt => Ok (answer prompt);
     set_iteration := sorted |}.

(** The same collaborators under an interpreter whose sets iterate in
    insertion order. *)
Definition env_ordered : Env :=
  {| named_temporary_file := named_temporary_file env;
     file_write := file_write env;
     pdf_pages := pdf_pages env;
     embed := embed env;
     index_validate := index_validate env;
     similarity_search := similarity_search env;
     llm_structured := llm_structured env;
     set_iteration := fun l => l |}.

Definition nothing : World := {| fs := ∅; db := ∅ |}.

Definition invoice1 : UploadedFile :=
  {| name := py "Invoice (1).pdf"; read := Ok (py "Total: $42.00") |}.

Definition invoice2 : UploadedFile :=
  {| name := py "Invoice (2).pdf"; read := Ok (py "Total: $7.50") |}.

Definition unreadable : UploadedFile :=
  {| name := py "gone.pdf"; read := Raise (OSError "read failed") |}.

Definition corrupt : UploadedFile :=
  {| name := py "empty.pdf"; read := Ok [] |}.

Definition doc (text : string) : Document :=
  {| page_content := py text;
     metadata := {| source := tmp_path; page := 0 |} |}.

(** Four chunks, the third with the text of the first. *)
Definition abac : list Document :=
  [ doc "a"; doc "b";
    {| page_content := py "a";
       metadata := {| source := tmp_path; page := 1 |} |};
    doc "c" ].

Definition abac_ids : list str :=
  [ py "4f3f2898-69e3-5a0d-820a-c4e87987dbce";
    py "3f10dbe8-4cbd-5e31-9b1f-af0cb9dda9cf";
    py "4f3f2898-69e3-5a0d-820a-c4e87987dbce";
    py "b72f1bcd-e229-57e2-bb24-d01077785f16" ].

Definition total42 : list Document := [doc "Total: $42.00"].
Definition id42 : str := py "0d70b3a6-266e-559f-8975-0462ba8b8824".
Definition id_a : str := py "4f3f2898-69e3-5a0d-820a-c4e87987dbce".
Definition id_b : str := py "3f10dbe8-4cbd-5e31-9b1f-af0cb9dda9cf".

Definition query : str :=
  py "Extract relevant details from this business invoice.".

(** The runs of the loop body on the first invoice, then on the second or
    on the corrupt file. *)
Definition run1 : result DataFrame * World :=
  process_pdf env query invoice1 nothing.
Definition run2 : result DataFrame * World :=
  process_pdf env query invoice2 (snd run1).
Definition run_corrupt : result (list Document) * World :=
  get_pdf_text env corrupt (snd run1).

Definition frame_of (r : result DataFrame) : DataFrame :=
  match r with
  | Ok df => df
  | Raise _ => {| columns := []; rows := [] |}
  end.

(** A site where every module of the import list is installed and exports
    what is asked of it. *)
Definition full_site : TopLevel.Site :=
  {| TopLevel.has_module := fun _ => true;
     TopLevel.exports := fun _ _ => true |}.
End Demo.

(** ** Notions for the further properties *)

(** A copy marker: a whitespace code point, then digits in parentheses. *)
Definition numbered (c : N) (digits : str) : str := c :: 40 :: digits ++ [41].

(** The text after a cut starts with whitespace, or is empty. *)
Definition starts_blank (s : str) : Prop :=
  match s with
  | [] => True
  | c :: _ => isspace c = true
  end.

(** No copy marker starts anywhere in [s]. *)
Definition unmarked (s : str) : Prop :=
  forall pre post, s = pre ++ post -> match_numbered post = None.

(** [c] is a contiguous part of [text]. *)
Definition occurs_in (c text : str) : Prop :=
  exists pre post, text = pre ++ c ++ post.

(** A word: code points without whitespace among them, at least one. *)
Definition is_word (word : str) : Prop :=
  word <> [] /\ Forall (fun c => isspace c = false) word.

(** The chunk of a page that fits in one chunk. *)
Definition whole_page (d : Document) : list Document :=
  match strip (page_content d) with
  | [] => []
  | text => [{| page_content := text; metadata := metadata d |}]
  end.


(** A code point that UTF-8 does not encode. *)
Definition surrogate (c : N) : Prop := 0xD800 <= c <= 0xDFFF.

(** No id of the index is lost between [w] and [w']. *)
Definition keeps_ids (w w' : World) : Prop :=
  forall directory collection id,
    is_Some (stored_text w directory collection id) ->
    is_Some (stored_text w' directory collection id).

(** The frame [query_document] builds from the answer of the model. *)
Definition answer_frame (info : ExtractedInfo) : DataFrame :=
  {| columns := [ py "Invoice Items"; py "Invoice Date"; py "Business Name";
                  py "Total Amount" ];
     rows := [ [ Some (invoice_items info); Some (invoice_date info);
                 Some (business_name info); Some (total_amount info) ] ] |}.



(** * Properties *)

(** ** The embedding on known values *)

Example uuid5_python_org :
  chunk_identity (py "python.org")
  = Ok (py "886313e1-3b8a-5372-9b90-0c9aee199e5d").
Proof. vm_compute. reflexivity. Qed.

(** A name of 52 bytes: with the namespace, two SHA-1 blocks. *)
Example uuid5_two_blocks :
  chunk_identity
    (py "Extract relevant details from this business invoice.")
  = Ok (py "de7bfc55-60fd-5d92-9b31-1abc85bf19ae").
Proof. vm_compute. reflexivity. Qed.

(** Code points of two, three and four UTF-8 bytes. *)
Example uuid5_non_ascii :
  chunk_identity [233; 8364; 128512; 32; 99; 97; 102; 233]%N
  = Ok (py "9f0e64fe-a97b-5ae5-86c7-4cf54083dbea").
Proof. vm_compute. reflexivity. Qed.

Example clean_filename_numbered :
  clean_filename (py "Invoice (1).pdf") = py "Invoice.pdf".
Proof. vm_compute. reflexivity. Qed.

Example clean_filename_leftmost :
  clean_filename (py "a (1) (22)(3) ( 4) (5") = py "a(3) ( 4) (5".
Proof. vm_compute. reflexivity. Qed.

Example split_text_words :
  Splitter.split_text 10 3 (py "aa bb cc dd ee ff gg hh")
  = [py "aa bb cc"; py "cc dd ee"; py "ee ff gg"; py "gg hh"].
Proof. vm_compute. reflexivity. Qed.

Example split_text_short_page :
  Splitter.split_text 1000 200 (py "Total: $42.00") = [py "Total: $42.00"].
Proof. vm_compute. reflexivity. Qed.

Example split_text_empty_page : Splitter.split_text 1000 200 [] = [].
Proof. vm_compute. reflexivity. Qed.

(** ** The temporary file of [get_pdf_text] *)

Section GetPdfTextFacts.
Variable env : Env.

Lemma get_pdf_text_read_raises (f : UploadedFile) (w : World) (e : exn) :
  read f = Raise e ->
  get_pdf_text env f w = (Raise (UnboundLocalError "temp_file"), w).
Proof.
  intros Hread. unfold get_pdf_text, try_finally, get_pdf_text_body, bind, lift.
  rewrite Hread. reflexivity.
Qed.

Lemma get_pdf_text_tempfile_raises (f : UploadedFile) (w : World)
    (data : bytes) (e : exn) :
  read f = Ok data ->
  named_temporary_file env (fs w) = Raise e ->
  get_pdf_text env f w = (Raise (UnboundLocalError "temp_file"), w).
Proof.
  intros Hread Htmp.
  unfold get_pdf_text, try_finally, get_pdf_text_body, bind, lift, store,
    modify, world, NamedTemporaryFile.
  rewrite Hread. cbn. rewrite Htmp. reflexivity.
Qed.

(** What [get_pdf_text] does once the temporary file exists. *)
Lemma get_pdf_text_created (f : UploadedFile) (w : World) (data : bytes)
    (path : str) :
  read f = Ok data ->
  named_temporary_file env (fs w) = Ok path ->
  get_pdf_text env f w =
    (match file_write env path data with
     | Ok _ =>
         match pdf_pages env data with
         | Ok pages => Ok (number_pages path pages)
         | Raise e => Raise e
         end
     | Raise e => Raise e
     end,
     set_fs (fun m => delete path m) w).
Proof.
  intros Hread Htmp.
  unfold get_pdf_text, try_finally, get_pdf_text_body, get_pdf_text_finally,
    bind, lift, store, modify, world, NamedTemporaryFile, load, write, close,
    ret, PyPDFLoader, loader_load, os_unlink.
  rewrite Hread. cbn. rewrite Htmp. cbn.
  destruct (file_write env path data) as [[]|e]; cbn;
    repeat (rewrite lookup_insert_eq; cbn).
  - destruct (pdf_pages env data) as [pages|e]; cbn;
      repeat (rewrite lookup_insert_eq; cbn); unfold set_fs; cbn;
      rewrite !delete_insert_eq; reflexivity.
  - unfold set_fs; cbn. rewrite !delete_insert_eq. reflexivity.
Qed.
End GetPdfTextFacts.

(** C9: once [get_pdf_text] has created its temporary file, the file is
    gone from the disk when the call is over, on every exit: when the
    parser returns the documents they are the result, and when the parser
    raises (or the write does) that error propagates; in both cases the
    path of the temporary file is no longer on disk, and if it was not
    there before the call the disk is as it was. *)
Theorem get_pdf_text_deletes_temp_file (env : Env) (f : UploadedFile)
    (w : World) (data : bytes) (path : str) :
  read f = Ok data ->
  named_temporary_file env (fs w) = Ok path ->
  let out := get_pdf_text env f w in
  fs (snd out) !! path = None
  /\ (forall pages, file_write env path data = Ok tt ->
        pdf_pages env data = Ok pages ->
        fst out = Ok (number_pages path pages))
  /\ (forall e, file_write env path data = Ok tt ->
        pdf_pages env data = Raise e -> fst out = Raise e)
  /\ (forall e, file_write env path data = Raise e -> fst out = Raise e)
  /\ (fs w !! path = None -> snd out = w).
Proof.
  intros Hread Htmp out. subst out.
  rewrite (get_pdf_text_created env f w data path Hread Htmp). cbn.
  repeat split.
  - apply lookup_delete_eq.
  - intros pages Hw Hp. rewrite Hw, Hp. reflexivity.
  - intros e Hw Hp. rewrite Hw, Hp. reflexivity.
  - intros e Hw. rewrite Hw. reflexivity.
  - intros Hfresh. destruct w as [files d]. unfold set_fs. cbn in *.
    f_equal. apply delete_id. exact Hfresh.
Qed.

Lemma get_pdf_text_deletes_temp_file_witness :
  read Demo.corrupt = Ok []
  /\ named_temporary_file Demo.env (fs Demo.nothing) = Ok Demo.tmp_path
  /\ fs (snd (get_pdf_text Demo.env Demo.corrupt Demo.nothing))
       !! Demo.tmp_path = None
  /\ fst (get_pdf_text Demo.env Demo.corrupt Demo.nothing)
     = Raise (LibraryError "pypdf" "Cannot read an empty file").
Proof.
  assert (Hr : read Demo.corrupt = Ok []) by reflexivity.
  assert (Ht : named_temporary_file Demo.env (fs Demo.nothing)
               = Ok Demo.tmp_path) by reflexivity.
  split; [exact Hr|]. split; [exact Ht|].
  destruct (get_pdf_text_deletes_temp_file Demo.env Demo.corrupt Demo.nothing
              [] Demo.tmp_path Hr Ht) as (Hgone & _ & Hraise & _).
  split; [exact Hgone|].
  apply Hraise; reflexivity.
Defined.

(** C10: when [read()] raises, or the creation of the temporary file does,
    the variable [temp_file] is unbound when the [finally] clause reads it:
    the caller gets [UnboundLocalError] for [temp_file] instead of the
    original error, and nothing was removed from the disk. *)
Theorem get_pdf_text_cleanup_unbound (env : Env) (f : UploadedFile)
    (w : World) (e : exn) :
  read f = Raise e
  \/ (exists data, read f = Ok data
                   /\ named_temporary_file env (fs w) = Raise e) ->
  get_pdf_text env f w = (Raise (UnboundLocalError "temp_file"), w).
Proof.
  intros [Hread | (data & Hread & Htmp)].
  - exact (get_pdf_text_read_raises env f w e Hread).
  - exact (get_pdf_text_tempfile_raises env f w data e Hread Htmp).
Qed.

Lemma get_pdf_text_cleanup_unbound_witness :
  read Demo.unreadable = Raise (OSError "read failed")
  /\ get_pdf_text Demo.env Demo.unreadable Demo.nothing
     = (Raise (UnboundLocalError "temp_file"), Demo.nothing).
Proof.
  split; [reflexivity|].
  apply (get_pdf_text_cleanup_unbound Demo.env Demo.unreadable Demo.nothing
           (OSError "read failed")).
  left. reflexivity.
Defined.

(** ** The top level of the module *)

Section TopLevelFacts.
Import TopLevel.
Local Open Scope string_scope.

Lemma exec_all_cons (site : Site) (s : stmt) (body : list stmt)
    (ns : list string) :
  exec_all site (s :: body) ns =
    match exec site s ns [builtins] with
    | Ok ns' => exec_all site body ns'
    | Raise e => (Raise e, ns)
    end.
Proof. reflexivity. Qed.

(** One statement of the import list: either it raises, which settles the
    goal, or the next statement is looked at. *)
Ltac not_bound :=
  let H := fresh in
  cbn; intros H; repeat (destruct H as [H|H]; [discriminate H|]); exact H.

Ltac raised :=
  eexists; split; [|split; [|split]];
  [ | | | first
      [ left; reflexivity
      | right; left; eexists; split; [eassumption|reflexivity]
      | right; right; do 2 eexists; split; [eassumption|reflexivity] ] ];
  not_bound.

Ltac next_statement site :=
  rewrite exec_all_cons; cbn [exec]; unfold exec_import_from;
  repeat match goal with
    | |- context [has_module site ?m] =>
        destruct (has_module site m) eqn:?; cbn [negb List.find];
        [|solve [raised]]
    | |- context [exports site ?m ?x] =>
        destruct (exports site m x) eqn:?; cbn [negb List.find];
        [|solve [raised]]
    end;
  cbn [app rbind eval_names].

(** C2: importing [app/functions.py] never gets to define the schema
    [ExtractedInfo] nor the functions after it: whatever the site, the
    import raises, and when every module of the import list is there the
    exception is [NameError] for [Field], raised by the body of the class. *)
Theorem functions_py_import_raises (site : Site) :
  exists ns,
    ~ In "ExtractedInfo" ns /\ ~ In "query_document" ns
    /\ ~ In "process_multiple_pdfs" ns
    /\ (import_module site functions_py = (Raise (NameError "Field"), ns)
        \/ (exists m, has_module site m = false
              /\ import_module site functions_py
                 = (Raise (ModuleNotFoundError m), ns))
        \/ (exists m x, exports site m x = false
              /\ import_module site functions_py
                 = (Raise (LibraryError "ImportError" x), ns))).
Proof.
  unfold import_module, functions_py, module_globals.
  do 21 next_statement site.
  rewrite exec_all_cons.
  eexists; split; [|split; [|split]]; [| | |left; vm_compute; reflexivity];
    not_bound.
Qed.

Example functions_py_name_error :
  fst (import_module Demo.full_site functions_py) = Raise (NameError "Field").
Proof. vm_compute. reflexivity. Qed.
End TopLevelFacts.

(** ** The identity of a chunk *)

Section Utf8Facts.
Local Open Scope N_scope.

Lemma Some_eq {A} (x y : A) : Some x = Some y -> x = y.
Proof. congruence. Qed.

Lemma cons_eq {A} (x y : A) (l1 l2 : list A) :
  x :: l1 = y :: l2 -> x = y /\ l1 = l2.
Proof. intros H; split; congruence. Qed.

(** Linear arithmetic with divisions by 64. *)
Ltac div_facts c :=
  pose proof (N.div_mod' c 64);
  pose proof (N.mod_lt c 64 ltac:(lia));
  pose proof (N.div_mod' (c / 64) 64);
  pose proof (N.mod_lt (c / 64) 64 ltac:(lia));
  pose proof (N.div_mod' (c / 4096) 64);
  pose proof (N.mod_lt (c / 4096) 64 ltac:(lia)).

Ltac div_lia := Zify.zify; Z.div_mod_to_equations; lia.

(** The first octet of an encoded code point tells how many octets follow,
    so no encoding is a prefix of another. *)
Lemma utf8_char_prefix_free (c1 c2 : N) (b1 b2 r1 r2 : bytes) :
  utf8_char c1 = Some b1 -> utf8_char c2 = Some b2 ->
  b1 ++ r1 = b2 ++ r2 -> c1 = c2 /\ r1 = r2.
Proof.
  unfold utf8_char. intros H1 H2 E.
  repeat match type of H1 with
  | context [if ?b then _ else _] => destruct b eqn:?
  end; try discriminate; apply Some_eq in H1; subst b1;
  repeat match type of H2 with
  | context [if ?b then _ else _] => destruct b eqn:?
  end; try discriminate; apply Some_eq in H2; subst b2;
  repeat rewrite <- app_comm_cons in E; rewrite ?app_nil_l in E;
  apply cons_eq in E; destruct E as [E1 E];
  repeat (apply cons_eq in E; let H := fresh in destruct E as [H E]);
  repeat match goal with
  | H : (_ <? _) = _ |- _ => first [apply N.ltb_lt in H | apply N.ltb_ge in H]
  | H : andb _ _ = false |- _ => apply Bool.andb_false_iff in H
  | H : (_ <=? _) = _ |- _ => first [apply N.leb_le in H | apply N.leb_gt in H]
  end;
  (split; [first [div_lia | div_facts c1; div_facts c2; div_lia]
          | try assumption; try div_lia]).
Qed.

Lemma utf8_char_nonempty (c : N) (b : bytes) : utf8_char c = Some b -> b <> [].
Proof.
  unfold utf8_char.
  repeat match goal with
  | |- context [if ?b then _ else _] => destruct b
  end; intros H; try discriminate; apply Some_eq in H; subst b; discriminate.
Qed.

Lemma utf8_encode_inj (s1 s2 : str) (b : bytes) :
  utf8_encode s1 = Some b -> utf8_encode s2 = Some b -> s1 = s2.
Proof.
  revert s2 b. induction s1 as [|c1 s1 IH]; intros [|c2 s2] b; cbn.
  - reflexivity.
  - intros H1. apply Some_eq in H1. subst b.
    destruct (utf8_char c2) as [b2|] eqn:E2; [|discriminate].
    destruct (utf8_encode s2); [|discriminate].
    intros H. apply Some_eq in H. apply utf8_char_nonempty in E2.
    destruct b2; [congruence|discriminate].
  - destruct (utf8_char c1) as [b1|] eqn:E1; [|discriminate].
    destruct (utf8_encode s1); [|discriminate].
    intros H1 H2. apply Some_eq in H1, H2. subst b.
    apply utf8_char_nonempty in E1. destruct b1; [congruence|discriminate].
  - destruct (utf8_char c1) as [b1|] eqn:E1; [|discriminate].
    destruct (utf8_encode s1) as [r1|] eqn:R1; [|discriminate].
    destruct (utf8_char c2) as [b2|] eqn:E2; [|discriminate].
    destruct (utf8_encode s2) as [r2|] eqn:R2; [|discriminate].
    intros H1 H2. apply Some_eq in H1, H2. subst b.
    destruct (utf8_char_prefix_free c1 c2 b1 b2 r1 r2 E1 E2 (eq_sym H2))
      as [Hc Hr].
    subst c2 r2. f_equal. apply (IH s2 r1); [reflexivity|exact R2].
Qed.

End Utf8Facts.

Section UuidFacts.
Import Uuid.
Local Open Scope Z_scope.

Lemma be_bytes_range (n : nat) (x : Z) :
  Forall (fun b => 0 <= b < 256) (Sha1.be_bytes n x).
Proof.
  unfold Sha1.be_bytes. apply Forall_map, Forall_forall. intros i _.
  cbn. apply Z.mod_pos_bound. lia.
Qed.

Lemma digest_range (m : list Z) :
  Forall (fun b => 0 <= b < 256) (Sha1.digest m).
Proof.
  unfold Sha1.digest. apply Forall_forall. intros b Hb.
  apply list_elem_of_In, in_flat_map in Hb. destruct Hb as (x & _ & Hb).
  pose proof (be_bytes_range 4 x) as H.
  rewrite Forall_forall in H. apply H, list_elem_of_In, Hb.
Qed.

Lemma be_word_from (b : list Z) (acc : Z) :
  Forall (fun x => 0 <= x < 256) b -> 0 <= acc ->
  acc * 256 ^ Z.of_nat (length b)
  <= fold_left (fun a x => a * 256 + x) b acc
  < (acc + 1) * 256 ^ Z.of_nat (length b).
Proof.
  intros Hb. revert acc. induction Hb as [|x b Hx Hb IH]; intros acc Hacc.
  - cbn. lia.
  - cbn [fold_left length]. rewrite Nat2Z.inj_succ, Z.pow_succ_r by lia.
    specialize (IH (acc * 256 + x) ltac:(lia)).
    assert (0 < 256 ^ Z.of_nat (length b)) by (apply Z.pow_pos_nonneg; lia).
    nia.
Qed.

Lemma fits128_range (x : Z) : fits128 x -> 0 <= x < 2 ^ 128.
Proof.
  unfold fits128. rewrite Z.land_ones by lia. intros <-.
  apply Z.mod_pos_bound. lia.
Qed.

Lemma range_fits128 (x : Z) : 0 <= x < 2 ^ 128 -> fits128 x.
Proof.
  intros H. unfold fits128. rewrite Z.land_ones by lia.
  apply Z.mod_small. exact H.
Qed.

Lemma fits128_land (x m : Z) : fits128 x -> fits128 (Z.land x m).
Proof.
  unfold fits128. intros H.
  rewrite <- Z.land_assoc, (Z.land_comm m), Z.land_assoc, H. reflexivity.
Qed.

Lemma fits128_lor (x y : Z) : fits128 x -> fits128 y -> fits128 (Z.lor x y).
Proof.
  unfold fits128. intros Hx Hy. rewrite Z.land_lor_distr_l, Hx, Hy.
  reflexivity.
Qed.

Lemma uuid5_range (namespace : Uuid.UUID) (name : list Z) :
  0 <= Uuid.uuid5 namespace name < 2 ^ 128.
Proof.
  apply fits128_range. unfold Uuid.uuid5, Uuid.of_bytes_version.
  set (b := take 16 _).
  assert (Hb : fits128 (Sha1.be_word b)).
  { apply range_fits128. unfold Sha1.be_word.
    assert (Hr : Forall (fun x => 0 <= x < 256) b)
      by (apply Forall_take, digest_range).
    pose proof (be_word_from b 0 Hr ltac:(lia)) as H.
    assert (Hl : (length b <= 16)%nat)
      by (subst b; rewrite length_take; lia).
    assert (256 ^ Z.of_nat (length b) <= 256 ^ 16)
      by (apply Z.pow_le_mono_r; lia).
    change (2 ^ 128) with (256 ^ 16). lia. }
  apply fits128_lor; [apply fits128_land, fits128_lor;
                      [apply fits128_land, Hb|]|]; reflexivity.
Qed.

Lemma hex_value_digit (d : Z) :
  0 <= d < 16 -> hex_value (Uuid.hex_digit d) = d.
Proof.
  intros H. unfold hex_value, Uuid.hex_digit.
  destruct (d <? 10) eqn:E; rewrite Z2N.id by lia;
    [apply Z.ltb_lt in E|apply Z.ltb_ge in E];
    destruct (_ <? 58) eqn:E';
    first [apply Z.ltb_lt in E'|apply Z.ltb_ge in E']; lia.
Qed.

Lemma unhex_hex_digits (n : nat) (u acc : Z) :
  fold_left (fun a c => a * 16 + hex_value c) (hex_digits n u) acc
  = acc * 16 ^ Z.of_nat n + u mod 16 ^ Z.of_nat n.
Proof.
  revert acc. induction n as [|n IH]; intros acc.
  - cbn. rewrite Z.mod_1_r. lia.
  - unfold hex_digits. rewrite seq_S, rev_app_distr.
    cbn [rev app map fold_left].
    fold (hex_digits n u). rewrite IH.
    rewrite hex_value_digit by (apply Z.mod_pos_bound; lia).
    rewrite Nat2Z.inj_succ, Z.pow_succ_r by lia.
    assert (Hp : 0 < 16 ^ Z.of_nat n) by (apply Z.pow_pos_nonneg; lia).
    rewrite (Z.mul_comm 16), Z.rem_mul_r by lia. cbn [Nat.add]. lia.
Qed.

Lemma unhex_hex32 (u : Z) : 0 <= u < 2 ^ 128 -> unhex (Uuid.hex32 u) = u.
Proof.
  intros H. unfold unhex. change (Uuid.hex32 u) with (hex_digits 32 u).
  rewrite unhex_hex_digits. change (16 ^ Z.of_nat 32) with (2 ^ 128).
  rewrite Z.mod_small by exact H. lia.
Qed.

Lemma undash_to_str (u : Z) : undash (Uuid.to_str u) = Uuid.hex32 u.
Proof.
  assert (Hh : length (Uuid.hex32 u) = 32%nat)
    by (unfold Uuid.hex32; rewrite length_map, length_rev, length_seq;
        reflexivity).
  unfold Uuid.to_str. revert Hh. generalize (Uuid.hex32 u). intros h Hh.
  do 32 (destruct h as [|? h]; [discriminate Hh|]).
  destruct h; [reflexivity|discriminate Hh].
Qed.

Lemma to_str_inj (u v : Z) :
  0 <= u < 2 ^ 128 -> 0 <= v < 2 ^ 128 ->
  Uuid.to_str u = Uuid.to_str v -> u = v.
Proof.
  intros Hu Hv E.
  rewrite <- (unhex_hex32 u Hu), <- (unhex_hex32 v Hv).
  rewrite <- !undash_to_str, E. reflexivity.
Qed.
End UuidFacts.

Lemma chunk_identity_inj_uuid (t1 t2 : str) (b1 b2 : bytes) :
  utf8_encode t1 = Some b1 -> utf8_encode t2 = Some b2 ->
  chunk_identity t1 = chunk_identity t2 ->
  Uuid.uuid5 Uuid.NAMESPACE_DNS (map Z.of_N b1)
  = Uuid.uuid5 Uuid.NAMESPACE_DNS (map Z.of_N b2).
Proof.
  intros E1 E2. unfold chunk_identity, chunk_uuid. rewrite E1, E2.
  cbn [option_map]. intros H.
  apply to_str_inj; [apply uuid5_range|apply uuid5_range|congruence].
Qed.

(** C6: the identity of a chunk is a function of its text alone: neither
    the metadata of the chunk nor the run enters it.  For two chunks whose
    texts can be encoded, on which the name-based hash does not collide,
    the identities are equal exactly when the texts are equal, code point
    for code point and octet for octet. *)
Theorem chunk_identity_content_only (d1 d2 : Document) (b1 b2 : bytes) :
  utf8_encode (page_content d1) = Some b1 ->
  utf8_encode (page_content d2) = Some b2 ->
  (Uuid.uuid5 Uuid.NAMESPACE_DNS (map Z.of_N b1)
   = Uuid.uuid5 Uuid.NAMESPACE_DNS (map Z.of_N b2) -> b1 = b2) ->
  (chunk_identity (page_content d1) = chunk_identity (page_content d2)
   <-> page_content d1 = page_content d2)
  /\ (page_content d1 = page_content d2 <-> b1 = b2).
Proof.
  intros E1 E2 Hfree.
  assert (Hb : page_content d1 = page_content d2 <-> b1 = b2).
  { split.
    - intros H. rewrite H in E1. congruence.
    - intros ->. exact (utf8_encode_inj _ _ b2 E1 E2). }
  split; [|exact Hb]. split.
  - intros H. apply Hb, Hfree.
    exact (chunk_identity_inj_uuid _ _ b1 b2 E1 E2 H).
  - intros ->. reflexivity.
Qed.

Lemma chunk_identity_content_only_witness :
  let d1 := Demo.doc "a" in
  let d2 := {| page_content := py "b";
               metadata := {| source := py "other.pdf"; page := 7 |} |} in
  utf8_encode (page_content d1) = Some [97%N]
  /\ utf8_encode (page_content d2) = Some [98%N]
  /\ ((chunk_identity (page_content d1) = chunk_identity (page_content d2)
       <-> page_content d1 = page_content d2)
      /\ (page_content d1 = page_content d2 <-> [97%N] = [98%N])).
Proof.
  intros d1 d2.
  split; [reflexivity|]. split; [reflexivity|].
  apply (chunk_identity_content_only d1 d2 [97%N] [98%N]);
    [reflexivity|reflexivity|].
  intros H. vm_compute in H. discriminate H.
Defined.

(** ** Deduplication in [create_vectorstore] *)

Section Dedup.

Lemma rmap_Forall2 {A B} (f : A -> result B) (l : list A) (l' : list B) :
  rmap f l = Ok l' -> Forall2 (fun a b => f a = Ok b) l l'.
Proof.
  revert l'. induction l as [|a l IH]; intros l'; cbn.
  - intros H. injection H as <-. constructor.
  - destruct (f a) as [b|e] eqn:Ea; cbn; [|discriminate].
    destruct (rmap f l) as [bs|e] eqn:El; cbn; [|discriminate].
    intros H. injection H as <-. constructor; [exact Ea|apply IH; reflexivity].
Qed.

(** Under the ids of the chunks kept so far, an id has been seen exactly
    when its text has. *)
Lemma seen_id_iff_seen_text (kept : list Document) (ids : list str)
    (c : Document) (id : str) :
  Forall2 has_id kept ids -> has_id c id ->
  (forall k, k ∈ kept ->
     chunk_identity (page_content k) = chunk_identity (page_content c) ->
     page_content k = page_content c) ->
  (id ∈ ids <-> page_content c ∈ map page_content kept).
Proof.
  intros Hk Hc Hfree. induction Hk as [|k i kept ids Hki Hk IH]; cbn.
  - split; intros H; inversion H.
  - rewrite !elem_of_cons, IH.
    + assert (id = i <-> page_content c = page_content k); [|tauto].
      split.
      * intros ->. symmetry. apply Hfree; [left|].
        unfold has_id in *. congruence.
      * intros E. unfold has_id in *. rewrite <- E in Hki. congruence.
    + intros k' Hk'. apply Hfree. right. exact Hk'.
Qed.

Lemma unique_loop_spec (chunks : list Document) (ids : list str) :
  Forall2 has_id chunks ids ->
  forall (kept : list Document) (kept_ids seen : list str),
  Forall2 has_id kept kept_ids ->
  (forall t, t ∈ seen <-> t ∈ map page_content kept) ->
  collision_free (map page_content kept ++ map page_content chunks) ->
  exists new_ids,
    unique_loop (zip chunks ids) kept_ids kept
    = (kept_ids ++ new_ids, kept ++ first_by_content seen chunks)
    /\ Forall2 has_id (first_by_content seen chunks) new_ids.
Proof.
  induction 1 as [|c id chunks ids Hc _ IH];
    intros kept kept_ids seen Hk Hseen Hfree.
  - exists []. cbn. rewrite !app_nil_r. split; [reflexivity|constructor].
  - cbn [zip_with unique_loop first_by_content].
    assert (Hiff : id ∈ kept_ids <-> page_content c ∈ seen).
    { rewrite Hseen. apply seen_id_iff_seen_text; [exact Hk|exact Hc|].
      intros k Hin E. apply Hfree; [| |exact E].
      - apply elem_of_app. left. apply list_elem_of_fmap_2. exact Hin.
      - apply elem_of_app. right. left. }
    unfold PySet.add, PySet.contains.
    destruct (bool_decide (id ∈ kept_ids)) eqn:Eid; cbn [negb]; cbv iota.
    + apply bool_decide_eq_true in Eid.
      rewrite (bool_decide_eq_true_2 (page_content c ∈ seen))
        by (apply (proj1 Hiff), Eid).
      apply IH; [exact Hk|exact Hseen|].
      intros t1 t2 H1 H2. apply Hfree.
      * apply elem_of_app in H1 as [H1|H1]; apply elem_of_app;
          [left; exact H1|right; right; exact H1].
      * apply elem_of_app in H2 as [H2|H2]; apply elem_of_app;
          [left; exact H2|right; right; exact H2].
    + apply bool_decide_eq_false in Eid.
      rewrite (bool_decide_eq_false_2 (page_content c ∈ seen))
        by (intros Hin; apply Eid, (proj2 Hiff), Hin).
      destruct (IH (kept ++ [c]) (kept_ids ++ [id]) (page_content c :: seen))
        as (new_ids & Hrun & Hnew).
      * apply Forall2_app; [exact Hk|]. constructor; [exact Hc|constructor].
      * intros t. rewrite map_app, elem_of_app, elem_of_cons, Hseen. cbn.
        rewrite list_elem_of_singleton. tauto.
      * intros t1 t2 H1 H2.
        rewrite map_app, <- app_assoc in H1, H2.
        apply Hfree; [exact H1|exact H2].
      * exists (id :: new_ids). rewrite Hrun, <- !app_assoc. cbn.
        split; [reflexivity|]. constructor; [exact Hc|exact Hnew].
Qed.

(** What [first_by_content] keeps. *)
Lemma first_by_content_elem (seen : list str) (chunks : list Document)
    (t : str) :
  t ∈ map page_content (first_by_content seen chunks)
  <-> t ∈ map page_content chunks /\ t ∉ seen.
Proof.
  revert seen. induction chunks as [|c chunks IH]; intros seen; cbn.
  - split; [intros H; inversion H|intros [H _]; inversion H].
  - case_bool_decide as Hc; cbn; rewrite ?elem_of_cons, IH.
    + split; [tauto|]. intros [[->|H] Hn]; [contradiction|tauto].
    + rewrite elem_of_cons.
      destruct (decide (t = page_content c)) as [->|Hne]; [tauto|].
      split; [tauto|]. intros [[?|?] ?]; [contradiction|]. tauto.
Qed.

Lemma first_by_content_NoDup (seen : list str) (chunks : list Document) :
  NoDup (map page_content (first_by_content seen chunks)).
Proof.
  revert seen. induction chunks as [|c chunks IH]; intros seen; cbn.
  - constructor.
  - case_bool_decide; cbn; [apply IH|].
    constructor; [|apply IH].
    rewrite first_by_content_elem, elem_of_cons. tauto.
Qed.

Lemma first_by_content_sublist (seen : list str) (chunks : list Document) :
  sublist (first_by_content seen chunks) chunks.
Proof.
  revert seen. induction chunks as [|c chunks IH]; intros seen; cbn.
  - constructor.
  - case_bool_decide; [apply sublist_cons, IH|apply sublist_skip, IH].
Qed.

(** The first chunk with a given text is the one that is kept. *)
Lemma first_by_content_first (seen : list str) (pre post : list Document)
    (c : Document) :
  page_content c ∉ seen ->
  page_content c ∉ map page_content pre ->
  c ∈ first_by_content seen (pre ++ c :: post).
Proof.
  revert seen. induction pre as [|p pre IH]; intros seen Hs Hp; cbn.
  - rewrite bool_decide_eq_false_2 by exact Hs. left.
  - cbn in Hp. rewrite elem_of_cons in Hp.
    case_bool_decide; [apply IH; tauto|].
    right. apply IH; [|tauto]. rewrite elem_of_cons. tauto.
Qed.
End Dedup.

(** C5: the list [unique_chunks] that [create_vectorstore] builds is the
    input with every chunk removed whose text occurred before: provided the
    ids of the chunks can be computed and do not collide on the texts of the
    input, every distinct text is kept exactly once, the chunk kept for it
    is its first occurrence, and the chunks kept are in the order of the
    input. *)
Theorem unique_chunks_first_occurrences (chunks : list Document)
    (ids : list str) :
  rmap (fun doc => chunk_identity (page_content doc)) chunks = Ok ids ->
  collision_free (map page_content chunks) ->
  let unique_chunks := snd (unique_loop (zip chunks ids) PySet.empty []) in
  unique_chunks = first_by_content [] chunks
  /\ NoDup (map page_content unique_chunks)
  /\ (forall t, t ∈ map page_content unique_chunks
                <-> t ∈ map page_content chunks)
  /\ sublist unique_chunks chunks
  /\ (forall pre c post, chunks = pre ++ c :: post ->
        page_content c ∉ map page_content pre -> c ∈ unique_chunks).
Proof.
  intros Hids Hfree unique_chunks.
  apply rmap_Forall2 in Hids.
  destruct (unique_loop_spec chunks ids Hids [] [] []) as (new_ids & Hrun & _);
    [constructor|reflexivity|exact Hfree|].
  assert (Hu : unique_chunks = first_by_content [] chunks)
    by (subst unique_chunks; unfold PySet.empty; rewrite Hrun; reflexivity).
  rewrite Hu. split; [reflexivity|]. split; [apply first_by_content_NoDup|].
  split; [|split; [apply first_by_content_sublist|]].
  - intros t. rewrite first_by_content_elem. split; [tauto|].
    intros H. split; [exact H|]. intros H'. inversion H'.
  - intros pre c post -> Hpre. apply first_by_content_first; [|exact Hpre].
    intros H. inversion H.
Qed.

Lemma collision_freeb_sound (texts : list str) :
  collision_freeb texts = true -> collision_free texts.
Proof.
  unfold collision_freeb. rewrite forallb_forall. intros H t1 t2 H1 H2 E.
  apply list_elem_of_In in H1, H2. specialize (H t1 H1).
  rewrite forallb_forall in H. specialize (H t2 H2).
  unfold same_identity in H. rewrite E in H.
  destruct (chunk_identity t2); cbn in H.
  - rewrite bool_decide_eq_true_2 in H by reflexivity.
    apply bool_decide_eq_true in H. exact H.
  - apply bool_decide_eq_true in H. exact H.
Qed.

Lemma unique_chunks_first_occurrences_witness :
  rmap (fun doc => chunk_identity (page_content doc)) Demo.abac
  = Ok Demo.abac_ids
  /\ collision_free (map page_content Demo.abac)
  /\ snd (unique_loop (zip Demo.abac Demo.abac_ids) PySet.empty [])
     = [Demo.doc "a"; Demo.doc "b"; Demo.doc "c"].
Proof.
  assert (H1 : rmap (fun doc => chunk_identity (page_content doc)) Demo.abac
               = Ok Demo.abac_ids) by (vm_compute; reflexivity).
  assert (H2 : collision_free (map page_content Demo.abac))
    by (apply collision_freeb_sound; vm_compute; reflexivity).
  split; [exact H1|]. split; [exact H2|].
  destruct (unique_chunks_first_occurrences Demo.abac Demo.abac_ids H1 H2)
    as [-> _].
  vm_compute. reflexivity.
Defined.

(** ** The collection store *)

Section StoreFacts.
Variable env : Env.

Lemma upsert_lookup_notin (rows : list (str * Entry)) (c : gmap str Entry)
    (k : str) :
  k ∉ map fst rows -> upsert c rows !! k = c !! k.
Proof.
  revert c. induction rows as [|[k' e] rows IH]; intros c Hk; cbn.
  - reflexivity.
  - cbn in Hk. rewrite not_elem_of_cons in Hk. destruct Hk as [Hne Hk].
    unfold upsert in IH. rewrite IH by exact Hk.
    apply lookup_insert_ne. congruence.
Qed.

Lemma upsert_lookup_in (rows : list (str * Entry)) (c : gmap str Entry)
    (k : str) (e : Entry) :
  NoDup (map fst rows) -> (k, e) ∈ rows -> upsert c rows !! k = Some e.
Proof.
  revert c. induction rows as [|[k' e'] rows IH]; intros c Hnd Hin.
  - inversion Hin.
  - cbn in Hnd. apply NoDup_cons in Hnd as [Hk' Hnd].
    apply elem_of_cons in Hin as [Heq|Hin].
    + injection Heq as <- <-. cbn.
      fold (upsert (<[k:=e]> c) rows).
      rewrite upsert_lookup_notin by exact Hk'. apply lookup_insert_eq.
    + cbn. apply IH; [exact Hnd|exact Hin].
Qed.

Lemma upsert_lookup_cases (rows : list (str * Entry)) (c : gmap str Entry)
    (k : str) (e : Entry) :
  upsert c rows !! k = Some e -> c !! k = Some e \/ (k, e) ∈ rows.
Proof.
  revert c. induction rows as [|[k' e'] rows IH]; intros c; cbn.
  - intros H. left. exact H.
  - intros H. apply IH in H as [H|H].
    + destruct (decide (k' = k)) as [->|Hne].
      * rewrite lookup_insert_eq in H. injection H as ->. right. left.
      * rewrite lookup_insert_ne in H by exact Hne. left. exact H.
    + right. right. exact H.
Qed.

Lemma upsert_keeps_keys (rows : list (str * Entry)) (c : gmap str Entry)
    (k : str) :
  is_Some (c !! k) -> is_Some (upsert c rows !! k).
Proof.
  revert c. induction rows as [|[k' e'] rows IH]; intros c; cbn.
  - intros H. exact H.
  - intros H. apply IH. destruct (decide (k' = k)) as [->|Hne].
    + rewrite lookup_insert_eq. eauto.
    + rewrite lookup_insert_ne by exact Hne. exact H.
Qed.

(** The steps of [Chroma.from_documents], one after the other. *)
Lemma Chroma_from_documents_run (docs : list Document) (cname : str)
    (emb : str -> result (list Z)) (ids : list str) (path : str) (w : World) :
  Chroma_from_documents env docs cname emb ids path w =
    match index_validate env cname ids with
    | Raise e => (Raise e, w)
    | Ok _ =>
        match rmap emb (map page_content docs) with
        | Raise e => (Raise e, w)
        | Ok embeddings =>
            (Ok {| collection_name := cname; persist_directory := path |},
             set_db (fun d =>
               <[(path, cname) :=
                   upsert (default ∅ (d !! (path, cname)))
                     (zip ids
                        (zip_with
                           (fun e d => {| embedding := e;
                                          document := page_content d;
                                          entry_metadata := metadata d |})
                           embeddings docs))]> d) w)
        end
    end.
Proof.
  unfold Chroma_from_documents, bind, lift, modify, ret.
  destruct (index_validate env cname ids); [|reflexivity].
  destruct (rmap emb (map page_content docs)); reflexivity.
Qed.

Lemma create_vectorstore_run (chunks : list Document)
    (emb : str -> result (list Z)) (file_name path : str) (ids : list str)
    (w : World) :
  rmap (fun doc => chunk_identity (page_content doc)) chunks = Ok ids ->
  create_vectorstore env chunks emb file_name path w =
    Chroma_from_documents env
      (snd (unique_loop (zip chunks ids) PySet.empty []))
      (clean_filename file_name) emb
      (set_iteration env (fst (unique_loop (zip chunks ids) PySet.empty [])))
      path w.
Proof.
  intros Hids. unfold create_vectorstore, bind at 1, lift. rewrite Hids.
  destruct (unique_loop (zip chunks ids) PySet.empty []) as [uids uchunks].
  unfold bind, ret. cbn [fst snd].
  destruct (Chroma_from_documents env uchunks (clean_filename file_name) emb
              (set_iteration env uids) path w) as [[v|e] w']; reflexivity.
Qed.

Lemma create_vectorstore_raises_early (chunks : list Document)
    (emb : str -> result (list Z)) (file_name path : str) (e : exn)
    (w : World) :
  rmap (fun doc => chunk_identity (page_content doc)) chunks = Raise e ->
  create_vectorstore env chunks emb file_name path w = (Raise e, w).
Proof.
  intros Hids. unfold create_vectorstore, bind at 1, lift. rewrite Hids.
  reflexivity.
Qed.

End StoreFacts.

Section StoreTheorems.
Variable env : Env.

(** The loop keeps chunks and ids side by side. *)
Lemma unique_loop_aligned (chunks : list Document) (ids : list str) :
  Forall2 has_id chunks ids ->
  forall (kept : list Document) (kept_ids : list str),
  Forall2 has_id kept kept_ids ->
  Forall2 has_id (snd (unique_loop (zip chunks ids) kept_ids kept))
                 (fst (unique_loop (zip chunks ids) kept_ids kept)).
Proof.
  induction 1 as [|c id chunks ids Hc _ IH]; intros kept kept_ids Hk.
  - exact Hk.
  - cbn [zip_with unique_loop]. unfold PySet.add.
    destruct (PySet.contains id kept_ids); cbn [negb].
    + apply IH, Hk.
    + apply IH, Forall2_app; [exact Hk|].
      constructor; [exact Hc|constructor].
Qed.

Lemma unique_loop_subset (pairs : list (Document * str)) (kept_ids : list str)
    (kept : list Document) (c : Document) :
  c ∈ snd (unique_loop pairs kept_ids kept) ->
  c ∈ kept \/ c ∈ map fst pairs.
Proof.
  revert kept_ids kept. induction pairs as [|[d id] pairs IH];
    intros kept_ids kept; cbn [unique_loop].
  - intros H. left. exact H.
  - destruct (negb (PySet.contains id kept_ids)); intros H; apply IH in H.
    + rewrite elem_of_app, list_elem_of_singleton in H. cbn.
      rewrite elem_of_cons. tauto.
    + cbn. rewrite elem_of_cons. tauto.
Qed.

Lemma elem_of_zip_fst {A B} (l : list A) (k : list B) (x : A) :
  x ∈ map fst (zip l k) -> x ∈ l.
Proof.
  revert k. induction l as [|a l IH]; intros [|b k]; cbn; intros H;
    try (inversion H; fail).
  apply elem_of_cons in H as [->|H]; [left|right; apply (IH k), H].
Qed.

Lemma elem_of_zip_snd {A B} (l : list A) (k : list B) (x : A) (y : B) :
  (x, y) ∈ zip l k -> y ∈ k.
Proof.
  revert k. induction l as [|a l IH]; intros [|b k]; cbn; intros H;
    try (inversion H; fail).
  apply elem_of_cons in H as [H|H];
    [injection H as _ ->; left|right; apply IH, H].
Qed.

Lemma elem_of_entries (embeddings : list (list Z)) (docs : list Document)
    (e : Entry) :
  e ∈ zip_with (fun v d => {| embedding := v; document := page_content d;
                             entry_metadata := metadata d |})
               embeddings docs ->
  document e ∈ map page_content docs.
Proof.
  revert docs. induction embeddings as [|v vs IH]; intros [|d docs]; cbn;
    intros H; try (inversion H; fail).
  apply elem_of_cons in H as [->|H]; [left|right; apply IH, H].
Qed.

(** When the set of ids is iterated in insertion order, every row handed
    to the store has the identity of its own text as key. *)
Lemma rows_aligned_in_insertion_order (chunks : list Document)
    (ids : list str) (embeddings : list (list Z)) :
  rmap (fun doc => chunk_identity (page_content doc)) chunks = Ok ids ->
  let uids := fst (unique_loop (zip chunks ids) PySet.empty []) in
  let uchunks := snd (unique_loop (zip chunks ids) PySet.empty []) in
  set_iteration env uids = uids ->
  Forall (fun row => chunk_identity (document (snd row)) = Ok (fst row))
    (zip (set_iteration env uids)
       (zip_with (fun v d => {| embedding := v; document := page_content d;
                                entry_metadata := metadata d |})
                 embeddings uchunks)).
Proof.
  intros Hids uids uchunks ->.
  assert (Ha : Forall2 has_id uchunks uids)
    by (apply unique_loop_aligned; [apply rmap_Forall2, Hids|constructor]).
  clearbody uids uchunks. revert embeddings.
  induction Ha as [|c id uchunks' uids' Hc _ IH]; intros [|v vs]; cbn;
    try constructor.
  - exact Hc.
  - apply IH.
Qed.

Lemma unique_loop_ids_cover (pairs : list (Document * str))
    (kept_ids : list str) (kept : list Document) (id : str) :
  id ∈ kept_ids \/ id ∈ map snd pairs ->
  id ∈ fst (unique_loop pairs kept_ids kept).
Proof.
  revert kept_ids kept. induction pairs as [|[c i] pairs IH];
    intros kept_ids kept; cbn [unique_loop map snd].
  - intros [H|H]; [exact H|inversion H].
  - rewrite elem_of_cons. unfold PySet.add, PySet.contains.
    destruct (bool_decide (i ∈ kept_ids)) eqn:E; cbn [negb]; intros H;
      apply IH.
    + apply bool_decide_eq_true in E.
      destruct H as [H|[->|H]]; [left; exact H|left; exact E|right; exact H].
    + rewrite elem_of_app, list_elem_of_singleton. tauto.
Qed.

Lemma rmap_length {A B} (f : A -> result B) (l : list A) (l' : list B) :
  rmap f l = Ok l' -> length l' = length l.
Proof.
  intros H. apply rmap_Forall2, Forall2_length in H. symmetry. exact H.
Qed.

Lemma upsert_has_key (rows : list (str * Entry)) (c : gmap str Entry)
    (k : str) :
  k ∈ map fst rows -> is_Some (upsert c rows !! k).
Proof.
  revert c. induction rows as [|[k' e'] rows IH]; intros c; cbn.
  - intros H. inversion H.
  - rewrite elem_of_cons. intros [->|H].
    + apply (upsert_keeps_keys rows). rewrite lookup_insert_eq. eauto.
    + apply IH, H.
Qed.


End StoreTheorems.


Lemma insert_sorted_perm (x : str) (l : list str) :
  Demo.insert_sorted x l ≡ₚ x :: l.
Proof.
  induction l as [|y l IH]; cbn; [reflexivity|].
  destruct (Demo.lex_leb x y); [reflexivity|].
  rewrite IH. apply Permutation_swap.
Qed.

Lemma sorted_perm (l : list str) : Demo.sorted l ≡ₚ l.
Proof.
  induction l as [|x l IH]; cbn; [reflexivity|].
  rewrite insert_sorted_perm, IH. reflexivity.
Qed.


Section Misaligned.
Variable env : Env.

(** Two chunks with different ids, under an interpreter that iterates the
    set of the two ids in the order opposite to their insertion: each chunk
    is stored under the id of the other. *)
Lemma create_vectorstore_swaps_pair (c1 c2 : Document) (id1 id2 : str)
    (v1 v2 : list Z) (file_name path : str) (w : World) :
  has_id c1 id1 -> has_id c2 id2 -> id1 <> id2 ->
  set_iteration env [id1; id2] = [id2; id1] ->
  index_validate env (clean_filename file_name) [id2; id1] = Ok tt ->
  embed env (page_content c1) = Ok v1 ->
  embed env (page_content c2) = Ok v2 ->
  let w' :=
    snd (create_vectorstore env [c1; c2] (embed env) file_name path w) in
  stored_text w' path (clean_filename file_name) id1 = Some (page_content c2)
  /\ stored_text w' path (clean_filename file_name) id2
     = Some (page_content c1).
Proof.
  intros H1 H2 Hne Hset Hval He1 He2 w'. subst w'.
  assert (Hids : rmap (fun doc => chunk_identity (page_content doc)) [c1; c2]
                 = Ok [id1; id2]).
  { cbn. unfold has_id in H1, H2. rewrite H1, H2. reflexivity. }
  rewrite (create_vectorstore_run env _ _ _ _ _ _ Hids).
  assert (Hloop : unique_loop (zip [c1; c2] [id1; id2]) PySet.empty []
                  = ([id1; id2], [c1; c2])).
  { cbn. unfold PySet.add, PySet.contains, PySet.empty.
    rewrite (bool_decide_eq_false_2 (id1 ∈ [])) by (intros H; inversion H).
    cbn. rewrite (bool_decide_eq_false_2 (id2 ∈ [id1]))
      by (rewrite list_elem_of_singleton; congruence).
    reflexivity. }
  rewrite Hloop. cbn [fst snd]. rewrite Hset, Chroma_from_documents_run, Hval.
  cbn [map rmap]. rewrite He1, He2. cbn [rbind snd].
  unfold stored_text. cbn [db set_db]. rewrite lookup_insert_eq.
  cbn [zip_with upsert fold_left fst snd].
  split.
  - rewrite lookup_insert_eq. reflexivity.
  - rewrite lookup_insert_ne by congruence. rewrite lookup_insert_eq.
    reflexivity.
Qed.
End Misaligned.

(** C1, at the failing input: the chunks "a" and "b" are stored under each
    other's identity when the set of ids is iterated in an order that is not
    the order of insertion; the ids handed to the store come from
    [list(unique_ids)], the documents from [unique_chunks]. *)
Theorem create_vectorstore_keys_misaligned :
  let r := create_vectorstore Demo.env [Demo.doc "a"; Demo.doc "b"]
             (embed Demo.env) (py "f.pdf") (py "db") Demo.nothing in
  chunk_identity (py "a") = Ok Demo.id_a
  /\ chunk_identity (py "b") = Ok Demo.id_b
  /\ stored_text (snd r) (py "db") (py "f.pdf") Demo.id_a = Some (py "b")
  /\ stored_text (snd r) (py "db") (py "f.pdf") Demo.id_b = Some (py "a").
Proof.
  cbv zeta. repeat split; vm_compute; reflexivity.
Qed.

(** The same call under an interpreter whose sets iterate in insertion
    order stores every chunk under its own identity. *)
Example create_vectorstore_keys_aligned_when_ordered :
  let r := create_vectorstore Demo.env_ordered [Demo.doc "a"; Demo.doc "b"]
             (embed Demo.env) (py "f.pdf") (py "db") Demo.nothing in
  stored_text (snd r) (py "db") (py "f.pdf") Demo.id_a = Some (py "a")
  /\ stored_text (snd r) (py "db") (py "f.pdf") Demo.id_b = Some (py "b").
Proof.
  cbv zeta. split; vm_compute; reflexivity.
Qed.

(** ** The size of the chunks of [split_document] *)

Section SplitterFacts.
Import Splitter.
Local Open Scope Z_scope.
Variables (chunk_size chunk_overlap : Z).

Lemma length_lstrip (s : str) : (length (lstrip s) <= length s)%nat.
Proof.
  induction s as [|c s IH]; cbn; [lia|]. destruct (isspace c); cbn; lia.
Qed.

Lemma len_strip (s : str) : len (strip s) <= len s.
Proof.
  unfold len, strip, rstrip. rewrite length_rev.
  pose proof (length_lstrip (rev (lstrip s))) as H1.
  pose proof (length_lstrip s) as H2. rewrite length_rev in H1. lia.
Qed.

Lemma len_join_nil (docs : list str) : join [] docs = concat docs.
Proof.
  induction docs as [|d [|d' docs] IH]; cbn in *.
  - reflexivity.
  - rewrite app_nil_r. reflexivity.
  - rewrite IH. reflexivity.
Qed.

Lemma len_app {A} (a b : list A) : len (a ++ b) = len a + len b.
Proof. unfold len. rewrite length_app. lia. Qed.

Lemma len_nonneg {A} (a : list A) : 0 <= len a.
Proof. unfold len. lia. Qed.

Lemma len_concat_snoc (cur : list str) (d : str) :
  len (concat (cur ++ [d])) = len (concat cur) + len d.
Proof. rewrite concat_app, len_app. cbn. rewrite app_nil_r. reflexivity. Qed.

(** Every chunk [_merge_splits] emits is at most as long as the window it
    is made of. *)
Lemma emit_bound (cur : list str) (c : str) :
  c ∈ emit cur [] -> len c <= len (concat cur).
Proof.
  unfold emit, join_docs. rewrite len_join_nil.
  pose proof (len_strip (concat cur)) as H.
  destruct (strip (concat cur)) as [|x t] eqn:E; intros Hin.
  - inversion Hin.
  - apply list_elem_of_singleton in Hin. subst c. exact H.
Qed.

Lemma sep_if_0 (b : bool) : sep_if b 0 = 0.
Proof. destruct b; reflexivity. Qed.

(** After the inner loop the window is as long as [total] says, and it
    leaves room for the next piece unless it is empty. *)
Lemma pop_window_spec (_len : Z) (cur : list str) (total : Z) :
  total = len (concat cur) ->
  let '(cur', total') := pop_window chunk_size chunk_overlap 0 _len cur total in
  total' = len (concat cur')
  /\ (total' + _len <= chunk_size \/ total' = 0).
Proof.
  revert total. induction cur as [|c cur IH]; intros total Ht.
  - cbn. split; [exact Ht|]. right. exact Ht.
  - cbn [pop_window].
    rewrite !sep_if_0.
    destruct ((total >? chunk_overlap)
              || (total + _len + 0 >? chunk_size) && (total >? 0)) eqn:E.
    + apply IH. cbn in Ht. rewrite len_app in Ht. lia.
    + split; [exact Ht|].
      apply orb_false_iff in E as [_ E]. apply andb_false_iff in E.
      pose proof (len_nonneg (concat (c :: cur))).
      destruct E as [E|E]; [left|right]; lia.
Qed.

Lemma merge_loop_bound (splits cur : list str) (total : Z) :
  Forall (fun d => len d <= chunk_size) splits ->
  total = len (concat cur) -> total <= chunk_size ->
  forall c, c ∈ merge_loop chunk_size chunk_overlap [] splits cur total ->
            len c <= chunk_size.
Proof.
  intros Hs. revert cur total.
  induction Hs as [|d splits Hd Hs IH]; intros cur total Ht Hle c.
  - cbn. intros Hin. apply emit_bound in Hin. lia.
  - cbn [merge_loop]. change (len (@nil N)) with 0. rewrite !sep_if_0.
    destruct (total + len d + 0 >? chunk_size) eqn:Ebig.
    + destruct (0 <? len cur) eqn:Ecur.
      * pose proof (pop_window_spec (len d) cur total Ht) as Hpop.
        destruct (pop_window chunk_size chunk_overlap 0 (len d) cur total)
          as [cur' total'].
        destruct Hpop as [Ht' Hroom]. rewrite sep_if_0.
        rewrite elem_of_app. intros [Hin|Hin].
        -- apply emit_bound in Hin. lia.
        -- apply (IH (cur' ++ [d]) (total' + len d + 0)); [| |exact Hin].
           ++ rewrite len_concat_snoc. lia.
           ++ lia.
      * cbn [app]. rewrite sep_if_0. intros Hin.
        assert (cur = []) as ->
          by (destruct cur; [reflexivity|]; apply Z.ltb_ge in Ecur;
              unfold len in Ecur; cbn in Ecur; lia).
        apply (IH ([] ++ [d]) (total + len d + 0)); [| |exact Hin].
        -- rewrite len_concat_snoc. lia.
        -- cbn in Ht. change (len (@nil N)) with 0 in Ht. lia.
    + cbn [app]. rewrite sep_if_0. intros Hin.
      apply (IH (cur ++ [d]) (total + len d + 0)); [| |exact Hin].
      * rewrite len_concat_snoc. lia.
      * lia.
Qed.

Lemma merge_splits_bound (good : list str) (c : str) :
  0 <= chunk_size ->
  Forall (fun d => len d <= chunk_size) good ->
  c ∈ merge_splits chunk_size chunk_overlap good [] -> len c <= chunk_size.
Proof.
  intros Hpos Hgood. unfold merge_splits.
  apply merge_loop_bound; [exact Hgood|reflexivity|exact Hpos].
Qed.

Lemma startswith_nil (s : str) : startswith s [] = true.
Proof. destruct s; reflexivity. Qed.

Lemma elem_of_rev_iff {A} (x : A) (l : list A) : x ∈ rev l <-> x ∈ l.
Proof. rewrite !list_elem_of_In, <- in_rev. reflexivity. Qed.

(** A split on a separator of one code point: no piece has the separator
    in it. *)
Lemma re_split_char (sep : N) (text cur : str) :
  sep ∉ cur -> Forall (fun p => sep ∉ p) (re_split [sep] 0 text cur).
Proof.
  revert cur. induction text as [|c text IH]; intros cur Hcur;
    cbn [re_split].
  - constructor; [|constructor]. rewrite elem_of_rev_iff. exact Hcur.
  - cbn [startswith length Nat.sub].
    rewrite startswith_nil.
    destruct (N.eqb_spec sep c) as [<-|Hne]; cbn [andb].
    + constructor.
      * rewrite elem_of_rev_iff. exact Hcur.
      * apply IH. intros H. inversion H.
    + apply IH. rewrite not_elem_of_cons. split; [exact Hne|exact Hcur].
Qed.

(** The code points of the pieces are those read so far and those of the
    text. *)
Lemma re_split_elems (sep : N) (text cur : str) :
  Forall (fun p => forall x, x ∈ p -> x ∈ cur \/ x ∈ text)
         (re_split [sep] 0 text cur).
Proof.
  revert cur. induction text as [|c text IH]; intros cur; cbn [re_split].
  - constructor; [|constructor]. intros x. rewrite elem_of_rev_iff. tauto.
  - cbn [startswith length Nat.sub]. rewrite startswith_nil.
    destruct (N.eqb_spec sep c) as [<-|Hne]; cbn [andb].
    + constructor.
      * intros x. rewrite elem_of_rev_iff. tauto.
      * eapply Forall_impl; [apply IH|]. cbn. intros p Hp x Hx.
        destruct (Hp x Hx) as [H|H]; [inversion H|right; right; exact H].
    + eapply Forall_impl; [apply IH|]. cbn. intros p Hp x Hx.
      destruct (Hp x Hx) as [H|H]; [|right; right; exact H].
      apply elem_of_cons in H as [->|H]; [right; left|left; exact H].
Qed.

(** The pieces after the first are made of code points of the text, and
    of code points that come after its first one. *)
Lemma re_split_tail_elems (sep : N) (text cur : str) :
  Forall (fun p => forall x, x ∈ p -> x ∈ text)
         (tl (re_split [sep] 0 text cur)).
Proof.
  revert cur. induction text as [|c text IH]; intros cur; cbn [re_split].
  - constructor.
  - cbn [startswith length Nat.sub]. rewrite startswith_nil.
    destruct (N.eqb_spec sep c) as [<-|Hne]; cbn [andb tl].
    + eapply Forall_impl; [apply (re_split_elems sep text [])|].
      cbn. intros p Hp x Hx.
      destruct (Hp x Hx) as [H|H]; [inversion H|right; exact H].
    + eapply Forall_impl; [apply (IH (c :: cur))|].
      cbn. intros p Hp x Hx. right. apply Hp, Hx.
Qed.

Lemma re_split_later_pieces (sep c : N) (text cur : str) :
  Forall (fun p => forall x, x ∈ p -> x ∈ text)
         (tl (re_split [sep] 0 (c :: text) cur)).
Proof.
  cbn [re_split startswith length Nat.sub]. rewrite startswith_nil.
  destruct (N.eqb_spec sep c) as [<-|Hne]; cbn [andb tl].
  - eapply Forall_impl; [apply (re_split_elems sep text [])|].
    cbn. intros p Hp x Hx.
    destruct (Hp x Hx) as [H|H]; [inversion H|exact H].
  - apply re_split_tail_elems.
Qed.

(** The first piece is what was read so far and a prefix of the text. *)
Lemma re_split_first_piece (sep : N) (text cur : str) :
  exists pre post others,
    text = pre ++ post
    /\ re_split [sep] 0 text cur = (rev cur ++ pre) :: others.
Proof.
  revert cur. induction text as [|c text IH]; intros cur; cbn [re_split].
  - exists [], [], []. rewrite !app_nil_r. split; reflexivity.
  - cbn [startswith length Nat.sub]. rewrite startswith_nil.
    destruct (N.eqb_spec sep c) as [<-|Hne]; cbn [andb].
    + exists [], (sep :: text), (re_split [sep] 0 text []).
      rewrite !app_nil_r. split; reflexivity.
    + destruct (IH (c :: cur)) as (pre & post & others & -> & Hrun).
      exists (c :: pre), post, others. split; [reflexivity|].
      rewrite Hrun. cbn [rev]. rewrite <- app_assoc. reflexivity.
Qed.

(** The pieces of a split on one code point, with the separator kept in
    front: the separator does not occur after the first code point of a
    piece, and neither does a code point that does not occur after the
    first code point of the text. *)
Lemma split_char_pieces (sep : N) (text : str) :
  Forall (fun p => sep ∉ tl p) (split_text_with_regex text [sep]).
Proof.
  unfold split_text_with_regex.
  pose proof (re_split_char sep text [] ltac:(intros H; inversion H)) as Hp.
  destruct (re_split [sep] 0 text []) as [|first others].
  - constructor.
  - apply Forall_cons in Hp as [Hfirst Hothers].
    apply Forall_forall. intros p Hin.
    apply list_elem_of_In, filter_In in Hin as [Hin _].
    destruct Hin as [<-|Hin].
    + intros H. apply Hfirst. destruct first; [inversion H|].
      right. exact H.
    + apply in_map_iff in Hin as (q & <- & Hq). cbn.
      rewrite Forall_forall in Hothers. apply Hothers, list_elem_of_In, Hq.
Qed.

Lemma split_char_pieces_keep (sep bad : N) (text : str) :
  bad ∉ tl text ->
  Forall (fun p => bad ∉ tl p) (split_text_with_regex text [sep]).
Proof.
  intros Hbad. unfold split_text_with_regex.
  destruct (re_split_first_piece sep text [])
    as (pre & post & others & Htext & Hrun).
  assert (Hlater : Forall (fun p => forall x, x ∈ p -> x ∈ tl text) others).
  { destruct text as [|c text].
    - cbn in Hrun. injection Hrun as _ <-. constructor.
    - pose proof (re_split_later_pieces sep c text []) as H.
      rewrite Hrun in H. exact H. }
  rewrite Hrun. cbn [rev app].
  apply Forall_forall. intros p Hin.
  apply list_elem_of_In, filter_In in Hin as [Hin _].
  destruct Hin as [<-|Hin].
  - intros H. apply Hbad. subst text. destruct pre; [inversion H|].
    cbn in *. apply elem_of_app. left. exact H.
  - apply in_map_iff in Hin as (q & <- & Hq). cbn. intros H. apply Hbad.
    rewrite Forall_forall in Hlater. apply (Hlater q); [|exact H].
    apply list_elem_of_In, Hq.
Qed.

Lemma not_found_char (sep : N) (text : str) :
  found [sep] text = false -> sep ∉ text.
Proof.
  induction text as [|c text IH]; cbn [found startswith].
  - intros _ H. inversion H.
  - rewrite startswith_nil, andb_true_r. intros H.
    apply orb_false_iff in H as [Hc Ht]. apply N.eqb_neq in Hc.
    rewrite not_elem_of_cons. split; [exact Hc|apply IH, Ht].
Qed.

(** What a chunk of [_split_text] is, given what the pieces and the deeper
    splits are. *)
Lemma split_loop_chunks (P : str -> Prop) (deeper : option (str -> list str))
    (splits : list str) :
  0 <= chunk_size ->
  (forall c, len c <= chunk_size -> P c) ->
  (forall s, s ∈ splits ->
     match deeper with
     | None => P s
     | Some split_text => forall c, c ∈ split_text s -> P c
     end) ->
  forall good, Forall (fun d => len d <= chunk_size) good ->
  forall c, c ∈ split_loop chunk_size chunk_overlap deeper splits good -> P c.
Proof.
  intros Hpos Hshort. induction splits as [|s splits IH];
    intros Hs good Hgood c; cbn [split_loop].
  - destruct (nonempty good); intros Hin; [|inversion Hin].
    apply Hshort, (merge_splits_bound good c Hpos Hgood Hin).
  - destruct (len s <? chunk_size) eqn:E.
    + apply IH.
      * intros s' Hs'. apply Hs. right. exact Hs'.
      * apply Forall_app. split; [exact Hgood|].
        constructor; [|constructor]. apply Z.ltb_lt in E. lia.
    + rewrite !elem_of_app. intros [Hin|[Hin|Hin]].
      * destruct (nonempty good); [|inversion Hin].
        apply Hshort, (merge_splits_bound good c Hpos Hgood Hin).
      * specialize (Hs s ltac:(left)).
        destruct deeper as [split_text|].
        -- apply Hs, Hin.
        -- apply list_elem_of_singleton in Hin. subst c. exact Hs.
      * revert Hin. apply IH; [|constructor].
        intros s' Hs'. apply Hs. right. exact Hs'.
Qed.

Lemma split_text_with_last (sep : str) (text : str) :
  sep <> [] ->
  split_text_with chunk_size chunk_overlap sep [] text
  = split_loop chunk_size chunk_overlap None
      (split_text_with_regex text sep) [].
Proof.
  intros Hsep. destruct sep as [|x sep]; [contradiction|].
  cbn [split_text_with]. destruct (found (x :: sep) text); reflexivity.
Qed.

Lemma split_text_with_more (sep sep' : str) (rest : list str) (text : str) :
  sep <> [] ->
  split_text_with chunk_size chunk_overlap sep (sep' :: rest) text
  = if found sep text
    then split_loop chunk_size chunk_overlap
           (Some (split_text_with chunk_size chunk_overlap sep' rest))
           (split_text_with_regex text sep) []
    else split_text_with chunk_size chunk_overlap sep' rest text.
Proof.
  intros Hsep. destruct sep as [|x sep]; [contradiction|]. reflexivity.
Qed.

Lemma split_text_space (text c : str) :
  0 <= chunk_size -> LF ∉ tl text ->
  c ∈ split_text_with chunk_size chunk_overlap [SPACE] [] text ->
  sized_or_unbroken chunk_size c.
Proof.
  intros Hpos Hlf. rewrite split_text_with_last by discriminate.
  apply split_loop_chunks; [exact Hpos| | |constructor].
  - intros c' Hc'. left. exact Hc'.
  - intros s Hs. right.
    pose proof (split_char_pieces SPACE text) as Hp.
    pose proof (split_char_pieces_keep SPACE LF text Hlf) as Hq.
    rewrite Forall_forall in Hp, Hq. split; [apply Hp, Hs|apply Hq, Hs].
Qed.

Lemma split_text_line (text c : str) :
  0 <= chunk_size ->
  c ∈ split_text_with chunk_size chunk_overlap [LF] [[SPACE]] text ->
  sized_or_unbroken chunk_size c.
Proof.
  intros Hpos. rewrite split_text_with_more by discriminate.
  destruct (found [LF] text) eqn:Hfound.
  - apply split_loop_chunks; [exact Hpos| | |constructor].
    + intros c' Hc'. left. exact Hc'.
    + intros s Hs c' Hc'.
      pose proof (split_char_pieces LF text) as Hp.
      rewrite Forall_forall in Hp.
      apply (split_text_space s c' Hpos (Hp s Hs) Hc').
  - apply split_text_space; [exact Hpos|].
    apply not_found_char in Hfound. intros H. apply Hfound.
    destruct text; [inversion H|right; exact H].
Qed.

Lemma split_text_chunks (text c : str) :
  0 <= chunk_size ->
  c ∈ split_text chunk_size chunk_overlap text ->
  sized_or_unbroken chunk_size c.
Proof.
  intros Hpos. unfold split_text, separators.
  rewrite split_text_with_more by discriminate.
  destruct (found [LF; LF] text).
  - apply split_loop_chunks; [exact Hpos| | |constructor].
    + intros c' Hc'. left. exact Hc'.
    + intros s _ c' Hc'. apply (split_text_line s c' Hpos Hc').
  - apply split_text_line. exact Hpos.
Qed.
End SplitterFacts.

Section OverlapFacts.
Import Splitter.
Local Open Scope Z_scope.
Variables (chunk_size chunk_overlap : Z).

(** The chunks of [_merge_splits] are its windows, joined and stripped. *)
Lemma merge_loop_windows (separator : str) (splits cur : list str)
    (total : Z) :
  merge_loop chunk_size chunk_overlap separator splits cur total
  = flat_map (fun w => emit w separator)
      (merge_windows chunk_size chunk_overlap separator splits cur total).
Proof.
  revert cur total. induction splits as [|d splits IH]; intros cur total.
  - cbn. rewrite app_nil_r. reflexivity.
  - cbn [merge_loop merge_windows].
    destruct (_ >? chunk_size).
    + destruct (0 <? len cur).
      * destruct (pop_window _ _ _ _ _ _) as [cur' total'].
        rewrite flat_map_app, IH. cbn. rewrite app_nil_r. reflexivity.
      * cbn [app]. apply IH.
    + cbn [app]. apply IH.
Qed.



End OverlapFacts.



Example merge_windows_words :
  Splitter.merge_windows 10 3 []
    [py "aa"; py " bb"; py " cc"; py " dd"; py " ee"] [] 0
  = [ [py "aa"; py " bb"; py " cc"]; [py " cc"; py " dd"; py " ee"] ].
Proof. vm_compute. reflexivity. Qed.



(** ** The batch run *)


Section BatchFacts.
Variable env : Env.
Variable query : str.

Lemma first_occurrences_seen (seen l : list str) :
  (forall x, x ∈ l -> x ∈ seen) -> Pd.first_occurrences seen l = [].
Proof.
  induction l as [|x l IH]; intros H; cbn; [reflexivity|].
  rewrite bool_decide_eq_true_2 by (apply H; left).
  apply IH. intros y Hy. apply H. right. exact Hy.
Qed.

Lemma first_occurrences_app (cols seen rest : list str) :
  NoDup cols -> (forall x, x ∈ cols -> x ∉ seen) ->
  Pd.first_occurrences seen (cols ++ rest)
  = cols ++ Pd.first_occurrences (rev cols ++ seen) rest.
Proof.
  revert seen. induction cols as [|c cols IH]; intros seen Hnd Hdis; cbn.
  - reflexivity.
  - apply NoDup_cons in Hnd as [Hc Hnd].
    rewrite bool_decide_eq_false_2 by (apply Hdis; left).
    rewrite IH, <- app_assoc; [reflexivity|exact Hnd|].
    intros x Hx. rewrite not_elem_of_cons. split.
    + intros ->. contradiction.
    + apply Hdis. right. exact Hx.
Qed.

Lemma result_columns_NoDup : NoDup result_columns.
Proof. apply (bool_decide_unpack _). vm_compute. exact I. Qed.

Lemma reindex_result_row (a b c d e : option str) :
  map (fun label => Pd.lookup_label label result_columns [a; b; c; d; e])
      result_columns
  = [a; b; c; d; e].
Proof. vm_compute. reflexivity. Qed.

Lemma file_frames_columns (r : str * ExtractedInfo)
    (l : list (str * ExtractedInfo)) :
  Pd.first_occurrences [] (concat (map columns (map file_frame (r :: l))))
  = result_columns.
Proof.
  cbn [concat map columns file_frame].
  rewrite (first_occurrences_app result_columns []);
    [|exact result_columns_NoDup|intros x _ H; inversion H].
  rewrite first_occurrences_seen; [apply app_nil_r|].
  intros x Hx. rewrite app_nil_r, elem_of_rev_iff.
  apply list_elem_of_In, in_concat in Hx as (cols & Hcols & Hx).
  apply in_map_iff in Hcols as (df & <- & Hdf).
  apply in_map_iff in Hdf as (r' & <- & _). apply list_elem_of_In, Hx.
Qed.

Lemma file_frames_rows (l : list (str * ExtractedInfo)) :
  flat_map
    (fun df => map (fun row => map (fun label =>
                      Pd.lookup_label label (columns df) row) result_columns)
                   (rows df))
    (map file_frame l)
  = map (fun r => result_row (fst r) (snd r)) l.
Proof.
  induction l as [|r l IH]; cbn [map flat_map app]; [reflexivity|].
  rewrite IH. cbn [file_frame columns rows map app].
  unfold result_row at 1. rewrite reindex_result_row. reflexivity.
Qed.

(** The frames of the files, put together. *)
Lemma concat_file_frames (l : list (str * ExtractedInfo)) :
  l <> [] ->
  Pd.concat (map file_frame l)
  = Ok {| columns := result_columns;
          rows := map (fun r => result_row (fst r) (snd r)) l |}.
Proof.
  intros Hne. destruct l as [|r l]; [contradiction|].
  unfold Pd.concat. rewrite file_frames_columns, file_frames_rows.
  reflexivity.
Qed.

Lemma query_document_frame (v : Chroma) (w w' : World) (df : DataFrame) :
  query_document env v query w = (Ok df, w') ->
  exists info,
    Pd.insert df 0 (py "file_name")
    = fun file_name => Ok (file_frame (file_name, info)).
Proof.
  unfold query_document, bind, ret.
  destruct (rag_chain env v query w) as [[info|e] w1]; [|discriminate].
  intros H. injection H as <- _. exists info. reflexivity.
Qed.

Lemma process_pdf_frame (f : UploadedFile) (w w' : World) (df : DataFrame) :
  process_pdf env query f w = (Ok df, w') ->
  exists info, df = file_frame (name f, info).
Proof.
  unfold process_pdf, bind, lift.
  destruct (get_pdf_text env f w) as [[docs|e] w1]; [|discriminate].
  destruct (create_vectorstore_from_texts env docs (name f) w1)
    as [[v|e] w2]; [|discriminate].
  destruct (query_document env v query w2) as [[df'|e] w3] eqn:Hq;
    [|discriminate].
  apply query_document_frame in Hq as (info & Hq). rewrite Hq.
  intros H. injection H as <- _. exists info. reflexivity.
Qed.

Lemma process_pdf_stage_fails (f : UploadedFile) (w w' : World) (e : exn) :
  stage_fails env query f w e w' ->
  process_pdf env query f w = (Raise e, w').
Proof.
  unfold process_pdf, bind, lift.
  intros [H1|docs w1 H1 H2|docs w1 w2 v H1 H2 H3]; rewrite H1;
    [reflexivity|rewrite H2; reflexivity|rewrite H2, H3; reflexivity].
Qed.

Lemma process_loop_ok (files : list UploadedFile) (w w' : World)
    (dfs : list DataFrame) :
  loop_ok env query files w dfs w' ->
  forall results,
    process_loop env query files results w = (Ok (results ++ dfs), w').
Proof.
  induction 1 as [w|f files w w1 w2 df dfs Hf _ IH]; intros results; cbn.
  - unfold ret. rewrite app_nil_r. reflexivity.
  - unfold bind. rewrite Hf, IH, <- app_assoc. reflexivity.
Qed.

Lemma process_loop_raises (pre post : list UploadedFile) (f : UploadedFile)
    (w w1 w2 : World) (dfs : list DataFrame) (e : exn) :
  loop_ok env query pre w dfs w1 ->
  process_pdf env query f w1 = (Raise e, w2) ->
  forall results,
    process_loop env query (pre ++ f :: post) results w = (Raise e, w2).
Proof.
  induction 1 as [w|f' files w w1 w3 df dfs Hf _ IH]; intros Hraise results;
    cbn.
  - unfold bind. rewrite Hraise. reflexivity.
  - unfold bind. rewrite Hf. apply IH, Hraise.
Qed.

Lemma loop_ok_frames (files : list UploadedFile) (w w' : World)
    (dfs : list DataFrame) :
  loop_ok env query files w dfs w' ->
  exists infos,
    length infos = length files
    /\ dfs = map file_frame (zip (map name files) infos).
Proof.
  induction 1 as [w|f files w w1 w2 df dfs Hf _ (infos & Hlen & ->)].
  - exists []. split; reflexivity.
  - apply process_pdf_frame in Hf as (info & ->).
    exists (info :: infos). cbn. rewrite Hlen. split; reflexivity.
Qed.

End BatchFacts.


(** C8: when a stage raises for some file, after the files before it were
    processed, [process_multiple_pdfs] returns no table: that exception
    leaves the batch run, in the world the failing stage left. *)
Theorem process_multiple_pdfs_fail_fast (env : Env) (query : str)
    (pre post : list UploadedFile) (f : UploadedFile) (w w1 w2 : World)
    (dfs : list DataFrame) (e : exn) :
  loop_ok env query pre w dfs w1 ->
  stage_fails env query f w1 e w2 ->
  process_multiple_pdfs env (pre ++ f :: post) query w = (Raise e, w2).
Proof.
  intros Hok Hfail. apply process_pdf_stage_fails in Hfail.
  unfold process_multiple_pdfs, bind.
  rewrite (process_loop_raises env query pre post f w w1 w2 dfs e Hok Hfail).
  reflexivity.
Qed.

Section FailFastFacts.
Variable env : Env.
Variable query : str.

Lemma process_pdf_raises_inv (f : UploadedFile) (w w' : World) (e : exn) :
  process_pdf env query f w = (Raise e, w') ->
  stage_fails env query f w e w'.
Proof.
  unfold process_pdf, bind, lift.
  destruct (get_pdf_text env f w) as [[docs|e1] w1] eqn:H1.
  - destruct (create_vectorstore_from_texts env docs (name f) w1)
      as [[v|e2] w2] eqn:H2.
    + destruct (query_document env v query w2) as [[df|e3] w3] eqn:H3.
      * destruct (query_document_frame env query v w2 w3 df H3) as (info & Hi).
        rewrite Hi. discriminate.
      * intros H. injection H as <- <-.
        exact (query_fails env query f w e3 w3 docs w1 w2 v H1 H2 H3).
    + intros H. injection H as <- <-.
      exact (store_fails env query f w e2 w2 docs w1 H1 H2).
  - intros H. injection H as <- <-. exact (parse_fails env query f w e1 w1 H1).
Qed.

(** A batch either goes through, or has a first file one of whose stages
    raises. *)
Lemma loop_ok_or_stage_fails (files : list UploadedFile) (w : World) :
  (exists dfs w', loop_ok env query files w dfs w')
  \/ (exists pre f post dfs w1 e w2,
        files = pre ++ f :: post /\ loop_ok env query pre w dfs w1
        /\ stage_fails env query f w1 e w2).
Proof.
  revert w. induction files as [|f files IH]; intros w.
  - left. exists [], w. constructor.
  - destruct (process_pdf env query f w) as [[df|e] w1] eqn:Hf.
    + destruct (IH w1)
        as [(dfs & w' & Hok)
           |(pre & f' & post & dfs & w2 & e & w3 & -> & Hok & Hfail)].
      * left. exists (df :: dfs), w'.
        exact (loop_ok_cons _ _ _ _ _ _ _ _ _ Hf Hok).
      * right. exists (f :: pre), f', post, (df :: dfs), w2, e, w3.
        split; [reflexivity|]. split; [|exact Hfail].
        exact (loop_ok_cons _ _ _ _ _ _ _ _ _ Hf Hok).
    + right. exists [], f, files, [], w, e, w1.
      split; [reflexivity|]. split; [constructor|].
      apply process_pdf_raises_inv, Hf.
Qed.

(** A table is returned only when every file went through all stages. *)
Lemma process_multiple_pdfs_returns_inv (files : list UploadedFile)
    (w w' : World) (table : DataFrame) :
  process_multiple_pdfs env files query w = (Ok table, w') ->
  exists dfs, loop_ok env query files w dfs w'.
Proof.
  intros H.
  destruct (loop_ok_or_stage_fails files w)
    as [(dfs & w1 & Hok)
       |(pre & f & post & dfs & w1 & e & w2 & -> & Hok & Hfail)].
  - exists dfs. unfold process_multiple_pdfs, bind, lift, ret in H.
    rewrite (process_loop_ok env query _ _ _ _ Hok []) in H. cbn [app] in H.
    destruct (Pd.concat dfs); [|discriminate].
    injection H as _ <-. exact Hok.
  - apply process_pdf_stage_fails in Hfail.
    unfold process_multiple_pdfs, bind in H.
    rewrite (process_loop_raises env query pre post f w w1 w2 dfs e Hok Hfail)
      in H.
    discriminate.
Qed.
End FailFastFacts.

Section StageFacts.
Variable env : Env.

(** A failure of the parser is a failure of the parsing stage. *)
Lemma parser_raises (f : UploadedFile) (w : World) (data : bytes)
    (path : str) (e : exn) :
  read f = Ok data -> named_temporary_file env (fs w) = Ok path ->
  file_write env path data = Ok tt -> pdf_pages env data = Raise e ->
  fst (get_pdf_text env f w) = Raise e.
Proof.
  intros Hr Ht Hw Hp. rewrite (get_pdf_text_created env f w data path Hr Ht).
  rewrite Hw, Hp. reflexivity.
Qed.

(** A failure of the embedding model, or a rejection by the index, is a
    failure of [Chroma.from_documents]. *)
Lemma embedding_raises (docs : list Document) (cname path : str)
    (ids : list str) (w : World) (e : exn) :
  index_validate env cname ids = Ok tt ->
  rmap (embed env) (map page_content docs) = Raise e ->
  Chroma_from_documents env docs cname (embed env) ids path w = (Raise e, w).
Proof.
  intros Hv He. rewrite Chroma_from_documents_run, Hv, He. reflexivity.
Qed.

Lemma index_raises (docs : list Document) (cname path : str)
    (ids : list str) (w : World) (e : exn) :
  index_validate env cname ids = Raise e ->
  Chroma_from_documents env docs cname (embed env) ids path w = (Raise e, w).
Proof.
  intros Hv. rewrite Chroma_from_documents_run, Hv. reflexivity.
Qed.

(** A failure of the retrieval or of the model is a failure of
    [query_document]. *)
Lemma retrieval_raises (v : Chroma) (query : str) (w : World) (e : exn) :
  similarity_search env
    (default ∅ (db w !! (persist_directory v, collection_name v))) query
  = Raise e ->
  query_document env v query w = (Raise e, w).
Proof.
  intros H. unfold query_document, rag_chain, retriever, bind. rewrite H.
  reflexivity.
Qed.

Lemma model_raises (v : Chroma) (query : str) (w : World)
    (docs : list Document) (e : exn) :
  similarity_search env
    (default ∅ (db w !! (persist_directory v, collection_name v))) query
  = Ok docs ->
  llm_structured env (PROMPT_TEMPLATE (format_docs docs) query) = Raise e ->
  query_document env v query w = (Raise e, w).
Proof.
  intros H1 H2. unfold query_document, rag_chain, retriever, bind, lift.
  rewrite H1, H2. reflexivity.
Qed.
End StageFacts.


Lemma demo_run1 :
  Demo.run1 = (Ok (Demo.frame_of (fst Demo.run1)), snd Demo.run1).
Proof. vm_compute. reflexivity. Qed.




(** Two uploads whose cleaned names coincide: the second row is answered
    from the collection both files share, so it reports the first
    invoice's total. *)
Example process_multiple_pdfs_demo :
  fst (process_multiple_pdfs Demo.env [Demo.invoice1; Demo.invoice2]
         Demo.query Demo.nothing)
  = Ok {| columns := result_columns;
          rows := [ [Some (py "Invoice (1).pdf"); Some (py "unknown");
                     Some (py "unknown"); Some (py "unknown");
                     Some (py "$42.00")];
                    [Some (py "Invoice (2).pdf"); Some (py "unknown");
                     Some (py "unknown"); Some (py "unknown");
                     Some (py "$42.00")] ] |}.
Proof. vm_compute. reflexivity. Qed.

Lemma demo_run_corrupt :
  Demo.run_corrupt
  = (Raise (LibraryError "pypdf" "Cannot read an empty file"),
     snd Demo.run_corrupt).
Proof. vm_compute. reflexivity. Qed.

Lemma process_multiple_pdfs_fail_fast_witness :
  loop_ok Demo.env Demo.query [Demo.invoice1] Demo.nothing
    [Demo.frame_of (fst Demo.run1)] (snd Demo.run1)
  /\ stage_fails Demo.env Demo.query Demo.corrupt (snd Demo.run1)
       (LibraryError "pypdf" "Cannot read an empty file")
       (snd Demo.run_corrupt)
  /\ process_multiple_pdfs Demo.env
       ([Demo.invoice1] ++ Demo.corrupt :: [Demo.invoice2]) Demo.query
       Demo.nothing
     = (Raise (LibraryError "pypdf" "Cannot read an empty file"),
        snd Demo.run_corrupt).
Proof.
  assert (Hok : loop_ok Demo.env Demo.query [Demo.invoice1] Demo.nothing
                  [Demo.frame_of (fst Demo.run1)] (snd Demo.run1)).
  { apply (loop_ok_cons _ _ _ _ _ (snd Demo.run1)); [exact demo_run1|].
    constructor. }
  assert (Hfail : stage_fails Demo.env Demo.query Demo.corrupt (snd Demo.run1)
                    (LibraryError "pypdf" "Cannot read an empty file")
                    (snd Demo.run_corrupt)).
  { apply parse_fails. exact demo_run_corrupt. }
  split; [exact Hok|]. split; [exact Hfail|].
  exact (process_multiple_pdfs_fail_fast Demo.env Demo.query [Demo.invoice1]
           [Demo.invoice2] Demo.corrupt Demo.nothing _ _ _ _ Hok Hfail).
Defined.

(** * Further properties *)

(** ** What [clean_filename] removes *)

Section CleanFacts.

Lemma isspace_cases (c : N) :
  isspace c = true ->
  In c [9; 10; 11; 12; 13; 28; 29; 30; 31; 32; 133; 160; 5760; 8192; 8193;
        8194; 8195; 8196; 8197; 8198; 8199; 8200; 8201; 8202; 8232; 8233;
        8239; 8287; 12288].
Proof.
  unfold isspace.
  rewrite !orb_true_iff, !andb_true_iff, !N.leb_le, !N.eqb_eq. cbn [In].
  lia.
Qed.

Lemma isspace_not_decimal (c : N) : isspace c = true -> isdecimal c = false.
Proof.
  intros H. apply isspace_cases in H. cbn [In] in H.
  repeat (destruct H as [<-|H]; [vm_compute; reflexivity|]). contradiction.
Qed.

Lemma isspace_not_paren (c : N) : isspace c = true -> c <> 40 /\ c <> 41.
Proof.
  intros H. apply isspace_cases in H. cbn [In] in H. split; lia.
Qed.

Lemma decimal_run_le (s : str) : (decimal_run s <= length s)%nat.
Proof.
  induction s as [|c s IH]; cbn [decimal_run length]; [lia|].
  destruct (isdecimal c); cbn [length]; lia.
Qed.

Lemma decimal_run_digits (digits rest : str) :
  Forall (fun d => isdecimal d = true) digits ->
  decimal_run (digits ++ 41 :: rest) = length digits.
Proof.
  induction 1 as [|d digits Hd _ IH]; cbn [app decimal_run length].
  - reflexivity.
  - rewrite Hd, IH. reflexivity.
Qed.

(** A run of digits read up to a cut before whitespace is the run of the
    text before the cut. *)
Lemma decimal_run_app (a b : str) :
  starts_blank b -> decimal_run (a ++ b) = decimal_run a.
Proof.
  intros Hb. induction a as [|c a IH]; cbn [app decimal_run].
  - destruct b as [|c b]; [reflexivity|]. cbn [starts_blank] in Hb.
    cbn [decimal_run]. rewrite (isspace_not_decimal c Hb). reflexivity.
  - rewrite IH. reflexivity.
Qed.

(** The match, with the tests on the parentheses written out. *)
Lemma match_numbered_eq (s : str) :
  match_numbered s =
    match s with
    | c :: p :: rest =>
        if (p =? 40) && isspace c then
          match decimal_run rest with
          | O => None
          | n =>
              match drop n rest with
              | x :: _ => if x =? 41 then Some (n + 3)%nat else None
              | [] => None
              end
          end
        else None
    | _ => None
    end.
Proof.
  destruct s as [|c [|p rest]]; [reflexivity|reflexivity|].
  destruct (N.eqb_spec p 40) as [->|Hp].
  - cbn [match_numbered andb]. destruct (isspace c); [|reflexivity].
    destruct (decimal_run rest) as [|n]; [reflexivity|].
    destruct (drop (S n) rest) as [|x t]; [reflexivity|].
    destruct (N.eqb_spec x 41) as [->|Hx]; [reflexivity|].
    destruct x as [|x]; [reflexivity|].
    do 6 (try (destruct x as [x|x|]; try reflexivity)).
    exfalso. apply Hx. reflexivity.
  - cbn [andb]. destruct p as [|p]; [reflexivity|].
    do 6 (try (destruct p as [p|p|]; try reflexivity)).
    exfalso. apply Hp. reflexivity.
Qed.

Lemma match_numbered_app (a b : str) :
  starts_blank b -> a <> [] -> match_numbered (a ++ b) = match_numbered a.
Proof.
  intros Hb Ha. rewrite !match_numbered_eq.
  destruct a as [|c [|p rest]]; [contradiction| |].
  - cbn [app]. destruct b as [|c' b]; [reflexivity|]. cbn [starts_blank] in Hb.
    destruct (isspace_not_paren c' Hb) as [H40 _].
    apply N.eqb_neq in H40. rewrite H40. reflexivity.
  - cbn [app]. destruct ((p =? 40) && isspace c); [|reflexivity].
    rewrite decimal_run_app by exact Hb.
    pose proof (decimal_run_le rest) as Hle.
    destruct (decimal_run rest) as [|n] eqn:E; [reflexivity|].
    rewrite drop_app.
    destruct (drop (S n) rest) as [|x t] eqn:E'; [|reflexivity].
    cbn [app].
    assert (length (drop (S n) rest) = 0%nat) as Hl
      by (rewrite E'; reflexivity).
    rewrite length_drop in Hl.
    replace (S n - length rest)%nat with 0%nat by lia. rewrite drop_0.
    destruct b as [|c' b]; [reflexivity|]. cbn [starts_blank] in Hb.
    destruct (isspace_not_paren c' Hb) as [_ H41].
    apply N.eqb_neq in H41. rewrite H41. reflexivity.
Qed.

Lemma match_numbered_le (s : str) (n : nat) :
  match_numbered s = Some n -> (3 <= n <= length s)%nat.
Proof.
  rewrite match_numbered_eq. destruct s as [|c [|p rest]]; try discriminate.
  destruct ((p =? 40) && isspace c); [|discriminate].
  destruct (decimal_run rest) as [|k] eqn:E; [discriminate|].
  cbv beta iota zeta.
  destruct (drop (S k) rest) as [|x t] eqn:E'; [discriminate|].
  destruct (x =? 41); [|discriminate]. intros H. injection H as <-.
  assert (length (drop (S k) rest) = S (length t)) as Hl
    by (rewrite E'; reflexivity).
  rewrite length_drop in Hl. cbn [length]. lia.
Qed.

Lemma sub_numbered_cons (c : N) (s : str) :
  sub_numbered 0 (c :: s)
  = match match_numbered (c :: s) with
    | Some n => sub_numbered (n - 1) s
    | None => c :: sub_numbered 0 s
    end.
Proof. reflexivity. Qed.

(** A cut before whitespace separates the matches: the text before it and
    the text after it are cleaned one after the other. *)
Lemma sub_numbered_app (a b : str) (skip : nat) :
  starts_blank b -> (skip <= length a)%nat ->
  sub_numbered skip (a ++ b) = sub_numbered skip a ++ sub_numbered 0 b.
Proof.
  intros Hb. revert skip. induction a as [|c a IH]; intros skip Hskip.
  - cbn [length] in Hskip. replace skip with 0%nat by lia. reflexivity.
  - destruct skip as [|k]; cbn [app].
    + rewrite !sub_numbered_cons.
      change (c :: a ++ b) with ((c :: a) ++ b).
      rewrite match_numbered_app by (exact Hb || discriminate).
      destruct (match_numbered (c :: a)) as [n|] eqn:E.
      * apply match_numbered_le in E. cbn [length] in E. apply IH. lia.
      * rewrite IH by lia. reflexivity.
    + cbn [sub_numbered]. apply IH. cbn [length] in Hskip. lia.
Qed.

Lemma sub_numbered_skip (a b : str) :
  sub_numbered (length a) (a ++ b) = sub_numbered 0 b.
Proof.
  induction a as [|c a IH]; [reflexivity|]. cbn [length app sub_numbered].
  exact IH.
Qed.

Lemma match_numbered_marker (c : N) (digits rest : str) :
  isspace c = true -> digits <> [] ->
  Forall (fun d => isdecimal d = true) digits ->
  match_numbered (c :: 40 :: digits ++ 41 :: rest)
  = Some (length digits + 3)%nat.
Proof.
  intros Hc Hne Hd. rewrite match_numbered_eq. rewrite Hc. cbn [N.eqb andb].
  change (40 =? 40) with true. cbn [andb].
  rewrite decimal_run_digits by exact Hd.
  destruct digits as [|d digits]; [contradiction|].
  cbn [length]. rewrite drop_app_length'. 2: reflexivity. reflexivity.
Qed.

Lemma sub_numbered_marker (c : N) (digits rest : str) :
  isspace c = true -> digits <> [] ->
  Forall (fun d => isdecimal d = true) digits ->
  sub_numbered 0 (numbered c digits ++ rest) = sub_numbered 0 rest.
Proof.
  intros Hc Hne Hd. unfold numbered.
  replace ((c :: 40 :: digits ++ [41]) ++ rest)
    with (c :: 40 :: digits ++ 41 :: rest)
    by (cbn [app]; rewrite <- app_assoc; reflexivity).
  rewrite sub_numbered_cons, (match_numbered_marker c digits rest Hc Hne Hd).
  replace (length digits + 3 - 1)%nat with (length (40 :: digits ++ [41]))
    by (cbn [length]; rewrite length_app; cbn [length]; lia).
  change (40 :: digits ++ 41 :: rest) with ((40 :: digits) ++ [41] ++ rest).
  rewrite app_assoc. apply sub_numbered_skip.
Qed.

End CleanFacts.

(** X1: a copy marker is removed wherever it stands, and what is before it
    and what is after it are cleaned independently; two copies of a file
    that differ in the number only have the same cleaned name. *)
Theorem clean_filename_numbered_copies (stem ext digits1 digits2 : str)
    (c1 c2 : N) :
  isspace c1 = true -> isspace c2 = true ->
  digits1 <> [] -> digits2 <> [] ->
  Forall (fun d => isdecimal d = true) digits1 ->
  Forall (fun d => isdecimal d = true) digits2 ->
  clean_filename (stem ++ numbered c1 digits1 ++ ext)
  = clean_filename stem ++ clean_filename ext
  /\ clean_filename (stem ++ numbered c1 digits1 ++ ext)
     = clean_filename (stem ++ numbered c2 digits2 ++ ext).
Proof.
  intros Hc1 Hc2 Hn1 Hn2 Hd1 Hd2.
  assert (H : forall c digits, isspace c = true -> digits <> [] ->
            Forall (fun d => isdecimal d = true) digits ->
            clean_filename (stem ++ numbered c digits ++ ext)
            = clean_filename stem ++ clean_filename ext).
  { intros c digits Hc Hn Hd. unfold clean_filename.
    rewrite sub_numbered_app; [|exact Hc|lia].
    rewrite sub_numbered_marker by assumption. reflexivity. }
  split; [apply H; assumption|]. rewrite !H by assumption. reflexivity.
Qed.

Lemma clean_filename_numbered_copies_witness :
  clean_filename (py "Invoice" ++ numbered SPACE (py "1") ++ py ".pdf")
  = clean_filename (py "Invoice") ++ clean_filename (py ".pdf")
  /\ clean_filename (py "Invoice" ++ numbered SPACE (py "1") ++ py ".pdf")
     = clean_filename (py "Invoice" ++ numbered 160 (py "27") ++ py ".pdf").
Proof.
  apply (clean_filename_numbered_copies (py "Invoice") (py ".pdf") (py "1")
           (py "27") SPACE 160);
    try reflexivity; try discriminate;
    repeat constructor.
Defined.

Section CleanMore.

Lemma sub_numbered_sublist (skip : nat) (s : str) :
  sublist (sub_numbered skip s) s.
Proof.
  revert skip. induction s as [|c s IH]; intros skip.
  - destruct skip; constructor.
  - destruct skip as [|k].
    + rewrite sub_numbered_cons. destruct (match_numbered (c :: s)).
      * apply sublist_cons, IH.
      * apply sublist_skip, IH.
    + cbn [sub_numbered]. apply sublist_cons, IH.
Qed.

Lemma unmarked_tail (c : N) (s : str) : unmarked (c :: s) -> unmarked s.
Proof. intros H pre post ->. apply (H (c :: pre)). reflexivity. Qed.

Lemma unmarked_cons (c : N) (s : str) :
  match_numbered (c :: s) = None -> unmarked s -> unmarked (c :: s).
Proof.
  intros Hc Hs [|x pre] post E.
  - cbn [app] in E. subst post. exact Hc.
  - injection E as _ E. apply (Hs pre). exact E.
Qed.

Lemma sub_numbered_unmarked (s : str) : unmarked s -> sub_numbered 0 s = s.
Proof.
  induction s as [|c s IH]; intros H; [reflexivity|].
  rewrite sub_numbered_cons, (H [] (c :: s) eq_refl), IH; [reflexivity|].
  exact (unmarked_tail c s H).
Qed.

Lemma sub_numbered_shorter (s pre post : str) (n : nat) :
  s = pre ++ post -> match_numbered post = Some n ->
  (length (sub_numbered 0 s) < length s)%nat.
Proof.
  revert s. induction pre as [|c pre IH]; intros s -> Hm.
  - cbn [app]. destruct post as [|c post]; [discriminate Hm|].
    rewrite sub_numbered_cons, Hm.
    pose proof (sublist_length _ _ (sub_numbered_sublist (n - 1) post)).
    cbn [length]. lia.
  - cbn [app]. rewrite sub_numbered_cons.
    pose proof (IH _ eq_refl Hm) as Hlt.
    destruct (match_numbered (c :: pre ++ post)) as [k|].
    + pose proof (sublist_length _ _
                    (sub_numbered_sublist (k - 1) (pre ++ post))).
      cbn [length]. lia.
    + cbn [length]. lia.
Qed.

Lemma match_numbered_not_blank (c : N) (s : str) :
  isspace c = false -> match_numbered (c :: s) = None.
Proof.
  intros Hc. rewrite match_numbered_eq. destruct s as [|p rest]; [reflexivity|].
  rewrite Hc, andb_false_r. reflexivity.
Qed.

Lemma unmarked_no_blank (s : str) :
  Forall (fun c => isspace c = false) s -> unmarked s.
Proof.
  induction 1 as [|c s Hc _ IH].
  - intros pre post E. symmetry in E. apply app_eq_nil in E as [_ ->].
    reflexivity.
  - apply unmarked_cons; [apply match_numbered_not_blank, Hc|exact IH].
Qed.

Lemma decimal_not_blank (d : N) : isdecimal d = true -> isspace d = false.
Proof.
  intros Hd. destruct (isspace d) eqn:E; [|reflexivity].
  apply isspace_not_decimal in E. congruence.
Qed.

Lemma digits_no_blank (digits : str) :
  Forall (fun d => isdecimal d = true) digits ->
  Forall (fun c => isspace c = false) digits.
Proof.
  intros H. eapply Forall_impl; [exact H|exact decimal_not_blank].
Qed.

Lemma decimal_run_all (digits : str) :
  Forall (fun d => isdecimal d = true) digits ->
  decimal_run digits = length digits.
Proof.
  induction 1 as [|d digits Hd _ IH]; cbn [decimal_run length];
    [reflexivity|]. rewrite Hd, IH. reflexivity.
Qed.

(** An opening parenthesis and digits that no parenthesis closes. *)
Lemma unmarked_unclosed (c : N) (digits : str) :
  Forall (fun d => isdecimal d = true) digits ->
  unmarked (c :: 40 :: digits).
Proof.
  intros Hd. apply unmarked_cons.
  - rewrite match_numbered_eq.
    destruct ((40 =? 40) && isspace c); [|reflexivity].
    rewrite (decimal_run_all digits Hd).
    destruct digits as [|d digits]; [reflexivity|].
    cbn [length]. cbv beta iota zeta. cbn [drop]. rewrite drop_all.
    reflexivity.
  - apply unmarked_no_blank. constructor; [reflexivity|].
    apply digits_no_blank, Hd.
Qed.

End CleanMore.

(** X2: [clean_filename] only removes code points, and it returns the name
    as it is exactly when no copy marker occurs in it. *)
Theorem clean_filename_only_removes (filename : str) :
  sublist (clean_filename filename) filename
  /\ (clean_filename filename = filename <-> unmarked filename).
Proof.
  unfold clean_filename. split; [apply sub_numbered_sublist|]. split.
  - intros Heq pre post E. destruct (match_numbered post) as [n|] eqn:Hm;
      [|reflexivity].
    pose proof (sub_numbered_shorter filename pre post n E Hm) as Hlt.
    rewrite Heq in Hlt. lia.
  - apply sub_numbered_unmarked.
Qed.

(** X3: the cleaned name can hold a copy marker again: a marker inside the
    digits of another one is removed and closes the outer one, which a
    second cleaning removes. *)
Theorem clean_filename_not_idempotent (c1 c2 : N) (d1 d2 d3 : str) :
  isspace c1 = true -> isspace c2 = true ->
  Forall (fun d => isdecimal d = true) d1 ->
  Forall (fun d => isdecimal d = true) d2 ->
  Forall (fun d => isdecimal d = true) d3 ->
  d2 <> [] -> d1 ++ d3 <> [] ->
  let filename := c1 :: 40 :: d1 ++ numbered c2 d2 ++ d3 ++ [41] in
  clean_filename filename = numbered c1 (d1 ++ d3)
  /\ clean_filename (clean_filename filename) = []
  /\ clean_filename (clean_filename filename) <> clean_filename filename.
Proof.
  intros Hc1 Hc2 Hd1 Hd2 Hd3 Hn2 Hn13 filename.
  assert (H1 : clean_filename filename = numbered c1 (d1 ++ d3)).
  { subst filename. unfold clean_filename.
    change (c1 :: 40 :: d1 ++ numbered c2 d2 ++ d3 ++ [41])
      with ((c1 :: 40 :: d1) ++ numbered c2 d2 ++ d3 ++ [41]).
    rewrite sub_numbered_app; [|exact Hc2|lia].
    rewrite sub_numbered_marker by assumption.
    rewrite (sub_numbered_unmarked (c1 :: 40 :: d1))
      by (apply unmarked_unclosed, Hd1).
    rewrite (sub_numbered_unmarked (d3 ++ [41])).
    - unfold numbered. cbn [app]. rewrite <- app_assoc. reflexivity.
    - apply unmarked_no_blank, Forall_app. split; [apply digits_no_blank, Hd3|].
      constructor; [reflexivity|constructor]. }
  assert (H2 : clean_filename (numbered c1 (d1 ++ d3)) = []).
  { unfold clean_filename.
    rewrite <- (app_nil_r (numbered c1 (d1 ++ d3))).
    rewrite sub_numbered_marker; [reflexivity|exact Hc1|exact Hn13|].
    apply Forall_app. split; assumption. }
  rewrite H1, H2. split; [reflexivity|]. split; [reflexivity|].
  discriminate.
Qed.

Lemma clean_filename_not_idempotent_witness :
  clean_filename (py " (1 (2)3)") = py " (13)"
  /\ clean_filename (clean_filename (py " (1 (2)3)")) = []
  /\ clean_filename (clean_filename (py " (1 (2)3)"))
     <> clean_filename (py " (1 (2)3)").
Proof.
  apply (clean_filename_not_idempotent SPACE SPACE (py "1") (py "2") (py "3"));
    try reflexivity; try discriminate; repeat constructor.
Defined.

(** ** The text of the chunks of [split_document] *)

Section ChunkTextFacts.
Import Splitter.
Local Open Scope Z_scope.
Variables (chunk_size chunk_overlap : Z).

Lemma occurs_in_refl (s : str) : occurs_in s s.
Proof. exists [], []. rewrite app_nil_r. reflexivity. Qed.

Lemma occurs_in_trans (a b c : str) :
  occurs_in a b -> occurs_in b c -> occurs_in a c.
Proof.
  intros (p1 & q1 & ->) (p2 & q2 & ->). exists (p2 ++ p1), (q1 ++ q2).
  rewrite <- !app_assoc. reflexivity.
Qed.

Lemma occurs_in_app_l (a b c : str) : occurs_in a b -> occurs_in a (b ++ c).
Proof.
  intros (p & q & ->). exists p, (q ++ c). rewrite <- !app_assoc. reflexivity.
Qed.

Lemma occurs_in_app_r (a b c : str) : occurs_in a c -> occurs_in a (b ++ c).
Proof.
  intros (p & q & ->). exists (b ++ p), q. rewrite <- !app_assoc. reflexivity.
Qed.

Lemma occurs_in_concat_run (a w b : list str) :
  occurs_in (concat w) (concat (a ++ w ++ b)).
Proof.
  exists (concat a), (concat b). rewrite !concat_app. reflexivity.
Qed.

Lemma occurs_in_concat (p : str) (l : list str) :
  p ∈ l -> occurs_in p (concat l).
Proof.
  intros H. apply list_elem_of_split in H as (a & b & ->).
  exists (concat a), (concat b). rewrite concat_app. reflexivity.
Qed.

Lemma lstrip_suffix (s : str) : exists pre, s = pre ++ lstrip s.
Proof.
  induction s as [|c s (pre & IH)]; cbn [lstrip].
  - exists []. reflexivity.
  - destruct (isspace c).
    + exists (c :: pre). cbn [app]. rewrite <- IH. reflexivity.
    + exists []. reflexivity.
Qed.

Lemma strip_occurs_in (s : str) : occurs_in (strip s) s.
Proof.
  unfold strip, rstrip.
  destruct (lstrip_suffix s) as (pre & Hs).
  destruct (lstrip_suffix (rev (lstrip s))) as (post & Hr).
  exists pre, (rev post). rewrite Hs at 1. f_equal.
  rewrite <- (rev_involutive (lstrip s)), Hr at 1.
  rewrite rev_app_distr. reflexivity.
Qed.

(** A word inside a text is inside the stripped text. *)
Lemma lstrip_keeps_word (word pre post : str) :
  is_word word ->
  exists pre', lstrip (pre ++ word ++ post) = pre' ++ word ++ post.
Proof.
  intros [Hne Hw]. induction pre as [|c pre (pre' & IH)]; cbn [app lstrip].
  - destruct word as [|x word]; [contradiction|].
    apply Forall_cons in Hw as [Hx _]. cbn [app lstrip]. rewrite Hx.
    exists []. reflexivity.
  - destruct (isspace c).
    + exists pre'. exact IH.
    + exists (c :: pre). reflexivity.
Qed.

Lemma is_word_rev (word : str) : is_word word -> is_word (rev word).
Proof.
  intros [Hne Hw]. split.
  - intros H. apply Hne. rewrite <- (rev_involutive word), H. reflexivity.
  - apply Forall_forall. intros c Hc. rewrite Forall_forall in Hw.
    apply Hw. apply elem_of_rev_iff. exact Hc.
Qed.

Lemma strip_keeps_word (word s : str) :
  is_word word -> occurs_in word s -> occurs_in word (strip s).
Proof.
  intros Hw (pre & post & ->). unfold strip, rstrip.
  destruct (lstrip_keeps_word word pre post Hw) as (pre' & ->).
  rewrite !rev_app_distr, <- !app_assoc.
  destruct (lstrip_keeps_word (rev word) (rev post) (rev pre')
              (is_word_rev word Hw)) as (post' & ->).
  rewrite !rev_app_distr, !rev_involutive, <- !app_assoc.
  exists pre', (rev post'). reflexivity.
Qed.

Lemma startswith_true (text sep : str) :
  startswith text sep = true -> text = sep ++ drop (length sep) text.
Proof.
  revert text. induction sep as [|a sep IH]; intros text.
  - intros _. rewrite drop_0. reflexivity.
  - destruct text as [|b text]; cbn [startswith]; [discriminate|].
    intros H. apply andb_true_iff in H as [Hab H].
    apply N.eqb_eq in Hab. subst b. cbn [length drop app].
    rewrite <- (IH text H). reflexivity.
Qed.

(** The pieces of [re.split], with the separator put back in front of
    all but the first, are the text. *)
Lemma re_split_concat (sep text : str) :
  sep <> [] ->
  forall (skip : nat) (cur : str),
  exists first others,
    re_split sep skip text cur = first :: others
    /\ rev cur ++ drop skip text
       = first ++ concat (map (app sep) others).
Proof.
  intros Hsep. induction text as [|c text IH]; intros skip cur.
  - exists (rev cur), []. split; [destruct skip; reflexivity|].
    rewrite drop_nil. reflexivity.
  - destruct skip as [|k]; cbn [re_split].
    + destruct (startswith (c :: text) sep) eqn:E.
      * destruct (IH (length sep - 1)%nat []) as (f & o & Hrun & Hcat).
        exists (rev cur), (f :: o). rewrite Hrun. split; [reflexivity|].
        cbn [map concat]. rewrite <- app_assoc, <- Hcat. f_equal.
        apply startswith_true in E. rewrite drop_0. rewrite E at 1.
        destruct sep as [|x sep]; [contradiction|].
        cbn [length drop rev app Nat.sub]. rewrite Nat.sub_0_r. reflexivity.
      * destruct (IH 0%nat (c :: cur)) as (f & o & Hrun & Hcat).
        exists f, o. split; [exact Hrun|]. rewrite <- Hcat.
        rewrite !drop_0. cbn [rev]. rewrite <- app_assoc. reflexivity.
    + destruct (IH k cur) as (f & o & Hrun & Hcat).
      exists f, o. split; [exact Hrun|]. exact Hcat.
Qed.

Lemma concat_filter_nonempty (l : list str) :
  concat (List.filter nonempty l) = concat l.
Proof.
  induction l as [|[|x p] l IH]; cbn [List.filter nonempty concat app].
  - reflexivity.
  - exact IH.
  - rewrite IH. reflexivity.
Qed.

Lemma concat_singletons (text : str) :
  concat (map (fun c => [c]) text) = text.
Proof.
  induction text as [|c text IH]; cbn; [reflexivity|]. rewrite IH.
  reflexivity.
Qed.

(** The pieces of a text are the text, cut. *)
Lemma split_regex_concat (text sep : str) :
  concat (split_text_with_regex text sep) = text.
Proof.
  unfold split_text_with_regex. rewrite concat_filter_nonempty.
  destruct sep as [|x sep]; [apply concat_singletons|].
  destruct (re_split_concat (x :: sep) text ltac:(discriminate) 0%nat [])
    as (f & o & -> & Hcat).
  rewrite drop_0 in Hcat. cbn [rev] in Hcat. cbn [concat]. symmetry. exact Hcat.
Qed.

Lemma filter_nonempty_Forall (l : list str) :
  Forall (fun p => p <> []) (List.filter nonempty l).
Proof.
  apply Forall_forall. intros p Hp.
  apply list_elem_of_In, filter_In in Hp as [_ Hp]. intros ->. discriminate.
Qed.

Lemma split_regex_nonempty (text sep : str) :
  Forall (fun p => p <> []) (split_text_with_regex text sep).
Proof. apply filter_nonempty_Forall. Qed.

Lemma Forall_filter_keep {A} (P : A -> Prop) (f : A -> bool) (l : list A) :
  Forall P l -> Forall P (List.filter f l).
Proof.
  intros H. apply Forall_forall. intros x Hx.
  apply list_elem_of_In, filter_In in Hx as [Hx _].
  rewrite Forall_forall in H. apply H, list_elem_of_In, Hx.
Qed.

(** Every piece but the first starts with the separator. *)
Lemma split_regex_heads (text : str) (x : N) (sep : str) :
  Forall (fun p => exists r, p = x :: r)
         (tl (split_text_with_regex text (x :: sep))).
Proof.
  unfold split_text_with_regex.
  destruct (re_split (x :: sep) 0 text []) as [|first others]; [constructor|].
  assert (H : Forall (fun p => exists r, p = x :: r)
                (List.filter nonempty (map (app (x :: sep)) others))).
  { apply Forall_filter_keep, Forall_forall. intros p Hp.
    apply list_elem_of_In, in_map_iff in Hp as (q & <- & _).
    exists (sep ++ q). reflexivity. }
  cbn [List.filter]. destruct (nonempty first); cbn [tl]; [exact H|].
  destruct (List.filter nonempty (map (app (x :: sep)) others)) as [|p l];
    [constructor|].
  apply Forall_cons in H as [_ H]. exact H.
Qed.

(** A word in which the separator cannot start lies inside one of the
    pieces. *)
Lemma word_in_piece (x : N) (word : str) (pieces : list str) :
  word <> [] -> x ∉ word ->
  Forall (fun p => exists r, p = x :: r) (tl pieces) ->
  occurs_in word (concat pieces) ->
  exists p, p ∈ pieces /\ occurs_in word p.
Proof.
  intros Hne Hx. induction pieces as [|p pieces IH]; intros Hheads Hsub.
  - destruct Hsub as (pre & post & H). cbn in H. symmetry in H.
    apply app_eq_nil in H as [_ H]. apply app_eq_nil in H as [H _].
    contradiction.
  - destruct Hsub as (pre & post & H). cbn [concat tl] in *.
    apply app_eq_app in H as (l & [[Hp Hrest]|[Hpre Hrest]]).
    + (* the word starts inside the piece *)
      apply app_eq_app in Hrest as (m & [[Hword Hc]|[Hl Hpost]]).
      * (* the piece ends inside the word or at its end *)
        destruct m as [|y m].
        -- rewrite app_nil_r in Hword. subst. exists (pre ++ l).
           split; [left|]. exists pre, []. rewrite app_nil_r. reflexivity.
        -- exfalso. destruct pieces as [|q pieces]; [discriminate Hc|].
           apply Forall_cons in Hheads as [(r & ->) _].
           cbn in Hc. injection Hc as Hy _. subst y. apply Hx.
           rewrite Hword. apply elem_of_app. right. left.
      * exists p. split; [left|]. exists pre, m. rewrite Hp, Hl.
        reflexivity.
    + (* the word starts after the piece *)
      destruct IH as (q & Hq & Hsub).
      * destruct pieces as [|q pieces]; [constructor|].
        apply Forall_cons in Hheads as [_ Hheads]. exact Hheads.
      * exists l, post. exact Hrest.
      * exists q. split; [right; exact Hq|exact Hsub].
Qed.

Lemma pop_window_suffix (separator_len _len : Z) (cur : list str)
    (total : Z) :
  exists dropped,
    cur = dropped
          ++ fst (pop_window chunk_size chunk_overlap separator_len _len cur
                    total).
Proof.
  revert total. induction cur as [|c cur IH]; intros total; cbn [pop_window].
  - exists []. reflexivity.
  - destruct (_ || _).
    + destruct (IH (total - (len c
                             + sep_if (1 <? len (c :: cur)) separator_len)))
        as (dropped & Hd).
      exists (c :: dropped). cbn [app]. rewrite <- Hd. reflexivity.
    + exists []. reflexivity.
Qed.

(** Every window is a run of consecutive pieces. *)
Lemma merge_windows_runs (separator : str) (splits cur : list str)
    (total : Z) (w : list str) :
  w ∈ merge_windows chunk_size chunk_overlap separator splits cur total ->
  exists a b, cur ++ splits = a ++ w ++ b.
Proof.
  revert cur total. induction splits as [|d splits IH]; intros cur total.
  - cbn [merge_windows]. intros H. apply list_elem_of_singleton in H.
    subst w. exists [], []. rewrite !app_nil_r. reflexivity.
  - cbn [merge_windows].
    destruct (_ >? chunk_size).
    + destruct (0 <? len cur).
      * destruct (pop_window_suffix (len separator) (len d) cur total)
          as (dropped & Hd).
        destruct (pop_window _ _ _ _ _ _) as [cur' total'].
        cbn [fst] in Hd. rewrite elem_of_app. intros [H|H].
        -- apply list_elem_of_singleton in H. subst w.
           exists [], (d :: splits). reflexivity.
        -- apply IH in H as (a & b & H). exists (dropped ++ a), b.
           rewrite Hd, <- !app_assoc. f_equal.
           rewrite <- app_assoc in H. exact H.
      * cbn [app]. intros H. apply IH in H as (a & b & H).
        exists a, b. rewrite <- app_assoc in H. exact H.
    + cbn [app]. intros H. apply IH in H as (a & b & H).
      exists a, b. rewrite <- app_assoc in H. exact H.
Qed.

(** Every piece is in a window. *)
Lemma merge_windows_cover (separator : str) (splits cur : list str)
    (total : Z) (p : str) :
  p ∈ cur ++ splits ->
  exists w,
    w ∈ merge_windows chunk_size chunk_overlap separator splits cur total
    /\ p ∈ w.
Proof.
  revert cur total. induction splits as [|d splits IH]; intros cur total.
  - rewrite app_nil_r. intros H. exists cur. split; [left|exact H].
  - cbn [merge_windows]. intros Hp.
    assert (Hnext : forall cur' total',
              p ∈ (cur' ++ [d]) ++ splits ->
              exists w,
                w ∈ merge_windows chunk_size chunk_overlap separator splits
                      (cur' ++ [d]) total' /\ p ∈ w)
      by (intros cur' total'; apply IH).
    destruct (_ >? chunk_size).
    + destruct (0 <? len cur).
      * destruct (pop_window _ _ _ _ _ _) as [cur' total'].
        apply elem_of_app in Hp as [Hp|Hp].
        -- exists cur. split; [|exact Hp]. apply elem_of_app. left. left.
        -- destruct (Hnext cur' (total' + len d
                       + sep_if (1 <? len (cur' ++ [d])) (len separator)))
             as (w & Hw & Hpw).
           ++ rewrite <- app_assoc. apply elem_of_app. right. exact Hp.
           ++ exists w. split; [|exact Hpw]. apply elem_of_app. right.
              exact Hw.
      * cbn [app]. apply Hnext. rewrite <- app_assoc. exact Hp.
    + cbn [app]. apply Hnext. rewrite <- app_assoc. exact Hp.
Qed.

Lemma elem_of_emit (w : list str) (c : str) :
  c ∈ emit w [] <-> c = strip (concat w) /\ c <> [].
Proof.
  unfold emit, join_docs. rewrite len_join_nil.
  destruct (strip (concat w)) as [|x t]; split.
  - intros H. inversion H.
  - intros [-> H]. contradiction.
  - intros H. apply list_elem_of_singleton in H. subst c.
    split; [reflexivity|discriminate].
  - intros [-> _]. left.
Qed.

Lemma elem_of_merge_splits (good : list str) (c : str) :
  c ∈ merge_splits chunk_size chunk_overlap good [] <->
  exists w, w ∈ merge_windows chunk_size chunk_overlap [] good [] 0
            /\ c = strip (concat w) /\ c <> [].
Proof.
  unfold merge_splits. rewrite merge_loop_windows.
  rewrite list_elem_of_In, in_flat_map. split.
  - intros (w & Hw & Hc). exists w. split; [apply list_elem_of_In, Hw|].
    apply elem_of_emit, list_elem_of_In, Hc.
  - intros (w & Hw & Hc). exists w. split; [apply list_elem_of_In, Hw|].
    apply list_elem_of_In, elem_of_emit, Hc.
Qed.

(** A merged chunk is a part of the pieces it is merged from, put
    together. *)
Lemma merge_splits_sound (good : list str) (c : str) :
  c ∈ merge_splits chunk_size chunk_overlap good [] ->
  c <> [] /\ occurs_in c (concat good).
Proof.
  intros H. apply elem_of_merge_splits in H as (w & Hw & -> & Hne).
  split; [exact Hne|].
  apply merge_windows_runs in Hw as (a & b & Hrun). cbn [app] in Hrun.
  rewrite Hrun.
  exact (occurs_in_trans _ _ _ (strip_occurs_in (concat w))
           (occurs_in_concat_run a w b)).
Qed.

(** A word inside a piece is inside a merged chunk. *)
Lemma merge_splits_covers (good : list str) (word p : str) :
  is_word word -> p ∈ good -> occurs_in word p ->
  exists c, c ∈ merge_splits chunk_size chunk_overlap good []
            /\ occurs_in word c.
Proof.
  intros Hw Hp Hsub.
  destruct (merge_windows_cover [] good [] 0 p Hp) as (w & Hwin & Hpw).
  assert (Hin : occurs_in word (strip (concat w))).
  { apply strip_keeps_word; [exact Hw|].
    exact (occurs_in_trans _ _ _ Hsub (occurs_in_concat p w Hpw)). }
  exists (strip (concat w)). split; [|exact Hin].
  apply elem_of_merge_splits. exists w. split; [exact Hwin|].
  split; [reflexivity|]. intros E. rewrite E in Hin.
  destruct Hin as (pre & post & H). symmetry in H.
  apply app_eq_nil in H as [_ H]. apply app_eq_nil in H as [H _].
  destruct Hw as [Hne _]. contradiction.
Qed.

Lemma merged_sound (good : list str) (c : str) :
  c ∈ (if nonempty good then merge_splits chunk_size chunk_overlap good []
       else []) ->
  c <> [] /\ occurs_in c (concat good).
Proof.
  destruct (nonempty good); [apply merge_splits_sound|].
  intros H. inversion H.
Qed.

(** The chunks of [_split_text] are parts of the text, given that the
    deeper splits are. *)
Lemma split_loop_sound (deeper : option (str -> list str))
    (splits : list str) :
  Forall (fun p => p <> []) splits ->
  match deeper with
  | None => True
  | Some split_text =>
      forall s c, c ∈ split_text s -> c <> [] /\ occurs_in c s
  end ->
  forall good c,
    c ∈ split_loop chunk_size chunk_overlap deeper splits good ->
    c <> [] /\ occurs_in c (concat (good ++ splits)).
Proof.
  intros Hne Hdeep. induction Hne as [|s splits Hs _ IH]; intros good c;
    cbn [split_loop].
  - rewrite app_nil_r. apply merged_sound.
  - destruct (len s <? chunk_size).
    + intros H. apply IH in H. rewrite <- app_assoc in H. exact H.
    + rewrite !elem_of_app. intros [H|[H|H]].
      * apply merged_sound in H as [H1 H2]. split; [exact H1|].
        rewrite concat_app. apply occurs_in_app_l, H2.
      * assert (Hc : c <> [] /\ occurs_in c s).
        { destruct deeper as [split_text|]; [apply Hdeep, H|].
          apply list_elem_of_singleton in H. subst c.
          split; [exact Hs|apply occurs_in_refl]. }
        destruct Hc as [H1 H2]. split; [exact H1|].
        rewrite concat_app. apply occurs_in_app_r. cbn [concat].
        apply occurs_in_app_l, H2.
      * apply IH in H as [H1 H2]. split; [exact H1|]. cbn [app] in H2.
        rewrite concat_app. apply occurs_in_app_r. cbn [concat].
        apply occurs_in_app_r, H2.
Qed.

(** A word inside a piece is inside a chunk, given that the deeper splits
    keep it. *)
Lemma split_loop_covers (deeper : option (str -> list str))
    (word : str) (splits : list str) :
  is_word word ->
  match deeper with
  | None => True
  | Some split_text =>
      forall s, occurs_in word s ->
        exists c, c ∈ split_text s /\ occurs_in word c
  end ->
  forall good p,
    p ∈ good ++ splits -> occurs_in word p ->
    exists c, c ∈ split_loop chunk_size chunk_overlap deeper splits good
              /\ occurs_in word c.
Proof.
  intros Hw Hdeep. induction splits as [|s splits IH]; intros good p Hp Hsub;
    cbn [split_loop].
  - rewrite app_nil_r in Hp.
    destruct good as [|g good]; [inversion Hp|]. cbn [nonempty].
    exact (merge_splits_covers _ word p Hw Hp Hsub).
  - destruct (len s <? chunk_size).
    + apply (IH (good ++ [s]) p); [|exact Hsub].
      rewrite <- app_assoc. exact Hp.
    + apply elem_of_app in Hp as [Hp|Hp].
      * destruct good as [|g good]; [inversion Hp|]. cbn [nonempty].
        destruct (merge_splits_covers _ word p Hw Hp Hsub) as (c & Hc & Hin).
        exists c. split; [|exact Hin]. apply elem_of_app. left. exact Hc.
      * apply elem_of_cons in Hp as [->|Hp].
        -- assert (Hc : exists c,
                     c ∈ match deeper with
                         | None => [s]
                         | Some split_text => split_text s
                         end /\ occurs_in word c).
           { destruct deeper as [split_text|]; [apply Hdeep, Hsub|].
             exists s. split; [left|exact Hsub]. }
           destruct Hc as (c & Hc & Hin). exists c. split; [|exact Hin].
           apply elem_of_app. right. apply elem_of_app. left. exact Hc.
        -- destruct (IH [] p Hp Hsub) as (c & Hc & Hin).
           exists c. split; [|exact Hin].
           apply elem_of_app. right. apply elem_of_app. right. exact Hc.
Qed.

(** [_split_text], whatever the separators: every chunk is a part of the
    text and is not empty. *)
Lemma split_text_with_sound (rest : list str) :
  forall (sep text c : str),
    c ∈ split_text_with chunk_size chunk_overlap sep rest text ->
    c <> [] /\ occurs_in c text.
Proof.
  induction rest as [|sep' rest IH]; intros sep text c.
  - assert (H : c ∈ split_loop chunk_size chunk_overlap None
                      (split_text_with_regex text sep) [] ->
                c <> [] /\ occurs_in c text).
    { intros H. apply split_loop_sound in H;
        [|apply split_regex_nonempty|exact I].
      cbn [app] in H. rewrite split_regex_concat in H. exact H. }
    destruct sep as [|x sep]; [exact H|]. cbn [split_text_with].
    destruct (found (x :: sep) text); exact H.
  - destruct sep as [|x sep]; cbn [split_text_with].
    + intros H. apply split_loop_sound in H;
        [|apply split_regex_nonempty|exact I].
      cbn [app] in H. rewrite split_regex_concat in H. exact H.
    + destruct (found (x :: sep) text); [|apply IH].
      intros H. apply split_loop_sound in H;
        [|apply split_regex_nonempty|exact (IH sep')].
      cbn [app] in H. rewrite split_regex_concat in H. exact H.
Qed.

(** [_split_text] with separators that start with a code point the word
    does not have: the word is inside a chunk. *)
Lemma split_text_with_covers (word : str) (rest : list str) :
  is_word word ->
  forall (sep text : str),
    Forall (fun s => exists x r, s = x :: r /\ x ∉ word) (sep :: rest) ->
    occurs_in word text ->
    exists c, c ∈ split_text_with chunk_size chunk_overlap sep rest text
              /\ occurs_in word c.
Proof.
  intros Hw. induction rest as [|sep' rest IH]; intros sep text Hseps Hsub.
  - apply Forall_cons in Hseps as [(x & r & -> & Hx) _].
    rewrite split_text_with_last by discriminate.
    destruct (word_in_piece x word (split_text_with_regex text (x :: r)))
      as (p & Hp & Hin);
      [exact (proj1 Hw)|exact Hx|apply split_regex_heads| |].
    + rewrite split_regex_concat. exact Hsub.
    + apply (split_loop_covers None word _ Hw I [] p); [exact Hp|exact Hin].
  - apply Forall_cons in Hseps as [(x & r & -> & Hx) Hseps].
    rewrite split_text_with_more by discriminate.
    destruct (found (x :: r) text); [|apply IH; assumption].
    destruct (word_in_piece x word (split_text_with_regex text (x :: r)))
      as (p & Hp & Hin);
      [exact (proj1 Hw)|exact Hx|apply split_regex_heads| |].
    + rewrite split_regex_concat. exact Hsub.
    + apply (split_loop_covers
               (Some (split_text_with chunk_size chunk_overlap sep' rest))
               word _ Hw (fun s => IH sep' s Hseps) [] p);
        [exact Hp|exact Hin].
Qed.

Lemma is_word_separators (word : str) :
  is_word word ->
  Forall (fun s => exists x r, s = x :: r /\ x ∉ word) separators.
Proof.
  intros [_ Hw].
  assert (H : forall x, isspace x = true -> x ∉ word).
  { intros x Hx Hin. rewrite Forall_forall in Hw. apply Hw in Hin.
    congruence. }
  repeat constructor; eexists _, _; (split; [reflexivity|]);
    apply H; reflexivity.
Qed.

End ChunkTextFacts.


Section ShortPages.
Import Splitter.
Local Open Scope Z_scope.
Variables (chunk_size chunk_overlap : Z).

(** Pieces that fit together in one chunk are merged into one chunk. *)
Lemma merge_loop_fits (splits cur : list str) (total : Z) :
  total = len (concat cur) ->
  len (concat (cur ++ splits)) <= chunk_size ->
  merge_loop chunk_size chunk_overlap [] splits cur total
  = emit (cur ++ splits) [].
Proof.
  revert cur total. induction splits as [|d splits IH]; intros cur total Ht Hle.
  - rewrite app_nil_r. reflexivity.
  - cbn [merge_loop]. change (len (@nil N)) with 0. rewrite !sep_if_0.
    assert (Hd : len (concat (cur ++ [d])) = total + len d)
      by (rewrite len_concat_snoc; lia).
    assert (Hall : len (concat (cur ++ d :: splits))
                   = len (concat (cur ++ [d])) + len (concat splits)).
    { change (d :: splits) with ([d] ++ splits).
      rewrite app_assoc, concat_app, len_app. reflexivity. }
    pose proof (len_nonneg (concat splits)) as Hpos.
    destruct (Z.gtb_spec (total + len d + 0) chunk_size) as [Hgt|_]; [lia|].
    cbn [app]. rewrite IH.
    + rewrite <- app_assoc. reflexivity.
    + rewrite sep_if_0. lia.
    + rewrite <- app_assoc. exact Hle.
Qed.

Lemma split_loop_all_short (deeper : option (str -> list str))
    (splits good : list str) :
  Forall (fun p => len p < chunk_size) splits ->
  split_loop chunk_size chunk_overlap deeper splits good
  = if nonempty (good ++ splits)
    then merge_splits chunk_size chunk_overlap (good ++ splits) []
    else [].
Proof.
  intros H. revert good. induction H as [|s splits Hs _ IH]; intros good;
    cbn [split_loop].
  - rewrite app_nil_r. reflexivity.
  - apply Z.ltb_lt in Hs. rewrite Hs, IH, <- app_assoc. reflexivity.
Qed.

Lemma len_occurs_in (a b : str) : occurs_in a b -> len a <= len b.
Proof.
  intros (p & q & ->). rewrite !len_app.
  pose proof (len_nonneg p). pose proof (len_nonneg q). lia.
Qed.

(** The pieces of a text shorter than the size, merged: the text,
    stripped. *)
Lemma split_loop_short_text (deeper : option (str -> list str))
    (text sep : str) :
  len text < chunk_size ->
  split_loop chunk_size chunk_overlap deeper (split_text_with_regex text sep)
    []
  = match strip text with
    | [] => []
    | chunk => [chunk]
    end.
Proof.
  intros Hlen.
  pose proof (split_regex_concat text sep) as Hcat.
  rewrite split_loop_all_short.
  - cbn [app]. unfold merge_splits.
    rewrite merge_loop_fits; [|reflexivity|cbn [app]; rewrite Hcat; lia].
    cbn [app]. unfold emit, join_docs. rewrite len_join_nil, Hcat.
    destruct (split_text_with_regex text sep) as [|p ps].
    + cbn in Hcat. subst text. reflexivity.
    + cbn [nonempty]. destruct (strip text); reflexivity.
  - apply Forall_forall. intros p Hp.
    pose proof (len_occurs_in _ _ (occurs_in_concat p _ Hp)) as Hle.
    rewrite Hcat in Hle. lia.
Qed.

Lemma split_text_with_short (rest : list str) :
  forall sep text,
    len text < chunk_size ->
    split_text_with chunk_size chunk_overlap sep rest text
    = match strip text with
      | [] => []
      | chunk => [chunk]
      end.
Proof.
  induction rest as [|sep' rest IH]; intros sep text Hlen.
  - destruct sep as [|x sep]; cbn [split_text_with];
      [|destruct (found (x :: sep) text)];
      apply split_loop_short_text, Hlen.
  - destruct sep as [|x sep]; cbn [split_text_with];
      [apply split_loop_short_text, Hlen|].
    destruct (found (x :: sep) text);
      [apply split_loop_short_text, Hlen|apply IH, Hlen].
Qed.

End ShortPages.

Lemma split_document_returns (documents : list Document) (S O : Z) :
  (0 < S)%Z -> (0 <= O <= S)%Z ->
  split_document documents S O = Ok (Splitter.split_documents S O documents).
Proof.
  intros HS HO. unfold split_document.
  destruct (Z.leb_spec S 0) as [?|_]; [lia|].
  destruct (Z.ltb_spec O 0) as [?|_]; [lia|].
  destruct (Z.gtb_spec O S) as [?|_]; [lia|]. reflexivity.
Qed.

Lemma split_document_Ok_inv (documents chunks : list Document) (S O : Z) :
  split_document documents S O = Ok chunks ->
  chunks = Splitter.split_documents S O documents.
Proof.
  unfold split_document.
  destruct (S <=? 0)%Z; [discriminate|].
  destruct (O <? 0)%Z; [discriminate|].
  destruct (O >? S)%Z; [discriminate|]. intros H. injection H as <-.
  reflexivity.
Qed.

Lemma elem_of_split_documents (S O : Z) (documents : list Document)
    (c : Document) :
  c ∈ Splitter.split_documents S O documents <->
  exists d, d ∈ documents /\ metadata c = metadata d
            /\ page_content c ∈ Splitter.split_text S O (page_content d).
Proof.
  unfold Splitter.split_documents. rewrite list_elem_of_In, in_flat_map.
  split.
  - intros (d & Hd & Hc). apply in_map_iff in Hc as (t & <- & Ht).
    exists d. split; [apply list_elem_of_In, Hd|]. split; [reflexivity|].
    apply list_elem_of_In, Ht.
  - intros (d & Hd & Hm & Ht). exists d. split; [apply list_elem_of_In, Hd|].
    apply in_map_iff. exists (page_content c).
    split; [|apply list_elem_of_In, Ht]. destruct c as [t m]. cbn in *.
    rewrite Hm. reflexivity.
Qed.

(** X4: every chunk [split_document] returns is a contiguous, non-empty part
    of the text of one of the pages, and carries the metadata of that
    page. *)
Theorem split_document_chunks_from_pages (documents chunks : list Document)
    (S O : Z) :
  split_document documents S O = Ok chunks ->
  forall c, c ∈ chunks ->
    page_content c <> []
    /\ exists d, d ∈ documents /\ metadata c = metadata d
                 /\ occurs_in (page_content c) (page_content d).
Proof.
  intros H c Hc. apply split_document_Ok_inv in H. subst chunks.
  apply elem_of_split_documents in Hc as (d & Hd & Hm & Ht).
  unfold Splitter.split_text, Splitter.separators in Ht.
  apply split_text_with_sound in Ht as [Hne Hsub].
  split; [exact Hne|]. exists d. repeat split; assumption.
Qed.

Lemma split_document_chunks_from_pages_witness :
  split_document [Demo.doc "aa bb cc dd ee ff gg hh"] 10 3
  = Ok [Demo.doc "aa bb cc"; Demo.doc "cc dd ee"; Demo.doc "ee ff gg";
        Demo.doc "gg hh"]
  /\ occurs_in (py "cc dd ee") (py "aa bb cc dd ee ff gg hh").
Proof.
  assert (H : split_document [Demo.doc "aa bb cc dd ee ff gg hh"] 10 3
              = Ok [Demo.doc "aa bb cc"; Demo.doc "cc dd ee";
                    Demo.doc "ee ff gg"; Demo.doc "gg hh"])
    by (vm_compute; reflexivity).
  split; [exact H|].
  destruct (split_document_chunks_from_pages _ _ _ _ H (Demo.doc "cc dd ee"))
    as (_ & d & Hd & _ & Hsub).
  - right. left.
  - apply list_elem_of_singleton in Hd. subst d. exact Hsub.
Defined.

(** X5: no word is lost or cut: every run of code points without whitespace
    that occurs in a page occurs, whole, in a chunk of that page. *)
Theorem split_document_keeps_words (documents chunks : list Document)
    (S O : Z) :
  split_document documents S O = Ok chunks ->
  forall d word, d ∈ documents -> is_word word ->
    occurs_in word (page_content d) ->
    exists c, c ∈ chunks /\ metadata c = metadata d
              /\ occurs_in word (page_content c).
Proof.
  intros H d word Hd Hw Hsub. apply split_document_Ok_inv in H. subst chunks.
  destruct (split_text_with_covers S O word [[LF]; [SPACE]] Hw [LF; LF]
              (page_content d) (is_word_separators word Hw) Hsub)
    as (t & Ht & Hin).
  exists {| page_content := t; metadata := metadata d |}.
  split; [|split; [reflexivity|exact Hin]].
  apply elem_of_split_documents. exists d. repeat split; assumption.
Qed.

Lemma split_document_keeps_words_witness :
  split_document [Demo.doc "xx aaaa yy"] 3 1
  = Ok [Demo.doc "xx"; Demo.doc " aaaa"; Demo.doc " yy"]
  /\ exists c, c ∈ [Demo.doc "xx"; Demo.doc " aaaa"; Demo.doc " yy"]
               /\ metadata c = metadata (Demo.doc "xx aaaa yy")
               /\ occurs_in (py "aaaa") (page_content c).
Proof.
  assert (H : split_document [Demo.doc "xx aaaa yy"] 3 1
              = Ok [Demo.doc "xx"; Demo.doc " aaaa"; Demo.doc " yy"])
    by (vm_compute; reflexivity).
  split; [exact H|].
  apply (split_document_keeps_words _ _ _ _ H (Demo.doc "xx aaaa yy")).
  - left.
  - split; [discriminate|]. repeat constructor.
  - exists (py "xx "), (py " yy"). reflexivity.
Defined.

(** X6: a page shorter than the chunk size is one chunk, its text without
    the whitespace around it, and no chunk at all when nothing else is on
    the page. *)
Theorem split_document_short_pages (documents : list Document) (S O : Z) :
  (0 < S)%Z -> (0 <= O <= S)%Z ->
  Forall (fun d => (len (page_content d) < S)%Z) documents ->
  split_document documents S O = Ok (flat_map whole_page documents).
Proof.
  intros HS HO Hshort. rewrite split_document_returns by assumption.
  f_equal. unfold Splitter.split_documents.
  induction Hshort as [|d documents Hd _ IH]; [reflexivity|].
  cbn [flat_map]. rewrite IH. f_equal.
  unfold Splitter.split_text, Splitter.separators, whole_page.
  rewrite split_text_with_short by exact Hd.
  destruct (strip (page_content d)); reflexivity.
Qed.

Lemma split_document_short_pages_witness :
  split_document [Demo.doc "  Total: $42.00 "; Demo.doc "   "] 1000 200
  = Ok [Demo.doc "Total: $42.00"].
Proof.
  rewrite split_document_short_pages; [reflexivity|lia|lia|].
  repeat constructor.
Defined.

Section WithinSize.

Lemma occurs_in_tl (c text : str) : occurs_in c text -> occurs_in (tl c) text.
Proof.
  intros (pre & post & ->). destruct c as [|x c].
  - exists pre, post. reflexivity.
  - exists (pre ++ [x]), post. rewrite <- app_assoc. reflexivity.
Qed.

Lemma len_tl (c : str) : (len c <= len (tl c) + 1)%Z.
Proof. destruct c; unfold len; cbn [tl length]; lia. Qed.

End WithinSize.

(** X7: when no run of code points without a space or a line feed that
    occurs in a page is as long as the chunk size, every chunk is within
    the chunk size. *)
Theorem split_document_within_size (documents : list Document) (S O : Z) :
  (0 < S)%Z -> (0 <= O <= S)%Z ->
  (forall d run, d ∈ documents -> occurs_in run (page_content d) ->
     SPACE ∉ run -> LF ∉ run -> (len run < S)%Z) ->
  exists chunks,
    split_document documents S O = Ok chunks
    /\ forall c, c ∈ chunks -> (len (page_content c) <= S)%Z.
Proof.
  intros HS HO Hruns. rewrite split_document_returns by assumption.
  eexists. split; [reflexivity|]. intros c Hc.
  apply elem_of_split_documents in Hc as (d & Hd & _ & Ht).
  destruct (split_text_chunks S O (page_content d) (page_content c)
              ltac:(lia) Ht) as [Hle|[Hsp Hlf]]; [exact Hle|].
  unfold Splitter.split_text, Splitter.separators in Ht.
  apply split_text_with_sound in Ht as [_ Hsub].
  pose proof (Hruns d (tl (page_content c)) Hd (occurs_in_tl _ _ Hsub)
                Hsp Hlf) as Hlt.
  pose proof (len_tl (page_content c)). lia.
Qed.

Lemma split_document_within_size_witness :
  exists chunks,
    split_document [Demo.doc "Total: $42.00"] 1000 200 = Ok chunks
    /\ forall c, c ∈ chunks -> (len (page_content c) <= 1000)%Z.
Proof.
  apply split_document_within_size; [lia|lia|].
  intros d run Hd Hrun _ _. apply list_elem_of_singleton in Hd. subst d.
  pose proof (len_occurs_in _ _ Hrun) as H.
  replace (len (page_content (Demo.doc "Total: $42.00"))) with 13%Z in H
    by reflexivity.
  lia.
Defined.

(** ** The rows [create_vectorstore] writes *)

Section StoreMore.
Variable env : Env.




Lemma map_size_upsert (rows : list (str * Entry)) (c : gmap str Entry) :
  NoDup (map fst rows) -> (forall k, k ∈ map fst rows -> c !! k = None) ->
  size (upsert c rows) = (size c + length rows)%nat.
Proof.
  revert c. induction rows as [|[k e] rows IH]; intros c Hnd Hnew.
  - cbn. lia.
  - cbn [map fst] in Hnd. apply NoDup_cons in Hnd as [Hk Hnd].
    cbn [upsert fold_left fst snd]. fold (upsert (<[k:=e]> c) rows).
    rewrite IH; [|exact Hnd|].
    + rewrite map_size_insert_None by (apply Hnew; left). cbn [length]. lia.
    + intros k' Hk'. rewrite lookup_insert_ne by (intros ->; contradiction).
      apply Hnew. right. exact Hk'.
Qed.

Lemma unique_loop_NoDup (pairs : list (Document * str)) (kept_ids : list str)
    (kept : list Document) :
  NoDup kept_ids -> NoDup (fst (unique_loop pairs kept_ids kept)).
Proof.
  revert kept_ids kept. induction pairs as [|[c id] pairs IH];
    intros kept_ids kept Hnd; cbn [unique_loop].
  - exact Hnd.
  - unfold PySet.add, PySet.contains.
    destruct (bool_decide (id ∈ kept_ids)) eqn:E; cbn [negb].
    + apply IH, Hnd.
    + apply bool_decide_eq_false in E. apply IH.
      apply NoDup_app. split; [exact Hnd|]. split.
      * intros x Hx Hx'. apply list_elem_of_singleton in Hx'. subst x.
        contradiction.
      * apply NoDup_singleton.
Qed.

Lemma unique_loop_ids_from (pairs : list (Document * str))
    (kept_ids : list str) (kept : list Document) (id : str) :
  id ∈ fst (unique_loop pairs kept_ids kept) ->
  id ∈ kept_ids \/ id ∈ map snd pairs.
Proof.
  revert kept_ids kept. induction pairs as [|[c i] pairs IH];
    intros kept_ids kept; cbn [unique_loop map snd].
  - intros H. left. exact H.
  - rewrite elem_of_cons. unfold PySet.add, PySet.contains.
    destruct (bool_decide (i ∈ kept_ids)); cbn [negb]; intros H;
      apply IH in H.
    + tauto.
    + rewrite elem_of_app, list_elem_of_singleton in H. tauto.
Qed.

Lemma has_id_ids (chunks : list Document) (ids : list str) (id : str) :
  Forall2 has_id chunks ids ->
  id ∈ ids <-> exists chunk, chunk ∈ chunks /\ has_id chunk id.
Proof.
  induction 1 as [|c i chunks ids Hc _ IH].
  - split; [intros H; inversion H|intros (c & H & _); inversion H].
  - rewrite elem_of_cons, IH. split.
    + intros [->|(chunk & Hin & Hid)].
      * exists c. split; [left|exact Hc].
      * exists chunk. split; [right; exact Hin|exact Hid].
    + intros (chunk & Hin & Hid). apply elem_of_cons in Hin as [->|Hin].
      * left. unfold has_id in *. congruence.
      * right. exists chunk. split; assumption.
Qed.

Lemma rmap_raises {A B} (f : A -> result B) (l : list A) (e : exn) (a : A) :
  (forall x e', f x = Raise e' -> e' = e) ->
  a ∈ l -> f a = Raise e -> rmap f l = Raise e.
Proof.
  intros Hall. induction l as [|x l IH]; intros Hin Ha; [inversion Hin|].
  cbn [rmap]. destruct (f x) as [b|e'] eqn:Ex; cbn [rbind].
  - apply elem_of_cons in Hin as [->|Hin]; [congruence|].
    rewrite IH by assumption. reflexivity.
  - rewrite (Hall x e' Ex). reflexivity.
Qed.

Lemma utf8_char_surrogate (c : N) : surrogate c -> utf8_char c = None.
Proof.
  unfold surrogate, utf8_char. intros H.
  destruct (N.ltb_spec c 128) as [?|_]; [lia|].
  destruct (N.ltb_spec c 2048) as [?|_]; [lia|].
  destruct (N.leb_spec 55296 c) as [_|?]; [|lia].
  destruct (N.leb_spec c 57343) as [_|?]; [|lia]. reflexivity.
Qed.

Lemma utf8_encode_surrogate (s : str) (c : N) :
  c ∈ s -> surrogate c -> utf8_encode s = None.
Proof.
  intros Hin Hc. induction s as [|x s IH]; [inversion Hin|].
  cbn [utf8_encode]. apply elem_of_cons in Hin as [<-|Hin].
  - rewrite (utf8_char_surrogate c Hc). reflexivity.
  - rewrite (IH Hin). destruct (utf8_char x); reflexivity.
Qed.

Lemma chunk_identity_raises (text : str) (e : exn) :
  chunk_identity text = Raise e -> e = UnicodeEncodeError.
Proof.
  unfold chunk_identity. destruct (chunk_uuid text); [discriminate|].
  intros H. injection H as <-. reflexivity.
Qed.


Lemma zip_covers_snd {A B} (l : list A) (k : list B) (y : B) :
  (length k <= length l)%nat -> y ∈ k -> exists x, (x, y) ∈ zip l k.
Proof.
  revert l. induction k as [|b k IH]; intros [|a l] Hlen Hy;
    try (inversion Hy; fail); cbn [length] in Hlen; [lia|].
  apply elem_of_cons in Hy as [->|Hy].
  - exists a. left.
  - destruct (IH l ltac:(lia) Hy) as (x & Hx). exists x. right. exact Hx.
Qed.

Lemma entry_of_chunk (embs : list (list Z)) (docs : list Document)
    (d : Document) :
  length embs = length docs -> d ∈ docs ->
  exists e,
    e ∈ zip_with (fun v d => {| embedding := v; document := page_content d;
                                entry_metadata := metadata d |}) embs docs
    /\ document e = page_content d.
Proof.
  revert embs. induction docs as [|d' docs IH]; intros [|v embs] Hlen Hd;
    try (inversion Hd; fail); try discriminate Hlen.
  apply elem_of_cons in Hd as [->|Hd].
  - eexists. split; [left|reflexivity].
  - destruct (IH embs ltac:(cbn in Hlen; lia) Hd) as (e & He & Hdoc).
    exists e. split; [right; exact He|exact Hdoc].
Qed.

End StoreMore.

(** X8: the dedup loop keeps the ids and the chunks side by side: the ids
    collected are pairwise distinct, they are the ids that occur in the
    input, and the i-th id collected is the id of the i-th chunk kept, so
    that there are as many of the ones as of the others. *)
Theorem unique_ids_match_unique_chunks (chunks : list Document)
    (ids : list str) :
  rmap (fun doc => chunk_identity (page_content doc)) chunks = Ok ids ->
  let unique_ids := fst (unique_loop (zip chunks ids) PySet.empty []) in
  let unique_chunks := snd (unique_loop (zip chunks ids) PySet.empty []) in
  NoDup unique_ids
  /\ Forall2 has_id unique_chunks unique_ids
  /\ length unique_ids = length unique_chunks
  /\ (forall id, id ∈ unique_ids <-> id ∈ ids).
Proof.
  intros Hids unique_ids unique_chunks.
  pose proof (rmap_Forall2 _ _ _ Hids) as Hall.
  assert (Ha : Forall2 has_id unique_chunks unique_ids)
    by (apply unique_loop_aligned; [exact Hall|constructor]).
  assert (Hsnd : map snd (zip chunks ids) = ids).
  { apply snd_zip. apply Forall2_length in Hall. lia. }
  split; [apply unique_loop_NoDup; constructor|]. split; [exact Ha|].
  split; [symmetry; exact (Forall2_length _ _ _ Ha)|].
  intros id. split.
  - intros H. apply unique_loop_ids_from in H as [H|H]; [inversion H|].
    rewrite Hsnd in H. exact H.
  - intros H. apply unique_loop_ids_cover. right. rewrite Hsnd. exact H.
Qed.

Lemma unique_ids_match_unique_chunks_witness :
  rmap (fun doc => chunk_identity (page_content doc)) Demo.abac
  = Ok Demo.abac_ids
  /\ NoDup (fst (unique_loop (zip Demo.abac Demo.abac_ids) PySet.empty []))
  /\ length (fst (unique_loop (zip Demo.abac Demo.abac_ids) PySet.empty []))
     = length (snd (unique_loop (zip Demo.abac Demo.abac_ids) PySet.empty [])).
Proof.
  assert (H : rmap (fun doc => chunk_identity (page_content doc)) Demo.abac
              = Ok Demo.abac_ids) by (vm_compute; reflexivity).
  split; [exact H|].
  destruct (unique_ids_match_unique_chunks Demo.abac Demo.abac_ids H)
    as (Hnd & _ & Hlen & _).
  split; [exact Hnd|exact Hlen].
Defined.

(** X9: a text with a surrogate code point has no identity:
    [create_vectorstore] raises [UnicodeEncodeError] when a chunk holds
    one, before anything is embedded or written. *)
Theorem create_vectorstore_surrogate (env : Env) (chunks : list Document)
    (emb : str -> result (list Z)) (file_name path : str) (w : World)
    (chunk : Document) (c : N) :
  chunk ∈ chunks -> c ∈ page_content chunk -> surrogate c ->
  create_vectorstore env chunks emb file_name path w
  = (Raise UnicodeEncodeError, w).
Proof.
  intros Hchunk Hc Hs. apply create_vectorstore_raises_early.
  apply (rmap_raises _ _ _ chunk); [|exact Hchunk|].
  - intros x e'. apply chunk_identity_raises.
  - unfold chunk_identity, chunk_uuid.
    rewrite (utf8_encode_surrogate _ c Hc Hs). reflexivity.
Qed.

Lemma create_vectorstore_surrogate_witness :
  create_vectorstore Demo.env
    [Demo.doc "a"; {| page_content := [98; 0xD83D]; metadata :=
                        {| source := Demo.tmp_path; page := 1 |} |}]
    (embed Demo.env) (py "f.pdf") (py "db") Demo.nothing
  = (Raise UnicodeEncodeError, Demo.nothing).
Proof.
  apply (create_vectorstore_surrogate Demo.env _ _ _ _ _
           {| page_content := [98; 0xD83D];
              metadata := {| source := Demo.tmp_path; page := 1 |} |}
           0xD83D).
  - right. left.
  - right. left.
  - unfold surrogate. lia.
Defined.

Section StoreEffect.
Variable env : Env.

(** Rows written into one collection: what changes in the world. *)
Lemma upsert_collection_effect (path cname : str)
    (rows : list (str * Entry)) (w : World) :
  let w' :=
    set_db (fun d => <[(path, cname) :=
                         upsert (default ∅ (d !! (path, cname))) rows]> d) w in
  fs w' = fs w
  /\ (forall directory collection,
        (directory, collection) <> (path, cname) ->
        db w' !! (directory, collection) = db w !! (directory, collection))
  /\ (forall directory collection id,
        is_Some (stored_text w directory collection id) ->
        is_Some (stored_text w' directory collection id)).
Proof.
  cbv zeta. cbn [fs db set_db]. split; [reflexivity|]. split.
  - intros directory collection Hne. apply lookup_insert_ne. congruence.
  - intros directory collection id. unfold stored_text. cbn [db set_db].
    destruct (decide ((path, cname) = (directory, collection))) as [<-|Hne].
    + rewrite lookup_insert_eq.
      destruct (db w !! (path, cname)) as [c|];
        [|intros [x Hx]; discriminate Hx].
      cbn [default]. rewrite !fmap_is_Some. apply upsert_keeps_keys.
    + rewrite lookup_insert_ne by exact Hne. tauto.
Qed.

(** [create_vectorstore] leaves the world as it is, or writes rows into
    the collection of the cleaned name. *)
Lemma create_vectorstore_world (chunks : list Document)
    (emb : str -> result (list Z)) (file_name path : str) (w : World) :
  snd (create_vectorstore env chunks emb file_name path w) = w
  \/ exists rows,
       snd (create_vectorstore env chunks emb file_name path w)
       = set_db (fun d =>
           <[(path, clean_filename file_name) :=
               upsert (default ∅ (d !! (path, clean_filename file_name)))
                      rows]> d) w.
Proof.
  destruct (rmap (fun doc => chunk_identity (page_content doc)) chunks)
    as [ids|e] eqn:Hids.
  - rewrite (create_vectorstore_run env _ _ _ _ ids w Hids),
      Chroma_from_documents_run.
    destruct (index_validate env _ _); [|left; reflexivity].
    destruct (rmap emb _) as [embs|]; [|left; reflexivity].
    right. eexists. reflexivity.
  - rewrite (create_vectorstore_raises_early env _ _ _ _ e w Hids).
    left. reflexivity.
Qed.
End StoreEffect.

(** X10: [create_vectorstore] writes to one collection only, the one named
    by the cleaned file name in the given directory: the files on disk and
    the other collections are as before, and no id is removed from any
    collection, on every exit. *)
Theorem create_vectorstore_frame (env : Env) (chunks : list Document)
    (emb : str -> result (list Z)) (file_name path : str) (w : World) :
  let out := create_vectorstore env chunks emb file_name path w in
  fs (snd out) = fs w
  /\ (forall directory collection,
        (directory, collection) <> (path, clean_filename file_name) ->
        db (snd out) !! (directory, collection)
        = db w !! (directory, collection))
  /\ (forall directory collection id,
        is_Some (stored_text w directory collection id) ->
        is_Some (stored_text (snd out) directory collection id)).
Proof.
  intros out. subst out.
  destruct (create_vectorstore_world env chunks emb file_name path w)
    as [E|(rows & E)]; rewrite E.
  - split; [reflexivity|]. split; [reflexivity|]. intros d c i H. exact H.
  - apply upsert_collection_effect.
Qed.



(** X12: in a collection that did not exist, [create_vectorstore] leaves one
    row for every distinct text of the chunks: the keys are the ids of the
    chunks, and the text of every chunk is stored (under its own id or, as
    the ids are listed in the order of the set, under the id of another
    chunk).  The set of ids is taken to iterate over its members, and the
    ids not to collide on the texts. *)
Theorem create_vectorstore_fresh_collection (env : Env)
    (chunks : list Document) (emb : str -> result (list Z))
    (file_name path : str) (w w' : World) (v : Chroma) :
  (forall l, set_iteration env l ≡ₚ l) ->
  collision_free (map page_content chunks) ->
  db w !! (path, clean_filename file_name) = None ->
  create_vectorstore env chunks emb file_name path w = (Ok v, w') ->
  exists c,
    db w' !! (path, clean_filename file_name) = Some c
    /\ size c = length (first_by_content [] chunks)
    /\ (forall id, is_Some (c !! id)
                   <-> exists chunk, chunk ∈ chunks /\ has_id chunk id)
    /\ (forall chunk, chunk ∈ chunks ->
          exists id e, c !! id = Some e /\ document e = page_content chunk).
Proof.
  intros Hperm Hfree Hnew Hrun.
  destruct (rmap (fun doc => chunk_identity (page_content doc)) chunks)
    as [ids|e] eqn:Hids;
    [|rewrite (create_vectorstore_raises_early env _ _ _ _ e) in Hrun
        by exact Hids; discriminate Hrun].
  rewrite (create_vectorstore_run env _ _ _ _ ids _ Hids),
    Chroma_from_documents_run in Hrun.
  pose proof (rmap_Forall2 _ _ _ Hids) as Hall.
  destruct (unique_loop_spec chunks ids Hall [] [] [])
    as (uids & Hloop & Hu); [constructor|reflexivity|exact Hfree|].
  cbn [app] in Hloop. unfold PySet.empty in Hrun. rewrite Hloop in Hrun.
  cbn [fst snd] in Hrun.
  assert (Hnd : NoDup uids).
  { pose proof (unique_loop_NoDup (zip chunks ids) [] [] (NoDup_nil_2))
      as H. rewrite Hloop in H. exact H. }
  assert (Hkeys : forall id, id ∈ uids <-> id ∈ ids).
  { intros id. split.
    - intros H.
      pose proof (unique_loop_ids_from (zip chunks ids) [] [] id) as H'.
      rewrite Hloop in H'. destruct (H' H) as [H0|H0]; [inversion H0|].
      rewrite snd_zip in H0; [exact H0|].
      apply Forall2_length in Hall. lia.
    - intros H.
      pose proof (unique_loop_ids_cover (zip chunks ids) [] [] id) as H'.
      rewrite Hloop in H'. apply H'. right.
      rewrite snd_zip; [exact H|]. apply Forall2_length in Hall. lia. }
  destruct (index_validate env _ _); [|discriminate Hrun].
  destruct (rmap emb _) as [embs|] eqn:Hemb; [|discriminate Hrun].
  injection Hrun as _ <-. cbn [db set_db]. rewrite Hnew. cbn [default].
  rewrite lookup_insert_eq. eexists. split; [reflexivity|].
  set (docs := first_by_content [] chunks) in *.
  set (entries := zip_with _ embs docs).
  assert (Hle : length embs = length docs)
    by (apply rmap_length in Hemb; rewrite length_map in Hemb; exact Hemb).
  assert (Hlu : length uids = length docs)
    by (symmetry; exact (Forall2_length _ _ _ Hu)).
  assert (Hlp : length (set_iteration env uids) = length docs)
    by (rewrite Hperm; exact Hlu).
  assert (Hlen : length entries = length docs)
    by (subst entries; rewrite length_zip_with; lia).
  assert (Hfst : map fst (zip (set_iteration env uids) entries)
                 = set_iteration env uids)
    by (apply fst_zip; lia).
  assert (Hnd' : NoDup (map fst (zip (set_iteration env uids) entries)))
    by (rewrite Hfst, Hperm; exact Hnd).
  split; [|split].
  - rewrite map_size_upsert; [|exact Hnd'|intros k _; apply lookup_empty].
    rewrite map_size_empty, length_zip_with. cbn. lia.
  - intros id. rewrite <- (has_id_ids chunks ids id Hall), <- Hkeys. split.
    + intros [e He]. apply upsert_lookup_cases in He as [He|He];
        [rewrite lookup_empty in He; discriminate He|].
      apply elem_of_zip_l in He. rewrite Hperm in He. exact He.
    + intros H. apply upsert_has_key. rewrite Hfst, Hperm. exact H.
  - intros chunk Hchunk.
    assert (Ht : page_content chunk ∈ map page_content docs).
    { apply first_by_content_elem. split; [|intros H; inversion H].
      apply list_elem_of_fmap_2. exact Hchunk. }
    apply list_elem_of_fmap in Ht as (d & Hd & Hin).
    destruct (entry_of_chunk embs docs d Hle Hin) as (e & He & Hdoc).
    destruct (zip_covers_snd (set_iteration env uids) entries e
                ltac:(lia) He) as (id & Hrow).
    exists id, e. split; [|congruence].
    apply upsert_lookup_in; [exact Hnd'|exact Hrow].
Qed.

Lemma create_vectorstore_fresh_collection_witness :
  let r := create_vectorstore Demo.env Demo.abac (embed Demo.env)
             (py "f.pdf") (py "db") Demo.nothing in
  exists c,
    db (snd r) !! (py "db", clean_filename (py "f.pdf")) = Some c
    /\ size c = 3%nat.
Proof.
  intros r.
  assert (Hp : forall l, set_iteration Demo.env l ≡ₚ l)
    by exact sorted_perm.
  assert (Hf : collision_free (map page_content Demo.abac))
    by (apply collision_freeb_sound; vm_compute; reflexivity).
  assert (Hr : r = (Ok {| collection_name := py "f.pdf";
                          persist_directory := py "db" |}, snd r))
    by (vm_compute; reflexivity).
  destruct (create_vectorstore_fresh_collection Demo.env Demo.abac
              (embed Demo.env) (py "f.pdf") (py "db") Demo.nothing (snd r) _
              Hp Hf eq_refl Hr) as (c & Hc & Hsize & _).
  exists c. split; [exact Hc|exact Hsize].
Defined.

Section SingleText.
Variable env : Env.

(** Chunks whose id is already in the set leave the loop as it is. *)
Lemma unique_loop_seen (pairs : list (Document * str)) (kept_ids : list str)
    (kept : list Document) :
  (forall p, p ∈ pairs -> snd p ∈ kept_ids) ->
  unique_loop pairs kept_ids kept = (kept_ids, kept).
Proof.
  induction pairs as [|[c i] pairs IH]; intros Hseen; [reflexivity|].
  cbn [unique_loop]. unfold PySet.contains.
  rewrite bool_decide_eq_true_2 by (apply (Hseen (c, i)); left).
  cbn [negb]. apply IH. intros p Hp. apply Hseen. right. exact Hp.
Qed.

Lemma rmap_same_id (chunks : list Document) (id : str) :
  (forall c, c ∈ chunks -> has_id c id) ->
  rmap (fun doc => chunk_identity (page_content doc)) chunks
  = Ok (map (fun _ => id) chunks).
Proof.
  induction chunks as [|c chunks IH]; intros H; [reflexivity|].
  cbn [rmap map]. rewrite (H c ltac:(left)). cbn [rbind].
  rewrite IH by (intros c' Hc'; apply H; right; exact Hc'). reflexivity.
Qed.

End SingleText.

(** X13: when all the chunks of a file have the same identity, as when the
    file gives one chunk, the set of ids has one member and its order does
    not matter: the text of the first chunk is stored under its own
    identity, and the rest of the collection is as before. *)
Theorem create_vectorstore_single_text (env : Env) (chunk : Document)
    (chunks : list Document) (emb : str -> result (list Z))
    (file_name path id : str) (w w' : World) (v : Chroma) :
  (forall l, set_iteration env l ≡ₚ l) ->
  (forall c, c ∈ chunk :: chunks -> has_id c id) ->
  create_vectorstore env (chunk :: chunks) emb file_name path w = (Ok v, w') ->
  stored_text w' path (clean_filename file_name) id
  = Some (page_content chunk)
  /\ forall id', id' <> id ->
       stored_text w' path (clean_filename file_name) id'
       = stored_text w path (clean_filename file_name) id'.
Proof.
  intros Hperm Hsame Hrun.
  rewrite (create_vectorstore_run env _ _ _ _ _ _
             (rmap_same_id (chunk :: chunks) id Hsame)) in Hrun.
  assert (Hloop : unique_loop
                    (zip (chunk :: chunks)
                         (map (fun _ => id) (chunk :: chunks)))
                    PySet.empty []
                  = ([id], [chunk])).
  { cbn [map zip_with unique_loop]. unfold PySet.contains, PySet.empty.
    rewrite (bool_decide_eq_false_2 (id ∈ [])) by (intros H; inversion H).
    cbn [negb]. unfold PySet.add, PySet.contains.
    rewrite (bool_decide_eq_false_2 (id ∈ [])) by (intros H; inversion H).
    cbn [app]. apply unique_loop_seen. intros [c i] Hp.
    apply elem_of_zip_snd, list_elem_of_fmap in Hp as (c' & -> & _). left. }
  rewrite Hloop in Hrun. cbn [fst snd] in Hrun.
  assert (Hone : set_iteration env [id] = [id])
    by (apply Permutation_singleton_r, Hperm).
  rewrite Hone, Chroma_from_documents_run in Hrun.
  destruct (index_validate env _ _); [|discriminate Hrun].
  cbn [map rmap] in Hrun.
  destruct (emb (page_content chunk)) as [e|]; [|discriminate Hrun].
  cbn [rbind zip_with] in Hrun. injection Hrun as _ <-.
  unfold stored_text. cbn [db set_db upsert fold_left fst snd].
  rewrite lookup_insert_eq. split.
  - rewrite lookup_insert_eq. reflexivity.
  - intros id' Hne. rewrite lookup_insert_ne by congruence.
    destruct (db w !! (path, clean_filename file_name)) as [c|];
      [reflexivity|]. cbn [default]. rewrite lookup_empty. reflexivity.
Qed.

Lemma create_vectorstore_single_text_witness :
  let r := create_vectorstore Demo.env Demo.total42 (embed Demo.env)
             (py "Invoice (1).pdf") (py "db") Demo.nothing in
  chunk_identity (py "Total: $42.00") = Ok Demo.id42
  /\ stored_text (snd r) (py "db") (py "Invoice.pdf") Demo.id42
     = Some (py "Total: $42.00").
Proof.
  intros r.
  assert (Hid : chunk_identity (py "Total: $42.00") = Ok Demo.id42)
    by (vm_compute; reflexivity).
  assert (Hr : r = (Ok {| collection_name := py "Invoice.pdf";
                          persist_directory := py "db" |}, snd r))
    by (vm_compute; reflexivity).
  split; [exact Hid|].
  refine (proj1 (create_vectorstore_single_text Demo.env
                   (Demo.doc "Total: $42.00") [] (embed Demo.env)
                   (py "Invoice (1).pdf") (py "db") Demo.id42 Demo.nothing
                   (snd r) _ sorted_perm _ Hr)).
  intros c Hc. apply list_elem_of_singleton in Hc. subst c. exact Hid.
Defined.

(** ** What the stages read and write *)

Section PipelineEffects.
Variable env : Env.

Lemma keeps_ids_refl (w : World) : keeps_ids w w.
Proof. intros d c i H. exact H. Qed.

Lemma keeps_ids_trans (w1 w2 w3 : World) :
  keeps_ids w1 w2 -> keeps_ids w2 w3 -> keeps_ids w1 w3.
Proof. intros H1 H2 d c i H. apply H2, H1, H. Qed.

(** [get_pdf_text] leaves the index alone, and the disk too when the name
    of its temporary file is new. *)
Lemma get_pdf_text_effect (f : UploadedFile) (w : World) :
  db (snd (get_pdf_text env f w)) = db w
  /\ ((forall path, named_temporary_file env (fs w) = Ok path ->
         fs w !! path = None) ->
      snd (get_pdf_text env f w) = w).
Proof.
  destruct (read f) as [data|e] eqn:Hread.
  - destruct (named_temporary_file env (fs w)) as [path|e] eqn:Htmp.
    + rewrite (get_pdf_text_created env f w data path Hread Htmp).
      cbn [snd]. split; [reflexivity|]. intros Hfresh.
      destruct w as [files d]. unfold set_fs. cbn [fs db] in *. f_equal.
      apply delete_id, Hfresh. reflexivity.
    + rewrite (get_pdf_text_tempfile_raises env f w data e Hread Htmp).
      split; reflexivity.
  - rewrite (get_pdf_text_read_raises env f w e Hread). split; reflexivity.
Qed.

Lemma create_vectorstore_from_texts_effect (documents : list Document)
    (file_name : str) (w : World) :
  let out := create_vectorstore_from_texts env documents file_name w in
  fs (snd out) = fs w /\ keeps_ids w (snd out).
Proof.
  unfold create_vectorstore_from_texts, bind, lift.
  destruct (split_document documents 1000 200) as [chunks|e].
  - destruct (create_vectorstore_world env chunks (get_embedding_function env)
                file_name (py "db") w) as [E|(rows & E)]; rewrite E.
    + split; [reflexivity|apply keeps_ids_refl].
    + destruct (upsert_collection_effect (py "db") (clean_filename file_name)
                  rows w) as (Hfs & _ & Hkeep).
      split; [exact Hfs|exact Hkeep].
  - cbn. split; [reflexivity|apply keeps_ids_refl].
Qed.

Lemma query_document_world (v : Chroma) (query : str) (w : World) :
  snd (query_document env v query w) = w.
Proof.
  unfold query_document, rag_chain, retriever, bind, lift, ret.
  destruct (similarity_search env _ query); [|reflexivity].
  destruct (llm_structured env _); reflexivity.
Qed.

Lemma process_pdf_effect (query : str) (f : UploadedFile) (w : World) :
  keeps_ids w (snd (process_pdf env query f w))
  /\ ((forall path, named_temporary_file env (fs w) = Ok path ->
         fs w !! path = None) ->
      fs (snd (process_pdf env query f w)) = fs w).
Proof.
  destruct (get_pdf_text_effect f w) as [Hdb Hfs].
  unfold process_pdf, bind, lift.
  destruct (get_pdf_text env f w) as [[docs|e] w1]; cbn [snd] in *.
  - destruct (create_vectorstore_from_texts_effect docs (name f) w1)
      as [Hfs2 Hkeep].
    destruct (create_vectorstore_from_texts env docs (name f) w1)
      as [[v|e] w2]; cbn [snd] in *.
    + pose proof (query_document_world v query w2) as Hq.
      destruct (query_document env v query w2) as [[df|e] w3];
        cbn [snd] in *; subst w3.
      * split.
        -- intros d c i H. apply Hkeep. unfold stored_text in *.
           rewrite Hdb. exact H.
        -- intros Hfresh. rewrite Hfs2, (Hfs Hfresh). reflexivity.
      * split.
        -- intros d c i H. apply Hkeep. unfold stored_text in *.
           rewrite Hdb. exact H.
        -- intros Hfresh. rewrite Hfs2, (Hfs Hfresh). reflexivity.
    + split.
      * intros d c i H. apply Hkeep. unfold stored_text in *.
        rewrite Hdb. exact H.
      * intros Hfresh. rewrite Hfs2, (Hfs Hfresh). reflexivity.
  - split.
    + intros d c i H. unfold stored_text in *. rewrite Hdb. exact H.
    + intros Hfresh. rewrite (Hfs Hfresh). reflexivity.
Qed.

Lemma process_loop_effect (query : str) (files : list UploadedFile) :
  forall (results : list DataFrame) (w : World),
    keeps_ids w (snd (process_loop env query files results w))
    /\ ((forall path, named_temporary_file env (fs w) = Ok path ->
           fs w !! path = None) ->
        fs (snd (process_loop env query files results w)) = fs w).
Proof.
  induction files as [|f files IH]; intros results w; cbn [process_loop].
  - split; [apply keeps_ids_refl|reflexivity].
  - unfold bind. destruct (process_pdf_effect query f w) as [Hkeep Hfs].
    destruct (process_pdf env query f w) as [[df|e] w1]; cbn [snd] in *.
    + destruct (IH (results ++ [df]) w1) as [Hkeep' Hfs'].
      split; [exact (keeps_ids_trans _ _ _ Hkeep Hkeep')|].
      intros Hfresh. pose proof (Hfs Hfresh) as E.
      rewrite Hfs'; [exact E|]. rewrite E. exact Hfresh.
    + split; [exact Hkeep|exact Hfs].
Qed.

Lemma process_multiple_pdfs_world (files : list UploadedFile) (query : str)
    (w : World) :
  snd (process_multiple_pdfs env files query w)
  = snd (process_loop env query files [] w).
Proof.
  unfold process_multiple_pdfs, bind, lift, ret.
  destruct (process_loop env query files [] w) as [[dfs|e] w1];
    [|reflexivity].
  destruct (Pd.concat dfs); reflexivity.
Qed.

Lemma loop_ok_app_inv (query : str) (pre post : list UploadedFile) :
  forall (w w' : World) (dfs : list DataFrame),
    loop_ok env query (pre ++ post) w dfs w' ->
    exists dfs1 dfs2 w1,
      dfs = dfs1 ++ dfs2 /\ loop_ok env query pre w dfs1 w1
      /\ loop_ok env query post w1 dfs2 w'.
Proof.
  induction pre as [|f pre IH]; intros w w' dfs H.
  - exists [], dfs, w. split; [reflexivity|]. split; [constructor|exact H].
  - cbn [app] in H. inversion H as [|f' files' w0 w1 w2 df dfs' Hf Hrest];
      subst.
    destruct (IH _ _ _ Hrest) as (dfs1 & dfs2 & w3 & -> & H1 & H2).
    exists (df :: dfs1), dfs2, w3. split; [reflexivity|].
    split; [|exact H2]. exact (loop_ok_cons _ _ _ _ _ _ _ _ _ Hf H1).
Qed.

End PipelineEffects.

(** X14: when [get_pdf_text] returns, it returns one document for every page
    the parser found in the uploaded bytes, in the order of the pages and
    numbered from 0; the source every document names is the temporary
    file, which is no longer on disk, and the index is untouched. *)
Theorem get_pdf_text_returns_pages (env : Env) (f : UploadedFile)
    (w w' : World) (docs : list Document) :
  get_pdf_text env f w = (Ok docs, w') ->
  exists data path pages,
    read f = Ok data
    /\ named_temporary_file env (fs w) = Ok path
    /\ pdf_pages env data = Ok pages
    /\ length docs = length pages
    /\ (forall i text, pages !! i = Some text ->
          docs !! i = Some {| page_content := text;
                              metadata := {| source := path;
                                             page := Z.of_nat i |} |})
    /\ fs w' !! path = None
    /\ db w' = db w.
Proof.
  intros H.
  destruct (read f) as [data|e] eqn:Hread;
    [|rewrite (get_pdf_text_read_raises env f w e Hread) in H;
      discriminate H].
  destruct (named_temporary_file env (fs w)) as [path|e] eqn:Htmp;
    [|rewrite (get_pdf_text_tempfile_raises env f w data e Hread Htmp) in H;
      discriminate H].
  rewrite (get_pdf_text_created env f w data path Hread Htmp) in H.
  destruct (file_write env path data) as [[]|e]; [|discriminate H].
  destruct (pdf_pages env data) as [pages|e] eqn:Hpages; [|discriminate H].
  injection H as <- <-. exists data, path, pages.
  split; [reflexivity|]. split; [reflexivity|]. split; [exact Hpages|].
  split; [unfold number_pages; apply length_imap|]. split.
  - intros i text Hi. unfold number_pages.
    rewrite list_lookup_imap, Hi. reflexivity.
  - split; [cbn; apply lookup_delete_eq|reflexivity].
Qed.

Lemma get_pdf_text_returns_pages_witness :
  get_pdf_text Demo.env Demo.invoice1 Demo.nothing
  = (Ok [{| page_content := py "Total: $42.00";
            metadata := {| source := Demo.tmp_path; page := 0 |} |}],
     Demo.nothing)
  /\ exists data path pages,
       read Demo.invoice1 = Ok data
       /\ named_temporary_file Demo.env (fs Demo.nothing) = Ok path
       /\ pdf_pages Demo.env data = Ok pages
       /\ fs Demo.nothing !! path = None.
Proof.
  assert (H : get_pdf_text Demo.env Demo.invoice1 Demo.nothing
              = (Ok [{| page_content := py "Total: $42.00";
                        metadata := {| source := Demo.tmp_path;
                                       page := 0 |} |}],
                 Demo.nothing)) by (vm_compute; reflexivity).
  split; [exact H|].
  destruct (get_pdf_text_returns_pages _ _ _ _ _ H)
    as (data & path & pages & H1 & H2 & H3 & _ & _ & H4 & _).
  exists data, path, pages. repeat split; assumption.
Defined.

Section PromptFacts.

Lemma join_app (sep : str) (a b : list str) :
  a <> [] -> b <> [] -> join sep (a ++ b) = join sep a ++ sep ++ join sep b.
Proof.
  intros Ha Hb. induction a as [|x a IH]; [contradiction|].
  destruct a as [|y a].
  - cbn [app join]. destruct b as [|z b]; [contradiction|]. reflexivity.
  - change (join sep ((x :: y :: a) ++ b))
      with (x ++ sep ++ join sep ((y :: a) ++ b)).
    rewrite IH by discriminate.
    change (join sep (x :: y :: a)) with (x ++ sep ++ join sep (y :: a)).
    rewrite <- !app_assoc. reflexivity.
Qed.

Lemma join_occurs_in (sep p : str) (l : list str) :
  p ∈ l -> occurs_in p (join sep l).
Proof.
  induction l as [|x l IH]; intros H; [inversion H|].
  destruct l as [|y l].
  - apply list_elem_of_singleton in H. subst p. apply occurs_in_refl.
  - change (join sep (x :: y :: l)) with (x ++ sep ++ join sep (y :: l)).
    apply elem_of_cons in H as [->|H].
    + apply occurs_in_app_l, occurs_in_refl.
    + apply occurs_in_app_r, occurs_in_app_r, IH, H.
Qed.

End PromptFacts.

(** X15: the context of the prompt is the texts of the retrieved documents,
    in the order of retrieval, two line feeds between one and the next:
    formatting two lists one after the other gives the two contexts with
    two line feeds between them, and the prompt holds the text of every
    retrieved document and the question as they are. *)
Theorem prompt_holds_documents_and_question (docs : list Document)
    (query : str) :
  (forall a b, a <> [] -> b <> [] ->
     format_docs (a ++ b) = format_docs a ++ [LF; LF] ++ format_docs b)
  /\ (forall d, d ∈ docs ->
        occurs_in (page_content d) (PROMPT_TEMPLATE (format_docs docs) query))
  /\ occurs_in query (PROMPT_TEMPLATE (format_docs docs) query).
Proof.
  split; [|split].
  - intros a b Ha Hb. unfold format_docs. rewrite map_app.
    apply join_app; intros H; apply map_eq_nil in H; contradiction.
  - intros d Hd. unfold PROMPT_TEMPLATE.
    apply occurs_in_app_r, occurs_in_app_l. unfold format_docs.
    apply join_occurs_in, list_elem_of_fmap_2, Hd.
  - unfold PROMPT_TEMPLATE.
    apply occurs_in_app_r, occurs_in_app_r, occurs_in_app_r, occurs_in_app_l,
      occurs_in_refl.
Qed.

(** X16: [query_document] only reads: the world is as before on every exit.
    What it returns depends on the world through the collection of the
    handle only, and when it returns a frame, the frame is the one row of
    the four answers of the model to the prompt made of the documents
    retrieved from that collection. *)
Theorem query_document_reads_only (env : Env) (v : Chroma) (query : str)
    (w : World) :
  snd (query_document env v query w) = w
  /\ (forall w',
        db w' !! (persist_directory v, collection_name v)
        = db w !! (persist_directory v, collection_name v) ->
        fst (query_document env v query w')
        = fst (query_document env v query w))
  /\ (forall df,
        fst (query_document env v query w) = Ok df ->
        exists docs info,
          similarity_search env
            (default ∅ (db w !! (persist_directory v, collection_name v)))
            query = Ok docs
          /\ llm_structured env (PROMPT_TEMPLATE (format_docs docs) query)
             = Ok info
          /\ df = answer_frame info).
Proof.
  split; [apply query_document_world|]. split.
  - intros w' Hdb. unfold query_document, rag_chain, retriever, bind, lift, ret.
    rewrite Hdb. destruct (similarity_search env _ query); [|reflexivity].
    destruct (llm_structured env _); reflexivity.
  - intros df. unfold query_document, rag_chain, retriever, bind, lift, ret.
    destruct (similarity_search env _ query) as [docs|];
      [|discriminate].
    destruct (llm_structured env _) as [info|] eqn:Hllm; [|discriminate].
    cbn [fst]. intros H. injection H as <-. exists docs, info.
    split; [reflexivity|]. split; [exact Hllm|reflexivity].
Qed.

(** X17: [process_multiple_pdfs] leaves no temporary file behind: when the
    name the temporary file gets is new on the disk the run starts with,
    the disk is as before when the run is over, whether it returns a table
    or raises. *)
Theorem process_multiple_pdfs_leaves_disk (env : Env)
    (pdf_files : list UploadedFile) (query : str) (w : World) :
  (forall path, named_temporary_file env (fs w) = Ok path ->
     fs w !! path = None) ->
  fs (snd (process_multiple_pdfs env pdf_files query w)) = fs w.
Proof.
  intros Hfresh. rewrite process_multiple_pdfs_world.
  apply (process_loop_effect env query pdf_files [] w), Hfresh.
Qed.

Lemma process_multiple_pdfs_leaves_disk_witness :
  fs (snd (process_multiple_pdfs Demo.env
             [Demo.invoice1; Demo.corrupt; Demo.invoice2] Demo.query
             Demo.nothing))
  = fs Demo.nothing.
Proof.
  apply (process_multiple_pdfs_leaves_disk Demo.env).
  intros path _. reflexivity.
Defined.

(** X18: [process_multiple_pdfs] removes nothing from the index: an id that
    a collection holds before the run is an id of that collection after it,
    whether the run returns a table or raises. *)
Theorem process_multiple_pdfs_keeps_ids (env : Env)
    (pdf_files : list UploadedFile) (query : str) (w : World)
    (directory collection id : str) :
  is_Some (stored_text w directory collection id) ->
  is_Some (stored_text (snd (process_multiple_pdfs env pdf_files query w))
             directory collection id).
Proof.
  rewrite process_multiple_pdfs_world.
  apply (process_loop_effect env query pdf_files [] w).
Qed.

Lemma process_multiple_pdfs_keeps_ids_witness :
  is_Some (stored_text (snd Demo.run1) (py "db") (py "Invoice.pdf") Demo.id42)
  /\ is_Some (stored_text
                (snd (process_multiple_pdfs Demo.env
                        [Demo.invoice2; Demo.corrupt] Demo.query
                        (snd Demo.run1)))
                (py "db") (py "Invoice.pdf") Demo.id42).
Proof.
  assert (H : is_Some (stored_text (snd Demo.run1) (py "db")
                         (py "Invoice.pdf") Demo.id42))
    by (exists (py "Total: $42.00"); vm_compute; reflexivity).
  split; [exact H|].
  exact (process_multiple_pdfs_keeps_ids Demo.env
           [Demo.invoice2; Demo.corrupt] Demo.query (snd Demo.run1) _ _ _ H).
Defined.

(** X19: the rows of the first files do not depend on the files after them:
    when a batch returns a table, the batch cut after any of its files
    returns a table too, with the same columns and the rows the longer
    table starts with. *)
Theorem process_multiple_pdfs_prefix (env : Env) (query : str)
    (pre post : list UploadedFile) (w w' : World) (table : DataFrame) :
  pre <> [] ->
  process_multiple_pdfs env (pre ++ post) query w = (Ok table, w') ->
  exists table1 w1,
    process_multiple_pdfs env pre query w = (Ok table1, w1)
    /\ columns table1 = columns table
    /\ rows table1 = take (length pre) (rows table).
Proof.
  intros Hne Hrun.
  destruct (process_multiple_pdfs_returns_inv env query _ _ _ _ Hrun)
    as (dfs & Hok).
  destruct (loop_ok_app_inv env query pre post _ _ _ Hok)
    as (dfs1 & dfs2 & w1 & -> & Hok1 & Hok2).
  destruct (loop_ok_frames env query _ _ _ _ Hok1) as (infos1 & Hlen1 & ->).
  destruct (loop_ok_frames env query _ _ _ _ Hok2) as (infos2 & Hlen2 & ->).
  assert (Hl1 : zip (map name pre) infos1 <> []).
  { destruct pre; [contradiction|]. destruct infos1; discriminate. }
  unfold process_multiple_pdfs, bind, lift, ret in Hrun |- *.
  rewrite (process_loop_ok env query _ _ _ _ Hok []) in Hrun.
  rewrite (process_loop_ok env query _ _ _ _ Hok1 []).
  cbn [app] in *. rewrite <- map_app in Hrun.
  rewrite concat_file_frames in Hrun
    by (intros E; apply app_eq_nil in E as [E _]; contradiction).
  rewrite concat_file_frames by exact Hl1.
  injection Hrun as <-. eexists _, _. split; [reflexivity|].
  cbn [columns rows]. split; [reflexivity|].
  rewrite map_app, take_app_length'; [reflexivity|].
  rewrite length_map, length_zip_with, length_map. lia.
Qed.

Lemma process_multiple_pdfs_prefix_witness :
  [Demo.invoice1] <> []
  /\ exists table1 w1,
       process_multiple_pdfs Demo.env [Demo.invoice1] Demo.query Demo.nothing
       = (Ok table1, w1)
       /\ rows table1
          = [ [Some (py "Invoice (1).pdf"); Some (py "unknown");
               Some (py "unknown"); Some (py "unknown");
               Some (py "$42.00")] ].
Proof.
  assert (Hne : [Demo.invoice1] <> []) by discriminate.
  split; [exact Hne|].
  assert (Hrun : process_multiple_pdfs Demo.env
                   ([Demo.invoice1] ++ [Demo.invoice2]) Demo.query
                   Demo.nothing
                 = (Ok {| columns := result_columns;
                          rows := [ [Some (py "Invoice (1).pdf");
                                     Some (py "unknown"); Some (py "unknown");
                                     Some (py "unknown"); Some (py "$42.00")];
                                    [Some (py "Invoice (2).pdf");
                                     Some (py "unknown"); Some (py "unknown");
                                     Some (py "unknown");
                                     Some (py "$42.00")] ] |},
                    snd Demo.run2)) by (vm_compute; reflexivity).
  destruct (process_multiple_pdfs_prefix Demo.env Demo.query [Demo.invoice1]
              [Demo.invoice2] Demo.nothing _ _ Hne Hrun)
    as (table1 & w1 & H1 & _ & H2).
  exists table1, w1. split; [exact H1|exact H2].
Defined.

(** ** The collections a batch writes to *)

Section BatchFrame.
Variable env : Env.

Lemma process_pdf_frame_db (query : str) (f : UploadedFile) (w : World)
    (directory collection : str) :
  (directory, collection) <> (py "db", clean_filename (name f)) ->
  db (snd (process_pdf env query f w)) !! (directory, collection)
  = db w !! (directory, collection).
Proof.
  intros Hne. destruct (get_pdf_text_effect env f w) as [Hdb _].
  unfold process_pdf, bind, lift.
  destruct (get_pdf_text env f w) as [[docs|e] w1]; cbn [snd] in *;
    [|rewrite Hdb; reflexivity].
  assert (H2 : db (snd (create_vectorstore_from_texts env docs (name f) w1))
               !! (directory, collection) = db w !! (directory, collection)).
  { unfold create_vectorstore_from_texts, bind, lift.
    destruct (split_document docs 1000 200) as [chunks|e];
      [|cbn; rewrite Hdb; reflexivity].
    destruct (create_vectorstore_world env chunks (get_embedding_function env)
                (name f) (py "db") w1) as [E|(rows & E)]; rewrite E.
    - rewrite Hdb. reflexivity.
    - destruct (upsert_collection_effect (py "db")
                  (clean_filename (name f)) rows w1) as (_ & Hother & _).
      rewrite (Hother _ _ Hne), Hdb. reflexivity. }
  destruct (create_vectorstore_from_texts env docs (name f) w1)
    as [[v|e] w2]; cbn [snd] in *; [|exact H2].
  pose proof (query_document_world env v query w2) as Hq.
  destruct (query_document env v query w2) as [[df|e] w3]; cbn [snd] in *;
    subst w3; exact H2.
Qed.

Lemma process_loop_frame_db (query : str) (files : list UploadedFile)
    (directory collection : str) :
  (forall f, f ∈ files ->
     (directory, collection) <> (py "db", clean_filename (name f))) ->
  forall (results : list DataFrame) (w : World),
    db (snd (process_loop env query files results w))
      !! (directory, collection)
    = db w !! (directory, collection).
Proof.
  induction files as [|f files IH]; intros Hne results w; cbn [process_loop].
  - reflexivity.
  - unfold bind.
    pose proof (process_pdf_frame_db query f w directory collection
                  (Hne f ltac:(left))) as Hf.
    destruct (process_pdf env query f w) as [[df|e] w1]; cbn [snd] in *;
      [|exact Hf].
    rewrite IH; [exact Hf|]. intros f' Hf'. apply Hne. right. exact Hf'.
Qed.

End BatchFrame.

(** X20: [process_multiple_pdfs] writes to the collections named by the
    cleaned names of its files, in the directory "db", and to no other:
    any other collection is as before when the run is over, whether it
    returns a table or raises. *)
Theorem process_multiple_pdfs_frame (env : Env)
    (pdf_files : list UploadedFile) (query : str) (w : World)
    (directory collection : str) :
  directory <> py "db"
  \/ collection ∉ map (fun f => clean_filename (name f)) pdf_files ->
  db (snd (process_multiple_pdfs env pdf_files query w))
    !! (directory, collection)
  = db w !! (directory, collection).
Proof.
  intros Hother. rewrite process_multiple_pdfs_world.
  apply process_loop_frame_db. intros f Hf E. injection E as Hd Hc.
  destruct Hother as [H|H]; [contradiction|]. apply H. rewrite Hc.
  apply (list_elem_of_fmap_2 (fun f => clean_filename (name f))). exact Hf.
Qed.

Lemma process_multiple_pdfs_frame_witness :
  db (snd (process_multiple_pdfs Demo.env
             [{| name := py "Receipt (3).pdf"; read := Ok (py "Paid") |}]
             Demo.query (snd Demo.run1)))
    !! (py "db", py "Invoice.pdf")
  = db (snd Demo.run1) !! (py "db", py "Invoice.pdf").
Proof.
  apply (process_multiple_pdfs_frame Demo.env).
  right. vm_compute. intros H. apply list_elem_of_singleton in H.
  discriminate H.
Defined.

(** ** The form of an identity *)

Section UuidFormat.
Import Uuid.
Local Open Scope Z_scope.










End UuidFormat.



(** ** Where the stored text comes from *)

(** X22: what [create_vectorstore_from_texts] stores is text of the pages:
    after it has returned, a text stored under an id was stored under that
    id before, or is a non-empty contiguous part of the text of one of the
    pages. *)
Theorem create_vectorstore_from_texts_stores_page_text (env : Env)
    (documents : list Document) (file_name : str) (w w' : World)
    (v : Chroma) (directory collection id text : str) :
  create_vectorstore_from_texts env documents file_name w = (Ok v, w') ->
  stored_text w' directory collection id = Some text ->
  stored_text w directory collection id = Some text
  \/ (text <> []
      /\ exists d, d ∈ documents /\ occurs_in text (page_content d)).
Proof.
  unfold create_vectorstore_from_texts, bind, lift.
  destruct (split_document documents 1000 200) as [chunks|e] eqn:Hsplit;
    [|discriminate].
  intros Hrun Hstored.
  destruct (rmap (fun doc => chunk_identity (page_content doc)) chunks)
    as [ids|e] eqn:Hids;
    [|rewrite (create_vectorstore_raises_early env _ _ _ _ e) in Hrun
        by exact Hids; discriminate Hrun].
  rewrite (create_vectorstore_run env _ _ _ _ ids _ Hids),
    Chroma_from_documents_run in Hrun.
  destruct (index_validate env _ _); [|discriminate Hrun].
  destruct (rmap (get_embedding_function env) _) as [embs|];
    [|discriminate Hrun].
  injection Hrun as _ <-. unfold stored_text in *. cbn [db set_db] in Hstored.
  destruct (decide ((py "db", clean_filename file_name)
                    = (directory, collection))) as [E|Hne];
    [|rewrite lookup_insert_ne in Hstored by exact Hne; left; exact Hstored].
  injection E as <- <-. rewrite lookup_insert_eq in Hstored.
  apply fmap_Some in Hstored as (e & He & ->).
  apply upsert_lookup_cases in He as [He|He].
  - left. destruct (db w !! (py "db", clean_filename file_name)) as [c|].
    + change (default ∅ (Some c)) with c in He. rewrite He. reflexivity.
    + change (default ∅ None) with (∅ : gmap str Entry) in He.
      rewrite lookup_empty in He. discriminate He.
  - right. apply elem_of_zip_snd, elem_of_entries in He.
    apply list_elem_of_fmap in He as (c & -> & Hc).
    apply unique_loop_subset in Hc as [Hc|Hc]; [inversion Hc|].
    apply elem_of_zip_fst in Hc.
    apply split_document_Ok_inv in Hsplit. subst chunks.
    apply elem_of_split_documents in Hc as (d & Hd & _ & Ht).
    unfold Splitter.split_text, Splitter.separators in Ht.
    apply split_text_with_sound in Ht as [Hne Hsub].
    split; [exact Hne|]. exists d. split; assumption.
Qed.

Lemma create_vectorstore_from_texts_stores_page_text_witness :
  let r := create_vectorstore_from_texts Demo.env
             [Demo.doc "  Total: $42.00 "] (py "Invoice (1).pdf")
             Demo.nothing in
  stored_text (snd r) (py "db") (py "Invoice.pdf") Demo.id42
  = Some (py "Total: $42.00")
  /\ (stored_text Demo.nothing (py "db") (py "Invoice.pdf") Demo.id42
      = Some (py "Total: $42.00")
      \/ (py "Total: $42.00" <> []
          /\ exists d, d ∈ [Demo.doc "  Total: $42.00 "]
                       /\ occurs_in (py "Total: $42.00") (page_content d))).
Proof.
  intros r.
  assert (Hr : r = (Ok {| collection_name := py "Invoice.pdf";
                          persist_directory := py "db" |}, snd r))
    by (vm_compute; reflexivity).
  assert (Hs : stored_text (snd r) (py "db") (py "Invoice.pdf") Demo.id42
               = Some (py "Total: $42.00")) by (vm_compute; reflexivity).
  split; [exact Hs|].
  exact (create_vectorstore_from_texts_stores_page_text Demo.env _ _ _ _ _
           _ _ _ _ Hr Hs).
Defined.
